(** * css-analyzer: the analysis engine of [src/index.js]

    A shallow embedding of [analyze] and of the walk callback it passes to the
    tree walker, together with the properties of the report it assembles.

    Conventions.
    - JavaScript strings are [string]; one character stands for one code unit.
    - Counters and sizes, which the engine only ever increments from zero, are
      [nat]; specificity components and other samples are [Z]; every number
      that reaches the report is a rational ([Q]), so a division is exact.
    - The report is a JSON-like tree ([Json.JsValue]).
    - Everything the engine imports is either modelled from the specification
      (and says so) or taken as a field of the record [Imports]. *)

From Stdlib Require Import List String Ascii Bool Arith PeanoNat ZArith QArith Lia.
From Stdlib Require Import DecimalString.
Import ListNotations.

Set Warnings "-register-all".

Local Open Scope string_scope.
Local Open Scope list_scope.
Local Open Scope nat_scope.

(* ------------------------------------------------------------------------- *)
(** ** JavaScript string built-ins used by the engine *)

Module JsString.

(** [s.substring(a, b)]: both indices are clamped to the length and swapped
    when they come in the wrong order. *)
Definition substring (a b : nat) (s : string) : string :=
  let len := String.length s in
  let a' := Nat.min a len in
  let b' := Nat.min b len in
  String.substring (Nat.min a' b') (Nat.max a' b' - Nat.min a' b') s.

(** A character stands for a UTF-16 code unit below 256.  The white space
    and line terminators that [trim] strips are, among these, the codes 9 to
    13, the space and the no-break space U+00A0. *)
Definition isWhiteSpace (c : ascii) : bool :=
  match nat_of_ascii c with
  | 9 | 10 | 11 | 12 | 13 | 32 | 160 => true
  | _ => false
  end.

Fixpoint trimStart (s : string) : string :=
  match s with
  | EmptyString => EmptyString
  | String c s' => if isWhiteSpace c then trimStart s' else s
  end.

Fixpoint trimEnd (s : string) : string :=
  match s with
  | EmptyString => EmptyString
  | String c s' =>
      match trimEnd s' with
      | EmptyString => if isWhiteSpace c then EmptyString else String c EmptyString
      | t => String c t
      end
  end.

(** [s.trim()] *)
Definition trim (s : string) : string := trimEnd (trimStart s).

(** [s.split(sep)] for a one-character separator; the result is never
    empty ([''.split(',')] is [['']]). *)
Fixpoint split (sep : ascii) (s : string) : list string :=
  match s with
  | EmptyString => [EmptyString]
  | String c s' =>
      if Ascii.eqb c sep then EmptyString :: split sep s'
      else match split sep s' with
           | [] => [String c EmptyString]
           | h :: t => String c h :: t
           end
  end.

(** The code units below 256 that have a lower-case form are [A] to [Z] and
    the Latin-1 capitals U+00C0 to U+00DE without the multiplication sign
    U+00D7; the lower-case form is 32 further on. *)
Definition lowerChar (c : ascii) : ascii :=
  let n := nat_of_ascii c in
  if (65 <=? n) && (n <=? 90)
     || (192 <=? n) && (n <=? 222) && negb (n =? 215)
  then ascii_of_nat (n + 32) else c.

(** [s.toLowerCase()] *)
Fixpoint toLowerCase (s : string) : string :=
  match s with
  | EmptyString => EmptyString
  | String c s' => String (lowerChar c) (toLowerCase s')
  end.

(** String conversion of an integer, as in ['hex' + n] and [a + ',' + b]. *)
Definition ofNat (n : nat) : string := NilZero.string_of_uint (Nat.to_uint n).
Definition ofZ (z : Z) : string := NilZero.string_of_int (Z.to_int z).

End JsString.

(* ------------------------------------------------------------------------- *)
(** ** [string-utils.js] *)

Module StringUtils.

(** Modelled from the spec: [string-utils.js] is not part of the sources at
    hand.  The specification uses the three helpers as "is equal to",
    "begins with" and "ends in"; the first argument is the fixed pattern,
    the second the string under test. *)
Definition strEquals (base test : string) : bool := String.eqb base test.

Definition startsWith (base test : string) : bool := String.prefix base test.

Definition endsWith (base test : string) : bool :=
  let len := String.length test in
  let offset := len - String.length base in
  if len <? String.length base then false
  else String.eqb (String.substring offset (String.length base) test) base.

End StringUtils.

(* ------------------------------------------------------------------------- *)
(** ** Report values *)

Module Json.

(** A JavaScript value as it occurs in the report.  [VObj] is an object
    literal, whose keys are fixed by the code; [VDict] is an object obtained
    from a map ([Object.fromEntries]), whose keys come from the analysed
    style sheet. *)
Inductive JsValue : Type :=
| VNum (q : Q)
| VStr (s : string)
| VArr (items : list JsValue)
| VObj (fields : list (string * JsValue))
| VDict (entries : list (string * JsValue)).

Definition num (n : nat) : JsValue := VNum (inject_Z (Z.of_nat n)).
Definition numZ (z : Z) : JsValue := VNum (inject_Z z).

Fixpoint lookup (k : string) (fs : list (string * JsValue)) : option JsValue :=
  match fs with
  | [] => None
  | (k', v) :: fs' => if String.eqb k' k then Some v else lookup k fs'
  end.

(** [v.k1.k2...] *)
Fixpoint get (path : list string) (v : JsValue) : option JsValue :=
  match path with
  | [] => Some v
  | k :: path' =>
      match v with
      | VObj fs | VDict fs =>
          match lookup k fs with
          | Some x => get path' x
          | None => None
          end
      | _ => None
      end
  end.

Fixpoint setField (k : string) (v : JsValue) (fs : list (string * JsValue))
  : list (string * JsValue) :=
  match fs with
  | [] => [(k, v)]
  | (k', v') :: fs' =>
      if String.eqb k' k then (k', v) :: fs' else (k', v') :: setField k v fs'
  end.

(** [Object.assign(target, source)]: a key of [source] overwrites the same
    key of [target] in place, a new key is appended. *)
Definition assign (target source : list (string * JsValue)) : list (string * JsValue) :=
  fold_left (fun t kv => setField (fst kv) (snd kv) t) source target.

(** [forall_fields name p v]: every field called [name] of an object literal
    anywhere inside [v] satisfies [p].  Keys of a [VDict] are data, not field
    names; the values below them are searched. *)
Fixpoint forall_fields (name : string) (p : JsValue -> bool) (v : JsValue) : bool :=
  match v with
  | VObj fs =>
      (fix go (fs : list (string * JsValue)) : bool :=
         match fs with
         | [] => true
         | (k, x) :: fs' =>
             (if String.eqb k name then p x else true)
             && forall_fields name p x && go fs'
         end) fs
  | VDict es =>
      (fix go (es : list (string * JsValue)) : bool :=
         match es with
         | [] => true
         | (_, x) :: es' => forall_fields name p x && go es'
         end) es
  | VArr l =>
      (fix go (l : list JsValue) : bool :=
         match l with
         | [] => true
         | x :: l' => forall_fields name p x && go l'
         end) l
  | _ => true
  end.

(** The number of fields called [name] of object literals inside [v]. *)
Fixpoint count_fields (name : string) (v : JsValue) : nat :=
  match v with
  | VObj fs =>
      (fix go (fs : list (string * JsValue)) : nat :=
         match fs with
         | [] => 0
         | (k, x) :: fs' =>
             (if String.eqb k name then 1 else 0) + count_fields name x + go fs'
         end) fs
  | VDict es =>
      (fix go (es : list (string * JsValue)) : nat :=
         match es with
         | [] => 0
         | (_, x) :: es' => count_fields name x + go es'
         end) es
  | VArr l =>
      (fix go (l : list JsValue) : nat :=
         match l with
         | [] => 0
         | x :: l' => count_fields name x + go l'
         end) l
  | _ => 0
  end.

Definition isZero (v : JsValue) : bool :=
  match v with
  | VNum q => Qeq_bool q 0
  | _ => false
  end.

(** A number in the closed interval [0, 1]. *)
Definition inUnit (v : JsValue) : bool :=
  match v with
  | VNum q => Qle_bool 0 q && Qle_bool q 1
  | _ => false
  end.

End Json.
Import Json.

(* ------------------------------------------------------------------------- *)
(** ** [ratio] *)

(** [function ratio(part, total)].  Every call site passes two counts. *)
Definition ratio (part total : nat) : Q :=
  if total =? 0 then 0%Q
  else (Z.of_nat part # Pos.of_nat total)%Q.

(* ------------------------------------------------------------------------- *)
(** ** Accumulators *)

Module CountableCollection.

Section WithKey.
Variable K : Type.
Variable eqb : K -> K -> bool.

(** Modelled from the spec: [countable-collection.js] is not part of the
    sources at hand.  The state of a frequency counter is the mapping from
    a key to its occurrence count, in first-seen order; a key that is
    present has been pushed at least once, so a count is a [positive]. *)
Definition t : Type := list (K * positive).

Definition empty : t := [].

(** [push(key)] records one occurrence. *)
Fixpoint push (key : K) (c : t) : t :=
  match c with
  | [] => [(key, 1%positive)]
  | (k, n) :: c' =>
      if eqb k key then (k, Pos.succ n) :: c' else (k, n) :: push key c'
  end.

(** [new CountableCollection(initial)] pushes every item of [initial]. *)
Definition ofList (initial : list K) : t :=
  fold_left (fun c key => push key c) initial empty.

(** [size()]: the total number of occurrences. *)
Fixpoint size (c : t) : nat :=
  match c with
  | [] => 0
  | (_, n) :: c' => Pos.to_nat n + size c'
  end.

(** The number of distinct keys. *)
Definition totalUnique (c : t) : nat := List.length c.

(** The uniqueness ratio, 0 when the total is 0. *)
Definition uniquenessRatio (c : t) : JsValue :=
  VNum (ratio (totalUnique c) (size c)).

(** The per-key counts in first-seen order; [show] turns a key into a
    property name. *)
Definition unique (show : K -> string) (c : t) : JsValue :=
  VDict (map (fun kn => (show (fst kn), num (Pos.to_nat (snd kn)))) c).

(** [count()]: total occurrences, distinct-key count, uniqueness ratio and
    the per-key counts. *)
Definition count (show : K -> string) (c : t) : list (string * JsValue) :=
  [ ("total", num (size c));
    ("totalUnique", num (totalUnique c));
    ("uniquenessRatio", uniquenessRatio c);
    ("unique", unique show c) ].
End WithKey.

Arguments empty {K}.
Arguments push {K} eqb key c.
Arguments ofList {K} eqb initial.
Arguments size {K} c.
Arguments totalUnique {K} c.
Arguments uniquenessRatio {K} c.
Arguments unique {K} show c.
Arguments count {K} show c.

End CountableCollection.

Module AggregateCollection.

(** Modelled from the spec: [aggregate-collection.js] is not part of the
    sources at hand.  The aggregator retains the samples in push order and
    computes every statistic from them when it is read.  The specification
    fixes the mean of no samples (0); the other statistics of no samples are
    taken to be 0 as well. *)
Definition t : Type := list Z.

Definition empty : t := [].

Definition push (value : Z) (c : t) : t := c ++ [value].

Definition size (c : t) : nat := List.length c.

Definition toArray (c : t) : list Z := c.

Definition sum (c : t) : Z := fold_left Z.add c 0%Z.

Definition mean (c : t) : Q :=
  if size c =? 0 then 0%Q else (sum c # Pos.of_nat (size c))%Q.

Definition minimum (c : t) : Z :=
  match c with [] => 0%Z | x :: c' => fold_left Z.min c' x end.

Definition maximum (c : t) : Z :=
  match c with [] => 0%Z | x :: c' => fold_left Z.max c' x end.

Fixpoint insert (x : Z) (l : list Z) : list Z :=
  match l with
  | [] => [x]
  | y :: l' => if (x <=? y)%Z then x :: l else y :: insert x l'
  end.

Definition sort (l : list Z) : list Z := fold_right insert [] l.

(** The middle value of the sorted samples; the average of the two middle
    values when their number is even. *)
Definition median (c : t) : Q :=
  let sorted := sort c in
  let n := size c in
  if n =? 0 then 0%Q
  else if Nat.even n
       then ((nth (n / 2 - 1) sorted 0%Z + nth (n / 2) sorted 0%Z) # 2)%Q
       else inject_Z (nth (n / 2) sorted 0%Z).

(** The most frequent sample; among several, the one that occurred first. *)
Definition mode (c : t) : Z :=
  match CountableCollection.ofList Z.eqb c with
  | [] => 0%Z
  | (x, n) :: rest =>
      fst (fold_left
             (fun best kn => if (snd best <? snd kn)%positive then kn else best)
             rest (x, n))
  end.

(** [aggregate()] *)
Definition aggregate (c : t) : list (string * JsValue) :=
  [ ("count", num (size c));
    ("sum", numZ (sum c));
    ("mean", VNum (mean c));
    ("min", numZ (minimum c));
    ("max", numZ (maximum c));
    ("median", VNum (median c));
    ("mode", numZ (mode c)) ].

End AggregateCollection.

Module ContextCollection.

(** Modelled from the spec: [context-collection.js] is not part of the
    sources at hand.  The state maps a primary key to its total count and to
    the counts per secondary key, in first-seen order. *)
Definition t : Type :=
  list (string * (positive * CountableCollection.t string)).

Definition empty : t := [].

(** [push(primaryKey, secondaryKey)] records one co-occurrence. *)
Fixpoint push (item context : string) (c : t) : t :=
  match c with
  | [] => [(item, (1%positive, CountableCollection.push String.eqb context []))]
  | (k, (n, per)) :: c' =>
      if String.eqb k item
      then (k, (Pos.succ n, CountableCollection.push String.eqb context per)) :: c'
      else (k, (n, per)) :: push item context c'
  end.

Fixpoint size (c : t) : nat :=
  match c with
  | [] => 0
  | (_, (n, _)) :: c' => Pos.to_nat n + size c'
  end.

Definition totalUnique (c : t) : nat := List.length c.

Definition showEntry (e : string * (positive * CountableCollection.t string))
  : string * JsValue :=
  (fst e,
   VObj [ ("total", num (Pos.to_nat (fst (snd e))));
          ("unique",
           VDict (map (fun kn => (fst kn, num (Pos.to_nat (snd kn)))) (snd (snd e)))) ]).

(** [count()]: total, number of distinct primary keys, uniqueness ratio and,
    per primary key, its total and its counts per secondary key. *)
Definition uniquenessRatio (c : t) : JsValue :=
  VNum (ratio (totalUnique c) (size c)).

Definition unique (c : t) : JsValue := VDict (map showEntry c).

Definition count (c : t) : list (string * JsValue) :=
  [ ("total", num (size c));
    ("totalUnique", num (totalUnique c));
    ("uniquenessRatio", uniquenessRatio c);
    ("unique", unique c) ].

End ContextCollection.

(* ------------------------------------------------------------------------- *)
(** ** Specificity *)

(** [@typedef {[number, number, number]} Specificity] *)
Definition Specificity : Type := (Z * Z * Z)%type.

Definition specA (s : Specificity) : Z := fst (fst s).
Definition specB (s : Specificity) : Z := snd (fst s).
Definition specC (s : Specificity) : Z := snd s.

(** Modelled from the spec: [selectors/utils.js], where [compareSpecificity]
    lives, is not part of the sources at hand.  The specification gives it as
    the comparison of a, then b, then c, and fixes its sign through the two
    trackers: the smallest tuple wins for the field called [min], which is
    replaced when [compare(current, candidate) < 0].  So the result is
    negative when the second tuple is the smaller one: it is the difference
    of the second tuple and the first at the first component in which they
    differ, and zero for equal tuples. *)
Definition compareSpecificity (x y : Specificity) : Z :=
  if (specA x =? specA y)%Z then
    if (specB x =? specB y)%Z then (specC y - specC x)%Z
    else (specB y - specB x)%Z
  else (specA y - specA x)%Z.

(* ------------------------------------------------------------------------- *)
(** ** Computations that read and update a state and may throw *)

Module Exec.

(** A JavaScript exception; the engine itself throws none, but reading a
    property of [null] or [undefined] does. *)
Inductive Exn : Type :=
| TypeError (what : string).

Definition M (S A : Type) : Type := S -> Exn + (A * S).

Definition ret {S A : Type} (a : A) : M S A := fun s => inr (a, s).

Definition bind {S A B : Type} (m : M S A) (f : A -> M S B) : M S B :=
  fun s =>
    match m s with
    | inl e => inl e
    | inr (a, s') => f a s'
    end.

Definition throw {S A : Type} (e : Exn) : M S A := fun _ => inl e.

Definition gets {S A : Type} (f : S -> A) : M S A := fun s => inr (f s, s).

Definition modify {S : Type} (f : S -> S) : M S unit := fun s => inr (tt, f s).

(** [l.forEach(f)] *)
Fixpoint forEach {S A : Type} (f : A -> M S unit) (l : list A) : M S unit :=
  match l with
  | [] => ret tt
  | x :: l' => bind (f x) (fun _ => forEach f l')
  end.

(** [if (c) { m }] *)
Definition when {S : Type} (c : bool) (m : M S unit) : M S unit :=
  if c then m else ret tt.

End Exec.
Import Exec.

Declare Scope exec_scope.
Delimit Scope exec_scope with exec.
Notation "x <- m ;; k" := (bind m (fun x => k))
  (at level 61, m at next level, right associativity) : exec_scope.
Notation "m ;; k" := (bind m (fun _ => k))
  (at level 61, right associativity) : exec_scope.
Local Open Scope exec_scope.

(* ------------------------------------------------------------------------- *)
(** ** The syntax tree and the walker *)

Module CssTree.

(** [node.loc.start.offset], [node.loc.end.line] *)
Record Position : Type := { offset : nat; line : Z }.
Record Loc : Type := { start : Position; end_ : Position }.

(** [declaration.important] is [true], [false] or, for [!ie] and the like,
    the text after the exclamation mark. *)
Inductive Important : Type :=
| ImportantFlag (b : bool)
| ImportantText (s : string).

(** The node kinds the engine looks at, with the fields it reads.  A node of
    any other kind is a [Generic] node: [type] is the name of its kind, none
    of the names above, and [children] are its sub-nodes in the order the
    walker visits them. *)
Inductive CssNode : Type :=
| StyleSheet (loc : Loc) (children : list CssNode)
| Atrule (loc : Loc) (name : string) (prelude : option CssNode) (block : option CssNode)
| AtrulePrelude (loc : Loc) (children : list CssNode)
| Rule (loc : Loc) (prelude : CssNode) (block : CssNode)
| SelectorList (loc : Loc) (children : list CssNode)
| Selector (loc : Loc) (children : list CssNode)
| Block (loc : Loc) (children : list CssNode)
| Declaration (loc : Loc) (important : Important) (property : string) (value : CssNode)
| Value (loc : Loc) (children : list CssNode)
| Raw (loc : Loc) (value : string)
| Dimension (loc : Loc) (value : string) (unit : string)
| Url (loc : Loc) (value : string)
| Hash (loc : Loc) (value : string)
| Identifier (loc : Loc) (name : string)
| Function (loc : Loc) (name : string) (children : list CssNode)
| Operator (loc : Loc) (value : string)
| Generic (type : string) (loc : Loc) (name : string) (children : list CssNode).

Definition nodeLoc (node : CssNode) : Loc :=
  match node with
  | StyleSheet l _ | Atrule l _ _ _ | AtrulePrelude l _ | Rule l _ _
  | SelectorList l _ | Selector l _ | Block l _ | Declaration l _ _ _
  | Value l _ | Raw l _ | Dimension l _ _ | Url l _ | Hash l _
  | Identifier l _ | Function l _ _ | Operator l _ | Generic _ l _ _ => l
  end.

(** [node.type] *)
Definition nodeType (node : CssNode) : string :=
  match node with
  | StyleSheet _ _ => "StyleSheet"
  | Atrule _ _ _ _ => "Atrule"
  | AtrulePrelude _ _ => "AtrulePrelude"
  | Rule _ _ _ => "Rule"
  | SelectorList _ _ => "SelectorList"
  | Selector _ _ => "Selector"
  | Block _ _ => "Block"
  | Declaration _ _ _ _ => "Declaration"
  | Value _ _ => "Value"
  | Raw _ _ => "Raw"
  | Dimension _ _ _ => "Dimension"
  | Url _ _ => "Url"
  | Hash _ _ => "Hash"
  | Identifier _ _ => "Identifier"
  | Function _ _ _ => "Function"
  | Operator _ _ => "Operator"
  | Generic t _ _ _ => t
  end.

(** [node.children], [None] for a kind without a child list. *)
Definition nodeChildren (node : CssNode) : option (list CssNode) :=
  match node with
  | StyleSheet _ cs | AtrulePrelude _ cs | SelectorList _ cs | Selector _ cs
  | Block _ cs | Value _ cs | Function _ _ cs | Generic _ _ _ cs => Some cs
  | _ => None
  end.

(** [node.name]; the walker stores only at-rules in [this.atrule]. *)
Definition nodeName (node : CssNode) : string :=
  match node with
  | Atrule _ n _ _ | Identifier _ n | Function _ n _ | Generic _ _ n _ => n
  | _ => EmptyString
  end.

(** [node.property] and [node.important]; the walker stores only
    declarations in [this.declaration]. *)
Definition nodeProperty (node : CssNode) : string :=
  match node with
  | Declaration _ _ p _ => p
  | _ => EmptyString
  end.

Definition nodeImportant (node : CssNode) : Important :=
  match node with
  | Declaration _ i _ _ => i
  | _ => ImportantFlag false
  end.

(** The direct sub-nodes of a node, in the order the walker visits them. *)
Definition subnodes (node : CssNode) : list CssNode :=
  match node with
  | StyleSheet _ cs | AtrulePrelude _ cs | SelectorList _ cs | Selector _ cs
  | Block _ cs | Value _ cs | Function _ _ cs | Generic _ _ _ cs => cs
  | Atrule _ _ p b =>
      match p with Some x => [x] | None => [] end
      ++ match b with Some x => [x] | None => [] end
  | Rule _ p b => [p; b]
  | Declaration _ _ _ v => [v]
  | Raw _ _ | Dimension _ _ _ | Url _ _ | Hash _ _ | Identifier _ _
  | Operator _ _ => []
  end.

(** What the walker hands to the callback as [this]: the nearest enclosing
    at-rule, at-rule prelude and declaration, [None] for [null]. *)
Record Context : Type :=
  { atrule : option CssNode;
    atrulePrelude : option CssNode;
    declaration : option CssNode }.

Definition rootContext : Context :=
  {| atrule := None; atrulePrelude := None; declaration := None |}.

(** The context in which the sub-nodes of [node] are visited. *)
Definition enterContext (ctx : Context) (node : CssNode) : Context :=
  match node with
  | Atrule _ _ _ _ =>
      {| atrule := Some node;
         atrulePrelude := atrulePrelude ctx; declaration := declaration ctx |}
  | AtrulePrelude _ _ =>
      {| atrule := atrule ctx;
         atrulePrelude := Some node; declaration := declaration ctx |}
  | Declaration _ _ _ _ =>
      {| atrule := atrule ctx;
         atrulePrelude := atrulePrelude ctx; declaration := Some node |}
  | _ => ctx
  end.

(** What the callback returns: nothing, [this.skip] or [this.break]. *)
Inductive Signal : Type := Continue | Skip | Break.

Section Walker.
Variable S : Type.
Variable enter : Context -> CssNode -> M S Signal.

(** Modelled from the spec: the traversal primitive ([css-tree/walker]) is
    an external collaborator.  It calls the callback on every node in
    document order (pre-order) with the ancestor context; after "skip
    subtree" the sub-nodes of the node are not visited, after "stop" the
    traversal ends.  The result is [true] when the traversal was
    stopped. *)
Fixpoint walkNode (ctx : Context) (node : CssNode) {struct node} : M S bool :=
  sig <- enter ctx node ;;
  match sig with
  | Break => ret true
  | Skip => ret false
  | Continue =>
      let ctx' := enterContext ctx node in
      let walkList :=
        fix walkList (l : list CssNode) : M S bool :=
          match l with
          | [] => ret false
          | child :: l' =>
              stop <- walkNode ctx' child ;;
              if stop then ret true else walkList l'
          end in
      let walkOption (o : option CssNode) : M S bool :=
        match o with
        | Some child => walkNode ctx' child
        | None => ret false
        end in
      match node with
      | StyleSheet _ cs | AtrulePrelude _ cs | SelectorList _ cs
      | Selector _ cs | Block _ cs | Value _ cs | Function _ _ cs
      | Generic _ _ _ cs => walkList cs
      | Atrule _ _ p b =>
          stop <- walkOption p ;;
          if stop then ret true else walkOption b
      | Rule _ p b =>
          stop <- walkNode ctx' p ;;
          if stop then ret true else walkNode ctx' b
      | Declaration _ _ _ v => walkNode ctx' v
      | Raw _ _ | Dimension _ _ _ | Url _ _ | Hash _ _ | Identifier _ _
      | Operator _ _ => ret false
      end
  end.

(** The walk of a list of siblings. *)
Fixpoint walkNodes (ctx : Context) (l : list CssNode) : M S bool :=
  match l with
  | [] => ret false
  | child :: l' =>
      stop <- walkNode ctx child ;;
      if stop then ret true else walkNodes ctx l'
  end.

(** [walk(ast, callback)] *)
Definition walk (ast : CssNode) : M S unit :=
  _ <- walkNode rootContext ast ;; ret tt.
End Walker.

Arguments walkNode {S} enter ctx node.
Arguments walkNodes {S} enter ctx l.
Arguments walk {S} enter ast.

(** The callback calls in the order the walker makes them, for a callback
    whose signal at a node is [signal]: the walker run with a callback that
    writes each call down. *)
Definition visited (signal : Context -> CssNode -> Signal)
    (ctx : Context) (node : CssNode) : list (Context * CssNode) :=
  match walkNode (fun c n => modify (fun l => l ++ [(c, n)]) ;; ret (signal c n))
                 ctx node [] with
  | inr (_, log) => log
  | inl _ => []
  end.

End CssTree.
Import CssTree.

(* ------------------------------------------------------------------------- *)
(** ** What [index.js] imports *)

(** The result of [destructure]: each part is a string or absent. *)
Record FontParts : Type :=
  { font_size : option string;
    line_height : option string;
    font_family : option string }.

(** The external collaborators (parser, specificity calculator) and the
    classification heuristics, whose modules are not part of the sources at
    hand; the engine uses them as black boxes.  [parse] gives the tree and the
    comments it hands to [onComment], in order; a keyword set is given by its
    [has]. *)
Record Imports : Type :=
  { parse : string -> CssNode * list string;
    calculate : CssNode -> Specificity;
    isSupportsBrowserhack : CssNode -> bool;
    isMediaBrowserhack : CssNode -> bool;
    getComplexity : CssNode -> Z * bool;
    isAccessibility : CssNode -> bool;
    colorFunctions : string -> bool;
    colorKeywords : string -> bool;
    namedColors : string -> bool;
    systemColors : string -> bool;
    destructure : CssNode -> (CssNode -> string) -> FontParts;
    isSystemFont : CssNode -> bool;
    isValueKeyword : CssNode -> bool;
    analyzeAnimation : list CssNode -> (CssNode -> string) -> list string * list string;
    isAstVendorPrefixed : CssNode -> bool;
    hasVendorPrefix : string -> bool;
    isCustom : string -> bool;
    isHack : string -> bool;
    isProperty : string -> string -> bool;
    getEmbedType : string -> string;
    isIe9Hack : CssNode -> bool }.

(* ------------------------------------------------------------------------- *)
(** ** The accumulators of one [analyze] call *)

(** The [let] variables of [analyze], by kind. *)
Inductive NumberVar : Type :=
| totalComments | commentsSize | embedSize | embedTypesTotal | totalAtRules
| totalRules | emptyRules | totalDeclarations | importantDeclarations
| importantsInKeyframes.

Inductive Counter : Type :=
| embeds | layers | imports | medias | mediaBrowserhacks | charsets | supports
| supportsBrowserhacks | keyframes | prefixedKeyframes | containers
| keyframeSelectors | prefixedSelectors | uniqueSpecificities | ids | a11y
| importantCustomProperties | properties | propertyHacks
| propertyVendorPrefixes | customProperties | vendorPrefixedValues
| valueBrowserhacks | zindex | textShadows | boxShadows | fontFamilies
| fontSizes | lineHeights | timingFunctions | durations | colorFormats
| gradients.

Inductive Aggregator : Type :=
| ruleSizes | selectorsPerRule | declarationsPerRule | specificityA
| specificityB | specificityC | selectorComplexities | propertyComplexities.

Inductive Contextual : Type := colors | units.

Inductive StringSet : Type := uniqueSelectors | uniqueDeclarations.

Scheme Equality for NumberVar.
Scheme Equality for Counter.
Scheme Equality for Aggregator.
Scheme Equality for Contextual.
Scheme Equality for StringSet.

Definition update {K V : Type} (eqb : K -> K -> bool) (f : K -> V) (k : K) (v : V)
  : K -> V :=
  fun k' => if eqb k k' then v else f k'.

Record AnalysisState : Type :=
  { number : NumberVar -> nat;
    counter : Counter -> CountableCollection.t string;
    aggregator : Aggregator -> AggregateCollection.t;
    contextual : Contextual -> ContextCollection.t;
    stringSet : StringSet -> list string;
    (** [embedTypes.unique]: type to (size, count) *)
    embedTypesUnique : list (string * (nat * nat));
    fontfaces : list (list (string * string));
    maxSpecificity : option Specificity;
    minSpecificity : option Specificity;
    specificities : list Specificity }.

Definition initialState : AnalysisState :=
  {| number := fun _ => 0;
     counter := fun _ => CountableCollection.empty;
     aggregator := fun _ => AggregateCollection.empty;
     contextual := fun _ => ContextCollection.empty;
     stringSet := fun _ => [];
     embedTypesUnique := [];
     fontfaces := [];
     maxSpecificity := None;
     minSpecificity := None;
     specificities := [] |}.

Definition setNumber (v : NumberVar) (n : nat) (st : AnalysisState) : AnalysisState :=
  {| number := update NumberVar_beq (number st) v n;
     counter := counter st; aggregator := aggregator st;
     contextual := contextual st; stringSet := stringSet st;
     embedTypesUnique := embedTypesUnique st; fontfaces := fontfaces st;
     maxSpecificity := maxSpecificity st; minSpecificity := minSpecificity st;
     specificities := specificities st |}.

Definition setCounter (c : Counter) (x : CountableCollection.t string)
    (st : AnalysisState) : AnalysisState :=
  {| number := number st;
     counter := update Counter_beq (counter st) c x;
     aggregator := aggregator st;
     contextual := contextual st; stringSet := stringSet st;
     embedTypesUnique := embedTypesUnique st; fontfaces := fontfaces st;
     maxSpecificity := maxSpecificity st; minSpecificity := minSpecificity st;
     specificities := specificities st |}.

Definition setAggregator (a : Aggregator) (x : AggregateCollection.t)
    (st : AnalysisState) : AnalysisState :=
  {| number := number st; counter := counter st;
     aggregator := update Aggregator_beq (aggregator st) a x;
     contextual := contextual st; stringSet := stringSet st;
     embedTypesUnique := embedTypesUnique st; fontfaces := fontfaces st;
     maxSpecificity := maxSpecificity st; minSpecificity := minSpecificity st;
     specificities := specificities st |}.

Definition setContextual (c : Contextual) (x : ContextCollection.t)
    (st : AnalysisState) : AnalysisState :=
  {| number := number st; counter := counter st; aggregator := aggregator st;
     contextual := update Contextual_beq (contextual st) c x;
     stringSet := stringSet st;
     embedTypesUnique := embedTypesUnique st; fontfaces := fontfaces st;
     maxSpecificity := maxSpecificity st; minSpecificity := minSpecificity st;
     specificities := specificities st |}.

Definition setStringSet (s : StringSet) (x : list string)
    (st : AnalysisState) : AnalysisState :=
  {| number := number st; counter := counter st; aggregator := aggregator st;
     contextual := contextual st;
     stringSet := update StringSet_beq (stringSet st) s x;
     embedTypesUnique := embedTypesUnique st; fontfaces := fontfaces st;
     maxSpecificity := maxSpecificity st; minSpecificity := minSpecificity st;
     specificities := specificities st |}.

Definition setEmbedTypesUnique (x : list (string * (nat * nat)))
    (st : AnalysisState) : AnalysisState :=
  {| number := number st; counter := counter st; aggregator := aggregator st;
     contextual := contextual st; stringSet := stringSet st;
     embedTypesUnique := x; fontfaces := fontfaces st;
     maxSpecificity := maxSpecificity st; minSpecificity := minSpecificity st;
     specificities := specificities st |}.

Definition setFontfaces (x : list (list (string * string)))
    (st : AnalysisState) : AnalysisState :=
  {| number := number st; counter := counter st; aggregator := aggregator st;
     contextual := contextual st; stringSet := stringSet st;
     embedTypesUnique := embedTypesUnique st; fontfaces := x;
     maxSpecificity := maxSpecificity st; minSpecificity := minSpecificity st;
     specificities := specificities st |}.

Definition setMaxSpecificity (x : option Specificity)
    (st : AnalysisState) : AnalysisState :=
  {| number := number st; counter := counter st; aggregator := aggregator st;
     contextual := contextual st; stringSet := stringSet st;
     embedTypesUnique := embedTypesUnique st; fontfaces := fontfaces st;
     maxSpecificity := x; minSpecificity := minSpecificity st;
     specificities := specificities st |}.

Definition setMinSpecificity (x : option Specificity)
    (st : AnalysisState) : AnalysisState :=
  {| number := number st; counter := counter st; aggregator := aggregator st;
     contextual := contextual st; stringSet := stringSet st;
     embedTypesUnique := embedTypesUnique st; fontfaces := fontfaces st;
     maxSpecificity := maxSpecificity st; minSpecificity := x;
     specificities := specificities st |}.

Definition setSpecificities (x : list Specificity)
    (st : AnalysisState) : AnalysisState :=
  {| number := number st; counter := counter st; aggregator := aggregator st;
     contextual := contextual st; stringSet := stringSet st;
     embedTypesUnique := embedTypesUnique st; fontfaces := fontfaces st;
     maxSpecificity := maxSpecificity st; minSpecificity := minSpecificity st;
     specificities := x |}.

(** The state changes the callback makes. *)
Definition A : Type -> Type := M AnalysisState.

(** [v++] and [v += n] *)
Definition add (v : NumberVar) (n : nat) : A unit :=
  modify (fun st => setNumber v (number st v + n) st).
Definition incr (v : NumberVar) : A unit := add v 1.

(** [c.push(key)] on a frequency counter *)
Definition push (c : Counter) (key : string) : A unit :=
  modify (fun st => setCounter c (CountableCollection.push String.eqb key (counter st c)) st).

(** [a.push(value)] on a numeric aggregator *)
Definition pushSample (a : Aggregator) (value : Z) : A unit :=
  modify (fun st => setAggregator a (AggregateCollection.push value (aggregator st a)) st).

(** [c.push(item, context)] on a context counter *)
Definition pushContext (c : Contextual) (item context : string) : A unit :=
  modify (fun st => setContextual c (ContextCollection.push item context (contextual st c)) st).

(** [s.add(x)] on a [Set] of strings *)
Definition setAdd (x : string) (s : list string) : list string :=
  if existsb (String.eqb x) s then s else s ++ [x].

Definition addToSet (s : StringSet) (x : string) : A unit :=
  modify (fun st => setStringSet s (setAdd x (stringSet st s)) st).

(* ------------------------------------------------------------------------- *)
(** ** [analyze] *)

Section Analyze.

Variable I : Imports.

(** [css], the argument of [analyze], which the callback closes over. *)
Variable css : string.

Import StringUtils.

Definition stringifyNodePlain (node : CssNode) : string :=
  JsString.substring (offset (start (nodeLoc node))) (offset (end_ (nodeLoc node))) css.

Definition stringifyNode (node : CssNode) : string :=
  JsString.trim (stringifyNodePlain node).

(** [onComment] *)
Definition onComment (st : AnalysisState) (comment : string) : AnalysisState :=
  setNumber commentsSize (number st commentsSize + String.length comment)
    (setNumber totalComments (number st totalComments + 1) st).

(** [this.atrule && endsWith('keyframes', this.atrule.name)] *)
Definition inKeyframes (ctx : Context) : bool :=
  match atrule ctx with
  | Some a => endsWith "keyframes" (nodeName a)
  | None => false
  end.

(** A key that is an array index: the canonical decimal form of an integer
    from 0 to 2^32 - 2. *)
Definition arrayIndex (key : string) : option N :=
  match NilEmpty.uint_of_string key with
  | Some digits =>
      let n := N.of_uint digits in
      if String.eqb (NilZero.string_of_uint (N.to_uint n)) key && (n <? 4294967295)%N
      then Some n
      else None
  | None => None
  end.

(** A new key that the object lists before the key [key]: an array index
    comes before a greater one and before every other key. *)
Definition listedBefore (new key : string) : bool :=
  match arrayIndex new, arrayIndex key with
  | Some n, Some m => (n <? m)%N
  | Some _, None => true
  | None, _ => false
  end.

(** The value of an own property replaced; the key stays where it is. *)
Fixpoint replaceProperty (property text : string) (d : list (string * string))
  : list (string * string) :=
  match d with
  | [] => []
  | (k, v) :: d' =>
      if String.eqb k property then (k, text) :: d'
      else (k, v) :: replaceProperty property text d'
  end.

(** A new own property, at the place at which the object lists its key:
    array indices first, in ascending order, then the other keys in the
    order of their creation. *)
Fixpoint createProperty (property text : string) (d : list (string * string))
  : list (string * string) :=
  match d with
  | [] => [(property, text)]
  | (k, v) :: d' =>
      if listedBefore property k then (property, text) :: (k, v) :: d'
      else (k, v) :: createProperty property text d'
  end.

(** [descriptors[property] = text] on the object that starts as [{}]; the
    list holds the own properties of the object in the order in which the
    object lists them.  The key [__proto__] is no property of the object but
    the accessor that it inherits from [Object.prototype], whose setter
    ignores a string: the assignment leaves the object as it is. *)
Definition setDescriptor (property text : string) (d : list (string * string))
  : list (string * string) :=
  if String.eqb property "__proto__" then d
  else if existsb (fun kv => String.eqb (fst kv) property) d
       then replaceProperty property text d
       else createProperty property text d.

(** The update of [embedTypes.unique] for one embed of [type] and [size]. *)
Fixpoint countEmbedType (type : string) (size : nat) (m : list (string * (nat * nat)))
  : list (string * (nat * nat)) :=
  match m with
  | [] => [(type, (size, 1))]
  | (k, (itemSize, itemCount)) :: m' =>
      if String.eqb k type then (k, (itemSize + size, itemCount + 1)) :: m'
      else (k, (itemSize, itemCount)) :: countEmbedType type size m'
  end.

(** A string that counts as true in [if (s)]. *)
Definition truthy (o : option string) : option string :=
  match o with
  | Some EmptyString => None
  | _ => o
  end.

Definition isOperator (node : CssNode) : bool :=
  match node with
  | Operator _ _ => true
  | _ => false
  end.

(** The callback of the walk over a declaration value, which collects
    colors and gradients; [property] is the one of the declaration. *)
Definition visitValue (property : string) (_ : Context) (valueNode : CssNode)
  : A Signal :=
  let nodeName := nodeName valueNode in
  match valueNode with
  | Hash _ value =>
      let hexLength :=
        if endsWith "\9" value then String.length value - 2 else String.length value in
      pushContext colors ("#" ++ value)%string property ;;
      push colorFormats ("hex" ++ JsString.ofNat hexLength)%string ;;
      ret Skip
  | Identifier _ _ =>
      if (20 <? String.length nodeName) || (String.length nodeName <? 3) then ret Skip
      else if namedColors I nodeName then
        pushContext colors (stringifyNode valueNode) property ;;
        push colorFormats "named" ;;
        ret Continue
      else if colorKeywords I nodeName then
        pushContext colors (stringifyNode valueNode) property ;;
        push colorFormats (JsString.toLowerCase nodeName) ;;
        ret Continue
      else if systemColors I nodeName then
        pushContext colors (stringifyNode valueNode) property ;;
        push colorFormats "system" ;;
        ret Continue
      else ret Skip
  | Function _ _ _ =>
      if strEquals "var" nodeName then ret Skip
      else if colorFunctions I nodeName then
        pushContext colors (stringifyNode valueNode) property ;;
        push colorFormats (JsString.toLowerCase nodeName) ;;
        ret Continue
      else if endsWith "gradient" nodeName then
        push gradients (stringifyNode valueNode) ;;
        ret Continue
      else ret Continue
  | _ => ret Continue
  end.

Definition visitAtrule (atRuleName : string) (prelude block : option CssNode)
  : A Signal :=
  (** [stringifyNode(node.prelude)] reads [node.prelude.loc] *)
  let withPrelude (k : CssNode -> string -> A Signal) : A Signal :=
    match prelude with
    | Some p => k p (stringifyNode p)
    | None => throw (TypeError "node.prelude is null")
    end in
  incr totalAtRules ;;
  if String.eqb atRuleName "font-face" then
    match block with
    | None => throw (TypeError "node.block is null")
    | Some b =>
        match nodeChildren b with
        | None => throw (TypeError "node.block.children is undefined")
        | Some children =>
            let descriptors :=
              fold_left
                (fun d descriptor =>
                   match descriptor with
                   | Declaration _ _ property value =>
                       setDescriptor property (stringifyNode value) d
                   | _ => d
                   end)
                children [] in
            modify (fun st => setFontfaces (fontfaces st ++ [descriptors]) st) ;;
            ret Continue
        end
    end
  else if String.eqb atRuleName "media" then
    withPrelude (fun p prelude =>
      push medias prelude ;;
      when (isMediaBrowserhack I p) (push mediaBrowserhacks prelude) ;;
      ret Continue)
  else if String.eqb atRuleName "supports" then
    withPrelude (fun p prelude =>
      push supports prelude ;;
      when (isSupportsBrowserhack I p) (push supportsBrowserhacks prelude) ;;
      ret Continue)
  else if endsWith "keyframes" atRuleName then
    withPrelude (fun _ prelude =>
      let name := ("@" ++ atRuleName ++ " " ++ prelude)%string in
      when (hasVendorPrefix I atRuleName) (push prefixedKeyframes name) ;;
      push keyframes name ;;
      ret Continue)
  else if String.eqb atRuleName "import" then
    withPrelude (fun _ prelude => push imports prelude ;; ret Continue)
  else if String.eqb atRuleName "charset" then
    withPrelude (fun _ prelude => push charsets prelude ;; ret Continue)
  else if String.eqb atRuleName "container" then
    withPrelude (fun _ prelude => push containers prelude ;; ret Continue)
  else if String.eqb atRuleName "layer" then
    withPrelude (fun _ prelude =>
      forEach (fun name => push layers (JsString.trim name))
              (JsString.split "," prelude) ;;
      ret Continue)
  else ret Continue.

Definition visitRule (prelude block : CssNode) : A Signal :=
  let numSelectors :=
    match nodeChildren prelude with Some cs => List.length cs | None => 0 end in
  let numDeclarations :=
    match nodeChildren block with Some cs => List.length cs | None => 0 end in
  pushSample ruleSizes (Z.of_nat (numSelectors + numDeclarations)) ;;
  pushSample selectorsPerRule (Z.of_nat numSelectors) ;;
  pushSample declarationsPerRule (Z.of_nat numDeclarations) ;;
  incr totalRules ;;
  when (numDeclarations =? 0) (incr emptyRules) ;;
  ret Continue.

Definition visitSelector (ctx : Context) (node : CssNode) : A Signal :=
  let selector := stringifyNode node in
  if inKeyframes ctx then
    push keyframeSelectors selector ;;
    ret Skip
  else
    let specificity := calculate I node in
    when (0 <? specA specificity)%Z (push ids selector) ;;
    when (isAccessibility I node) (push a11y selector) ;;
    let complexity := fst (getComplexity I node) in
    let isPrefixed := snd (getComplexity I node) in
    when isPrefixed (push prefixedSelectors selector) ;;
    addToSet uniqueSelectors selector ;;
    pushSample selectorComplexities complexity ;;
    push uniqueSpecificities
      (JsString.ofZ (specA specificity) ++ "," ++ JsString.ofZ (specB specificity)
       ++ "," ++ JsString.ofZ (specC specificity))%string ;;
    modify (fun st =>
      match maxSpecificity st with
      | None => setMaxSpecificity (Some specificity) st
      | Some _ => st
      end) ;;
    modify (fun st =>
      match minSpecificity st with
      | None => setMinSpecificity (Some specificity) st
      | Some _ => st
      end) ;;
    pushSample specificityA (specA specificity) ;;
    pushSample specificityB (specB specificity) ;;
    pushSample specificityC (specC specificity) ;;
    modify (fun st =>
      match minSpecificity st with
      | Some current =>
          if (compareSpecificity current specificity <? 0)%Z
          then setMinSpecificity (Some specificity) st else st
      | None => st
      end) ;;
    modify (fun st =>
      match maxSpecificity st with
      | Some current =>
          if (compareSpecificity current specificity >? 0)%Z
          then setMaxSpecificity (Some specificity) st else st
      | None => st
      end) ;;
    modify (fun st => setSpecificities (specificities st ++ [specificity]) st) ;;
    ret Skip.

Definition visitDimension (ctx : Context) (unit : string) : A Signal :=
  match declaration ctx with
  | None => ret Continue
  | Some d =>
      (if endsWith "\9" unit
       then pushContext units (JsString.substring 0 (String.length unit - 2) unit)
                        (nodeProperty d)
       else pushContext units unit (nodeProperty d)) ;;
      ret Skip
  end.

Definition visitUrl (value : string) : A Signal :=
  when (startsWith "data:" value)
    (let embed := value in
     let size := String.length embed in
     let type := getEmbedType I embed in
     incr embedTypesTotal ;;
     add embedSize size ;;
     modify (fun st => setEmbedTypesUnique (countEmbedType type size (embedTypesUnique st)) st) ;;
     push embeds embed) ;;
  ret Continue.

(** One of the [-duration] and [-timing-function] branches. *)
Definition pushEach (c : Counter) (node : CssNode) (children : list CssNode) : A unit :=
  if 1 <? List.length children then
    forEach (fun child =>
               if negb (isOperator child) then push c (stringifyNode child) else ret tt)
            children
  else push c (stringifyNode node).

Definition visitValueNode (ctx : Context) (node : CssNode) (children : list CssNode)
  : A Signal :=
  if isValueKeyword I node then ret Continue
  else
    match declaration ctx with
    | None => throw (TypeError "this.declaration is null")
    | Some declaration =>
        let property := nodeProperty declaration in
        let important := nodeImportant declaration in
        let colorWalk : A Signal :=
          walk (visitValue property) node ;; ret Continue in
        when (isAstVendorPrefixed I node) (push vendorPrefixedValues (stringifyNode node)) ;;
        match important with
        | ImportantText text => push valueBrowserhacks (stringifyNodePlain node ++ "!" ++ text)%string
        | ImportantFlag _ => ret tt
        end ;;
        when (isIe9Hack I node) (push valueBrowserhacks (stringifyNode node)) ;;
        if isProperty I "z-index" property then
          push zindex (stringifyNode node) ;;
          ret Skip
        else if isProperty I "font" property then
          if isSystemFont I node then ret Continue
          else
            let parts := destructure I node stringifyNode in
            match truthy (font_family parts) with
            | Some x => push fontFamilies x | None => ret tt end ;;
            match truthy (font_size parts) with
            | Some x => push fontSizes x | None => ret tt end ;;
            match truthy (line_height parts) with
            | Some x => push lineHeights x | None => ret tt end ;;
            ret Continue
        else if isProperty I "font-size" property then
          when (negb (isSystemFont I node)) (push fontSizes (stringifyNode node)) ;;
          ret Continue
        else if isProperty I "font-family" property then
          when (negb (isSystemFont I node)) (push fontFamilies (stringifyNode node)) ;;
          ret Continue
        else if isProperty I "line-height" property then
          push lineHeights (stringifyNode node) ;;
          colorWalk
        else if isProperty I "transition" property || isProperty I "animation" property then
          let times := fst (analyzeAnimation I children stringifyNode) in
          let fns := snd (analyzeAnimation I children stringifyNode) in
          forEach (push durations) times ;;
          forEach (push timingFunctions) fns ;;
          ret Continue
        else if isProperty I "animation-duration" property
                || isProperty I "transition-duration" property then
          pushEach durations node children ;;
          ret Continue
        else if isProperty I "transition-timing-function" property
                || isProperty I "animation-timing-function" property then
          pushEach timingFunctions node children ;;
          ret Continue
        else if isProperty I "text-shadow" property then
          when (negb (isValueKeyword I node)) (push textShadows (stringifyNode node)) ;;
          colorWalk
        else if isProperty I "box-shadow" property then
          when (negb (isValueKeyword I node)) (push boxShadows (stringifyNode node)) ;;
          colorWalk
        else colorWalk
    end.

Definition isTrue (i : Important) : bool :=
  match i with
  | ImportantFlag b => b
  | ImportantText _ => false
  end.

Definition visitDeclaration (ctx : Context) (node : CssNode)
    (important : Important) (property : string) : A Signal :=
  match atrulePrelude ctx with
  | Some _ => ret Skip
  | None =>
      incr totalDeclarations ;;
      addToSet uniqueDeclarations (stringifyNode node) ;;
      when (isTrue important)
        (incr importantDeclarations ;;
         when (inKeyframes ctx) (incr importantsInKeyframes)) ;;
      push properties property ;;
      (if hasVendorPrefix I property then
         push propertyVendorPrefixes property ;;
         pushSample propertyComplexities 2
       else if isHack I property then
         push propertyHacks property ;;
         pushSample propertyComplexities 2
       else if isCustom I property then
         push customProperties property ;;
         pushSample propertyComplexities 2 ;;
         when (isTrue important) (push importantCustomProperties property)
       else pushSample propertyComplexities 1) ;;
      ret Continue
  end.

(** The callback of [walk(ast, function (node) { switch (node.type) ... })];
    [ctx] is [this]. *)
Definition visit (ctx : Context) (node : CssNode) : A Signal :=
  match node with
  | Atrule _ name prelude block => visitAtrule name prelude block
  | Rule _ prelude block => visitRule prelude block
  | Selector _ _ => visitSelector ctx node
  | Dimension _ _ unit => visitDimension ctx unit
  | Url _ value => visitUrl value
  | Value _ children => visitValueNode ctx node children
  | Declaration _ important property _ => visitDeclaration ctx node important property
  | _ => ret Continue
  end.

(** [c.count()] for a counter of strings *)
Definition countOf (st : AnalysisState) (c : Counter) : list (string * JsValue) :=
  CountableCollection.count (fun key => key) (counter st c).

Definition sizeOf (st : AnalysisState) (c : Counter) : nat :=
  CountableCollection.size (counter st c).

(** [new CountableCollection(a.toArray())], whose numeric keys become
    property names *)
Definition histogram (st : AnalysisState) (a : Aggregator) : CountableCollection.t Z :=
  CountableCollection.ofList Z.eqb (AggregateCollection.toArray (aggregator st a)).

Definition ratioOf (part total : nat) : JsValue := VNum (ratio part total).

Definition specificityValue (s : Specificity) : JsValue :=
  VArr [numZ (specA s); numZ (specB s); numZ (specC s)].

(** [x === undefined ? [0, 0, 0] : x] *)
Definition orZero (s : option Specificity) : JsValue :=
  match s with
  | None => specificityValue (0, 0, 0)%Z
  | Some x => specificityValue x
  end.

Definition specificityItems (l : list Specificity) : JsValue :=
  VArr (map specificityValue l).

Definition itemsOf (st : AnalysisState) (a : Aggregator) : JsValue :=
  VArr (map numZ (AggregateCollection.toArray (aggregator st a))).

(** [fontfaces], an array of descriptor objects *)
Definition fontfacesValue (l : list (list (string * string))) : JsValue :=
  VArr (map (fun d => VDict (map (fun kv => (fst kv, VStr (snd kv))) d)) l).

(** [Object.fromEntries(embedTypes.unique)] *)
Definition embedTypesValue (m : list (string * (nat * nat))) : JsValue :=
  VDict (map (fun e => (fst e,
                        VObj [ ("count", num (snd (snd e)));
                               ("size", num (fst (snd e))) ]))
             m).

(** [assign(a.aggregate(), {items, unique, totalUnique, uniquenessRatio})] *)
Definition sizesReport (st : AnalysisState) (a : Aggregator) : JsValue :=
  VObj (assign (AggregateCollection.aggregate (aggregator st a))
          [ ("items", itemsOf st a);
            ("unique", CountableCollection.unique JsString.ofZ (histogram st a));
            ("totalUnique", num (CountableCollection.totalUnique (histogram st a)));
            ("uniquenessRatio", CountableCollection.uniquenessRatio (histogram st a)) ]).

(** The object [analyze] returns.  [linesOfCode] and the three durations of
    [__meta__] are computed by [analyze]. *)
Definition report (st : AnalysisState) (linesOfCode parseTime analyzeTime total : Z)
  : JsValue :=
  let embeddedContent := countOf st embeds in
  let totalUniqueDeclarations := List.length (stringSet st uniqueDeclarations) in
  let totalSelectors := AggregateCollection.size (aggregator st selectorComplexities) in
  let specificitiesA := aggregator st specificityA in
  let specificitiesB := aggregator st specificityB in
  let specificitiesC := aggregator st specificityC in
  let uniqueSpecificitiesCount := counter st uniqueSpecificities in
  let complexityCount :=
    CountableCollection.count JsString.ofZ (histogram st selectorComplexities) in
  let totalUniqueSelectors := List.length (stringSet st uniqueSelectors) in
  let totalAtRules := number st totalAtRules in
  let totalRules := number st totalRules in
  let emptyRules := number st emptyRules in
  let totalDeclarations := number st totalDeclarations in
  let importantDeclarations := number st importantDeclarations in
  let importantsInKeyframes := number st importantsInKeyframes in
  let embedSize := number st embedSize in
  VObj
    [ ("stylesheet", VObj
        [ ("sourceLinesOfCode",
           num (totalAtRules + totalSelectors + totalDeclarations
                + sizeOf st keyframeSelectors));
          ("linesOfCode", numZ linesOfCode);
          ("size", num (String.length css));
          ("comments", VObj
             [ ("total", num (number st totalComments));
               ("size", num (number st commentsSize)) ]);
          ("embeddedContent", VObj (assign embeddedContent
             [ ("size", VObj
                  [ ("total", num embedSize);
                    ("ratio", ratioOf embedSize (String.length css)) ]);
               ("types", VObj
                  [ ("total", num (number st embedTypesTotal));
                    ("totalUnique", num (List.length (embedTypesUnique st)));
                    ("uniquenessRatio",
                     ratioOf (List.length (embedTypesUnique st)) (number st embedTypesTotal));
                    ("unique", embedTypesValue (embedTypesUnique st)) ]) ])) ]);
      ("atrules", VObj
        [ ("fontface", VObj
             [ ("total", num (List.length (fontfaces st)));
               ("totalUnique", num (List.length (fontfaces st)));
               ("unique", fontfacesValue (fontfaces st));
               ("uniquenessRatio",
                VNum (if List.length (fontfaces st) =? 0 then 0%Q else 1%Q)) ]);
          ("import", VObj (countOf st imports));
          ("media", VObj (assign (countOf st medias)
             [ ("browserhacks", VObj (countOf st mediaBrowserhacks)) ]));
          ("charset", VObj (countOf st charsets));
          ("supports", VObj (assign (countOf st supports)
             [ ("browserhacks", VObj (countOf st supportsBrowserhacks)) ]));
          ("keyframes", VObj (assign (countOf st keyframes)
             [ ("prefixed", VObj (assign (countOf st prefixedKeyframes)
                  [ ("ratio", ratioOf (sizeOf st prefixedKeyframes) (sizeOf st keyframes)) ])) ]));
          ("container", VObj (countOf st containers));
          ("layer", VObj (countOf st layers)) ]);
      ("rules", VObj
        [ ("total", num totalRules);
          ("empty", VObj
             [ ("total", num emptyRules);
               ("ratio", ratioOf emptyRules totalRules) ]);
          ("sizes", sizesReport st ruleSizes);
          ("selectors", sizesReport st selectorsPerRule);
          ("declarations", sizesReport st declarationsPerRule) ]);
      ("selectors", VObj
        [ ("total", num totalSelectors);
          ("totalUnique", num totalUniqueSelectors);
          ("uniquenessRatio", ratioOf totalUniqueSelectors totalSelectors);
          ("specificity", VObj
             [ ("min", orZero (minSpecificity st));
               ("max", orZero (maxSpecificity st));
               ("sum", VArr [ numZ (AggregateCollection.sum specificitiesA);
                              numZ (AggregateCollection.sum specificitiesB);
                              numZ (AggregateCollection.sum specificitiesC) ]);
               ("mean", VArr [ VNum (AggregateCollection.mean specificitiesA);
                               VNum (AggregateCollection.mean specificitiesB);
                               VNum (AggregateCollection.mean specificitiesC) ]);
               ("mode", VArr [ numZ (AggregateCollection.mode specificitiesA);
                               numZ (AggregateCollection.mode specificitiesB);
                               numZ (AggregateCollection.mode specificitiesC) ]);
               ("median", VArr [ VNum (AggregateCollection.median specificitiesA);
                                 VNum (AggregateCollection.median specificitiesB);
                                 VNum (AggregateCollection.median specificitiesC) ]);
               ("items", specificityItems (specificities st));
               ("unique", CountableCollection.unique (fun key => key) uniqueSpecificitiesCount);
               ("totalUnique", num (CountableCollection.totalUnique uniqueSpecificitiesCount));
               ("uniquenessRatio",
                CountableCollection.uniquenessRatio uniqueSpecificitiesCount) ]);
          ("complexity", VObj
             (assign (assign (AggregateCollection.aggregate (aggregator st selectorComplexities))
                             complexityCount)
                     [ ("items", itemsOf st selectorComplexities) ]));
          ("id", VObj (assign (countOf st ids)
             [ ("ratio", ratioOf (sizeOf st ids) totalSelectors) ]));
          ("accessibility", VObj (assign (countOf st a11y)
             [ ("ratio", ratioOf (sizeOf st a11y) totalSelectors) ]));
          ("keyframes", VObj (countOf st keyframeSelectors));
          ("prefixed", VObj (assign (countOf st prefixedSelectors)
             [ ("ratio", ratioOf (sizeOf st prefixedSelectors) totalSelectors) ])) ]);
      ("declarations", VObj
        [ ("total", num totalDeclarations);
          ("totalUnique", num totalUniqueDeclarations);
          ("uniquenessRatio", ratioOf totalUniqueDeclarations totalDeclarations);
          ("unique", VObj
             [ ("total", num totalUniqueDeclarations);
               ("ratio", ratioOf totalUniqueDeclarations totalDeclarations) ]);
          ("importants", VObj
             [ ("total", num importantDeclarations);
               ("ratio", ratioOf importantDeclarations totalDeclarations);
               ("inKeyframes", VObj
                  [ ("total", num importantsInKeyframes);
                    ("ratio", ratioOf importantsInKeyframes importantDeclarations) ]) ]) ]);
      ("properties", VObj (assign (countOf st properties)
        [ ("prefixed", VObj (assign (countOf st propertyVendorPrefixes)
             [ ("ratio", ratioOf (sizeOf st propertyVendorPrefixes) (sizeOf st properties)) ]));
          ("custom", VObj (assign (countOf st customProperties)
             [ ("ratio", ratioOf (sizeOf st customProperties) (sizeOf st properties));
               ("importants", VObj (assign (countOf st importantCustomProperties)
                  [ ("ratio", ratioOf (sizeOf st importantCustomProperties)
                                      (sizeOf st customProperties)) ])) ]));
          ("browserhacks", VObj (assign (countOf st propertyHacks)
             [ ("ratio", ratioOf (sizeOf st propertyHacks) (sizeOf st properties)) ]));
          ("complexity", VObj (AggregateCollection.aggregate (aggregator st propertyComplexities))) ]));
      ("values", VObj
        [ ("colors", VObj (assign (ContextCollection.count (contextual st colors))
             [ ("formats", VObj (countOf st colorFormats)) ]));
          ("gradients", VObj (countOf st gradients));
          ("fontFamilies", VObj (countOf st fontFamilies));
          ("fontSizes", VObj (countOf st fontSizes));
          ("lineHeights", VObj (countOf st lineHeights));
          ("zindexes", VObj (countOf st zindex));
          ("textShadows", VObj (countOf st textShadows));
          ("boxShadows", VObj (countOf st boxShadows));
          ("animations", VObj
             [ ("durations", VObj (countOf st durations));
               ("timingFunctions", VObj (countOf st timingFunctions)) ]);
          ("prefixes", VObj (countOf st vendorPrefixedValues));
          ("browserhacks", VObj (countOf st valueBrowserhacks));
          ("units", VObj (ContextCollection.count (contextual st units))) ]);
      ("__meta__", VObj
        [ ("parseTime", numZ parseTime);
          ("analyzeTime", numZ analyzeTime);
          ("total", numZ total) ]) ].

(** [Date.now()]: the reading of the clock at the [k]-th call that
    [analyze] makes. *)
Variable now : nat -> Z.

(** The accumulators when the walk ends, or the exception it throws. *)
Definition analysis : Exn + AnalysisState :=
  let ast := fst (parse I css) in
  let comments := snd (parse I css) in
  match walk visit ast (fold_left onComment comments initialState) with
  | inl e => inl e
  | inr (_, st) => inr st
  end.

(** [function analyze(css)]: the report, or the exception thrown. *)
Definition analyze : Exn + JsValue :=
  let start := now 0 in
  let startParse := now 1 in
  let ast := fst (parse I css) in
  let startAnalysis := now 2 in
  let linesOfCode :=
    (line (end_ (nodeLoc ast)) - line (CssTree.start (nodeLoc ast)) + 1)%Z in
  match analysis with
  | inl e => inl e
  | inr st =>
      inr (report st linesOfCode
             (startAnalysis - startParse) (now 3 - startAnalysis) (now 4 - start))
  end.

End Analyze.

(* ------------------------------------------------------------------------- *)
(** ** The calls the walk makes *)

(** The signal [visit] answers with at a node.  It depends on the node and on
    the context only, never on the accumulators (see [visit_signal]). *)
Definition visitSignal (I : Imports) (ctx : Context) (node : CssNode) : Signal :=
  match node with
  | Selector _ _ => Skip
  | Dimension _ _ _ =>
      match declaration ctx with Some _ => Skip | None => Continue end
  | Value _ _ =>
      if isValueKeyword I node then Continue
      else match declaration ctx with
           | Some d => if isProperty I "z-index" (nodeProperty d) then Skip else Continue
           | None => Continue
           end
  | Declaration _ _ _ _ =>
      match atrulePrelude ctx with Some _ => Skip | None => Continue end
  | _ => Continue
  end.

(** The callback calls of [walk(ast, ...)], in order, each with its context. *)
Definition visits (I : Imports) (ast : CssNode) : list (Context * CssNode) :=
  visited (visitSignal I) rootContext ast.

(** A callback run over a list of calls, one after the other. *)
Fixpoint runAll {S : Type} (enter : Context -> CssNode -> M S Signal)
    (calls : list (Context * CssNode)) : M S unit :=
  match calls with
  | [] => ret tt
  | (ctx, node) :: calls' => _ <- enter ctx node ;; runAll enter calls'
  end.

Definition isAtrule (call : Context * CssNode) : bool :=
  match snd call with Atrule _ _ _ _ => true | _ => false end.

Definition isFontface (call : Context * CssNode) : bool :=
  match snd call with
  | Atrule _ name _ _ => String.eqb name "font-face"
  | _ => false
  end.

(** A selector outside every [*keyframes] at-rule. *)
Definition isPlainSelector (call : Context * CssNode) : bool :=
  match snd call with
  | Selector _ _ => negb (inKeyframes (fst call))
  | _ => false
  end.

Definition isKeyframeSelector (call : Context * CssNode) : bool :=
  match snd call with
  | Selector _ _ => inKeyframes (fst call)
  | _ => false
  end.

(** A declaration outside every at-rule prelude. *)
Definition isCountedDeclaration (call : Context * CssNode) : bool :=
  match snd call with
  | Declaration _ _ _ _ =>
      match atrulePrelude (fst call) with Some _ => false | None => true end
  | _ => false
  end.

Definition countCalls (p : Context * CssNode -> bool) (calls : list (Context * CssNode))
  : nat :=
  List.length (filter p calls).

(** The specificities of the visited non-keyframe selectors, in order. *)
Definition specificitySamples (I : Imports) (ast : CssNode) : list Specificity :=
  map (fun call => calculate I (snd call)) (filter isPlainSelector (visits I ast)).

(** The replacement rules of the two trackers, [None] for [undefined]. *)
Definition replaceMin (current : option Specificity) (candidate : Specificity)
  : option Specificity :=
  match current with
  | None => Some candidate
  | Some x => if (compareSpecificity x candidate <? 0)%Z then Some candidate else Some x
  end.

Definition replaceMax (current : option Specificity) (candidate : Specificity)
  : option Specificity :=
  match current with
  | None => Some candidate
  | Some x => if (compareSpecificity x candidate >? 0)%Z then Some candidate else Some x
  end.

(** The strict lexicographic order on (a, b, c): [x] is the smaller tuple. *)
Definition lexLtb (x y : Specificity) : bool :=
  (specA x <? specA y)%Z
  || (specA x =? specA y)%Z
     && ((specB x <? specB y)%Z
         || (specB x =? specB y)%Z && (specC x <? specC y)%Z).

(** The comparison in the words of claim C1, "the ascending lexicographic
    order on (a, b, c)": negative when the first tuple is the smaller one. *)
Definition compareAscending (x y : Specificity) : Z :=
  if (specA x =? specA y)%Z then
    if (specB x =? specB y)%Z then (specC x - specC y)%Z
    else (specB x - specB y)%Z
  else (specA x - specA y)%Z.

(** The rule of claim C1 for [min] with that comparison: replace the current
    value exactly when [compareAscending current candidate < 0]. *)
Definition replaceMinAscending (current : option Specificity) (candidate : Specificity)
  : option Specificity :=
  match current with
  | None => Some candidate
  | Some x => if (compareAscending x candidate <? 0)%Z then Some candidate else Some x
  end.

(** A tracker that holds one of the tuples seen so far, the one that
    [before] puts before no other; it holds nothing while none was seen. *)
Definition extremeOf (before : Specificity -> Specificity -> bool)
    (tracker : option Specificity) (seen : list Specificity) : Prop :=
  match tracker with
  | None => seen = []
  | Some m => In m seen /\ forall s, In s seen -> before s m = false
  end.

(** The total length of the values of all [Url] nodes of a tree. *)
Fixpoint urlSize (node : CssNode) : nat :=
  let sumList :=
    fix sumList (l : list CssNode) : nat :=
      match l with
      | [] => 0
      | child :: l' => urlSize child + sumList l'
      end in
  match node with
  | StyleSheet _ cs | AtrulePrelude _ cs | SelectorList _ cs | Selector _ cs
  | Block _ cs | Value _ cs | Function _ _ cs | Generic _ _ _ cs => sumList cs
  | Atrule _ _ p b =>
      match p with Some x => urlSize x | None => 0 end
      + match b with Some x => urlSize x | None => 0 end
  | Rule _ p b => urlSize p + urlSize b
  | Declaration _ _ _ v => urlSize v
  | Url _ value => String.length value
  | Raw _ _ | Dimension _ _ _ | Hash _ _ | Identifier _ _ | Operator _ _ => 0
  end.

(** The report without its [__meta__] section. *)
Definition withoutMeta (r : JsValue) : JsValue :=
  match r with
  | VObj fields => VObj (filter (fun kv => negb (String.eqb (fst kv) "__meta__")) fields)
  | _ => r
  end.

(** Every [ratio] and [uniquenessRatio] field of the report, by its path, with
    the path of the field that holds its denominator. *)
Definition ratioFields : list (list string * list string) :=
  let counted (path : list string) :=
    (path ++ ["uniquenessRatio"], path ++ ["total"]) in
  [ (["stylesheet"; "embeddedContent"; "size"; "ratio"], ["stylesheet"; "size"]);
    (["atrules"; "keyframes"; "prefixed"; "ratio"], ["atrules"; "keyframes"; "total"]);
    (["rules"; "empty"; "ratio"], ["rules"; "total"]);
    (["selectors"; "id"; "ratio"], ["selectors"; "total"]);
    (["selectors"; "accessibility"; "ratio"], ["selectors"; "total"]);
    (["selectors"; "prefixed"; "ratio"], ["selectors"; "total"]);
    (["declarations"; "unique"; "ratio"], ["declarations"; "total"]);
    (["declarations"; "importants"; "ratio"], ["declarations"; "total"]);
    (["declarations"; "importants"; "inKeyframes"; "ratio"],
     ["declarations"; "importants"; "total"]);
    (["properties"; "prefixed"; "ratio"], ["properties"; "total"]);
    (["properties"; "custom"; "ratio"], ["properties"; "total"]);
    (["properties"; "custom"; "importants"; "ratio"], ["properties"; "custom"; "total"]);
    (["properties"; "browserhacks"; "ratio"], ["properties"; "total"]);
    counted ["stylesheet"; "embeddedContent"];
    counted ["stylesheet"; "embeddedContent"; "types"];
    counted ["atrules"; "fontface"];
    counted ["atrules"; "import"];
    counted ["atrules"; "media"];
    counted ["atrules"; "media"; "browserhacks"];
    counted ["atrules"; "charset"];
    counted ["atrules"; "supports"];
    counted ["atrules"; "supports"; "browserhacks"];
    counted ["atrules"; "keyframes"];
    counted ["atrules"; "keyframes"; "prefixed"];
    counted ["atrules"; "container"];
    counted ["atrules"; "layer"];
    (["rules"; "sizes"; "uniquenessRatio"], ["rules"; "sizes"; "count"]);
    (["rules"; "selectors"; "uniquenessRatio"], ["rules"; "selectors"; "count"]);
    (["rules"; "declarations"; "uniquenessRatio"], ["rules"; "declarations"; "count"]);
    counted ["selectors"];
    (["selectors"; "specificity"; "uniquenessRatio"], ["selectors"; "total"]);
    counted ["selectors"; "complexity"];
    counted ["selectors"; "id"];
    counted ["selectors"; "accessibility"];
    counted ["selectors"; "keyframes"];
    counted ["selectors"; "prefixed"];
    counted ["declarations"];
    counted ["properties"];
    counted ["properties"; "prefixed"];
    counted ["properties"; "custom"];
    counted ["properties"; "custom"; "importants"];
    counted ["properties"; "browserhacks"];
    counted ["values"; "colors"];
    counted ["values"; "colors"; "formats"];
    counted ["values"; "gradients"];
    counted ["values"; "fontFamilies"];
    counted ["values"; "fontSizes"];
    counted ["values"; "lineHeights"];
    counted ["values"; "zindexes"];
    counted ["values"; "textShadows"];
    counted ["values"; "boxShadows"];
    counted ["values"; "animations"; "durations"];
    counted ["values"; "animations"; "timingFunctions"];
    counted ["values"; "prefixes"];
    counted ["values"; "browserhacks"];
    counted ["values"; "units"] ].

(** The ratio at the first path is a number, the field at the second path is
    a number, and the ratio is 0 when that number is 0. *)
Definition zeroWithDenominator (r : JsValue) (entry : list string * list string) : bool :=
  match get (fst entry) r, get (snd entry) r with
  | Some (VNum q), Some (VNum d) => if Qeq_bool d 0 then Qeq_bool q 0 else true
  | _, _ => false
  end.

(* ------------------------------------------------------------------------- *)
(** ** Sample inputs *)

Module Sample.

Definition span (from to : nat) : Loc :=
  {| start := {| offset := from; line := 1 |};
     end_ := {| offset := to; line := 1 |} |}.

Definition typeSelector (from to : nat) (name : string) : CssNode :=
  Generic "TypeSelector" (span from to) name [].

(** The tree of the empty source. *)
Definition emptySheet : CssNode := StyleSheet (span 0 0) [].

(** [a{color:red}] *)
Definition colorRed : CssNode :=
  StyleSheet (span 0 12)
    [ Rule (span 0 12)
        (SelectorList (span 0 1) [ Selector (span 0 1) [ typeSelector 0 1 "a" ] ])
        (Block (span 1 12)
           [ Declaration (span 2 11) (ImportantFlag false) "color"
               (Value (span 8 11) [ Identifier (span 8 11) "red" ]) ]) ].

(** [a,.b{}] *)
Definition twoSelectors : CssNode :=
  StyleSheet (span 0 6)
    [ Rule (span 0 6)
        (SelectorList (span 0 4)
           [ Selector (span 0 1) [ typeSelector 0 1 "a" ];
             Selector (span 2 4) [ Generic "ClassSelector" (span 2 4) "b" [] ] ])
        (Block (span 4 6) []) ].

(** The selector [:is(a, b)], whose pseudo-class holds a selector list. *)
Definition isChildren : list CssNode :=
  [ Generic "PseudoClassSelector" (span 0 9) "is"
      [ SelectorList (span 4 8)
          [ Selector (span 4 5) [ typeSelector 4 5 "a" ];
            Selector (span 7 8) [ typeSelector 7 8 "b" ] ] ] ].

(** [:is(a, b){}] *)
Definition isRule : CssNode :=
  StyleSheet (span 0 11)
    [ Rule (span 0 11)
        (SelectorList (span 0 9) [ Selector (span 0 9) isChildren ])
        (Block (span 9 11) []) ].

(** [@supports (display:flex){}] *)
Definition supportsPrelude : CssNode :=
  AtrulePrelude (span 10 24)
    [ Generic "Parentheses" (span 10 24) ""
        [ Declaration (span 11 23) (ImportantFlag false) "display"
            (Value (span 19 23) [ Identifier (span 19 23) "flex" ]) ] ].

Definition supportsRule : CssNode :=
  StyleSheet (span 0 26)
    [ Atrule (span 0 26) "supports" (Some supportsPrelude) (Some (Block (span 24 26) [])) ].

(** [@keyframes x{to{top:0}}] *)
Definition keyframesAtrule : CssNode :=
  Atrule (span 0 23) "keyframes"
    (Some (AtrulePrelude (span 11 12) [ Identifier (span 11 12) "x" ]))
    (Some (Block (span 12 23)
       [ Rule (span 13 22)
           (SelectorList (span 13 15) [ Selector (span 13 15) [ typeSelector 13 15 "to" ] ])
           (Block (span 15 22)
              [ Declaration (span 16 21) (ImportantFlag false) "top"
                  (Value (span 20 21) [ Generic "Number" (span 20 21) "" [] ]) ]) ])).

Definition keyframesRule : CssNode := StyleSheet (span 0 23) [ keyframesAtrule ].

(** [@font-face{src:url(data:x)}@font-face{src:url(data:x)}] *)
Definition fontfaceAtrule (from : nat) : CssNode :=
  Atrule (span from (from + 27)) "font-face" None
    (Some (Block (span (from + 10) (from + 27))
       [ Declaration (span (from + 11) (from + 26)) (ImportantFlag false) "src"
           (Value (span (from + 15) (from + 26))
              [ Url (span (from + 15) (from + 26)) "data:x" ]) ])).

Definition fontfaceRule : CssNode :=
  StyleSheet (span 0 54) [ fontfaceAtrule 0; fontfaceAtrule 27 ].

Definition sources : list (string * CssNode) :=
  [ ("", emptySheet);
    ("a{color:red}", colorRed);
    ("a,.b{}", twoSelectors);
    (":is(a, b){}", isRule);
    ("@supports (display:flex){}", supportsRule);
    ("@keyframes x{to{top:0}}", keyframesRule);
    ("@font-face{src:url(data:x)}@font-face{src:url(data:x)}", fontfaceRule) ].

(** A stand-in for the parser, which knows the trees of the sample sources
    (none has a comment) and takes any other source for an empty sheet. *)
Definition parseSample (css : string) : CssNode * list string :=
  match find (fun e => String.eqb (fst e) css) sources with
  | Some e => (snd e, [])
  | None => (StyleSheet (span 0 (String.length css)) [], [])
  end.

Definition oneOf (names : list string) (name : string) : bool :=
  existsb (String.eqb (JsString.toLowerCase name)) names.

Definition countType (types : list string) (children : list CssNode) : Z :=
  Z.of_nat (List.length (filter (fun c => existsb (String.eqb (nodeType c)) types) children)).

(** Stand-ins for the collaborators, enough to run the engine on the sample
    sources. *)
Definition sampleImports : Imports :=
  {| parse := parseSample;
     calculate := fun node =>
       match nodeChildren node with
       | Some cs =>
           (countType ["IdSelector"] cs,
            countType ["ClassSelector"; "AttributeSelector"; "PseudoClassSelector"] cs,
            countType ["TypeSelector"; "PseudoElementSelector"] cs)
       | None => (0, 0, 0)%Z
       end;
     isSupportsBrowserhack := fun _ => false;
     isMediaBrowserhack := fun _ => false;
     getComplexity := fun node =>
       (match nodeChildren node with
        | Some cs => Z.of_nat (List.length cs)
        | None => 0%Z
        end, false);
     isAccessibility := fun _ => false;
     colorFunctions := oneOf ["rgb"; "rgba"; "hsl"; "hsla"];
     colorKeywords := oneOf ["transparent"; "currentcolor"];
     namedColors := oneOf ["red"; "green"; "blue"; "lightgoldenrodyellow"];
     systemColors := oneOf ["canvas"; "canvastext"; "linktext"];
     destructure := fun _ _ =>
       {| font_size := None; line_height := None; font_family := None |};
     isSystemFont := fun _ => false;
     isValueKeyword := fun node =>
       match node with
       | Value _ [ Identifier _ name ] => oneOf ["auto"; "inherit"; "initial"; "none"; "unset"] name
       | _ => false
       end;
     analyzeAnimation := fun _ _ => ([], []);
     isAstVendorPrefixed := fun _ => false;
     hasVendorPrefix := fun name =>
       String.prefix "-" name && negb (String.prefix "--" name);
     isCustom := String.prefix "--";
     isHack := fun name => String.prefix "_" name || String.prefix "*" name;
     isProperty := fun basename property =>
       String.eqb basename (JsString.toLowerCase property);
     getEmbedType := fun _ => "text/plain";
     isIe9Hack := fun _ => false |}.

(** The context of the selector [to] of [@keyframes x{to{top:0}}]. *)
Definition inSampleKeyframes : Context :=
  {| atrule := Some keyframesAtrule; atrulePrelude := None; declaration := None |}.

(** The context of the declaration in the prelude of
    [@supports (display:flex){}]. *)
Definition inSamplePrelude : Context :=
  {| atrule := Some (Atrule (span 0 26) "supports" (Some supportsPrelude)
                       (Some (Block (span 24 26) [])));
     atrulePrelude := Some supportsPrelude;
     declaration := None |}.

Definition frozenClock : nat -> Z := fun _ => 0%Z.

(** A clock that advances by one millisecond between two readings. *)
Definition tickingClock : nat -> Z := fun k => Z.of_nat k.

End Sample.


(* ------------------------------------------------------------------------- *)
(** ** Vocabulary of the proofs *)

(** The counters that the properties below relate to one another; the other
    counters, and the two context counters, are only ever pushed to and read
    by the report. *)
Definition tracked (c : Counter) : bool :=
  match c with
  | keyframes | prefixedKeyframes | keyframeSelectors | prefixedSelectors
  | uniqueSpecificities | ids | a11y | importantCustomProperties | properties
  | propertyHacks | propertyVendorPrefixes | customProperties => true
  | _ => false
  end.

(** Two states that differ at most in untracked counters and in the context
    counters. *)
Record sameCore (st st' : AnalysisState) : Prop :=
  { same_number : number st' = number st;
    same_counter : forall c, tracked c = true -> counter st' c = counter st c;
    same_aggregator : aggregator st' = aggregator st;
    same_stringSet : stringSet st' = stringSet st;
    same_embedTypesUnique : embedTypesUnique st' = embedTypesUnique st;
    same_fontfaces : fontfaces st' = fontfaces st;
    same_maxSpecificity : maxSpecificity st' = maxSpecificity st;
    same_minSpecificity : minSpecificity st' = minSpecificity st;
    same_specificities : specificities st' = specificities st }.

(** A computation that changes at most untracked counters and context
    counters. *)
Definition framed {X : Type} (m : A X) : Prop :=
  forall st x st', m st = inr (x, st') -> sameCore st st'.

(** A computation whose result, when it has one, is [x0]. *)
Definition yields {X : Type} (m : A X) (x0 : X) : Prop :=
  forall st x st', m st = inr (x, st') -> x = x0.

(** A computation that returns from every state. *)
Definition succeeds {X : Type} (m : A X) : Prop :=
  forall st, exists x st', m st = inr (x, st').

Definition count1 (b : bool) : nat := if b then 1 else 0.

(** The length of the value of a [Url] node, 0 for another node. *)
Definition selfUrl (node : CssNode) : nat :=
  match node with
  | Url _ value => String.length value
  | _ => 0
  end.

(** What one callback call adds to the quantities that the report counts. *)
Definition effects (I : Imports) (call : Context * CssNode) (st st' : AnalysisState)
  : Prop :=
  number st' totalAtRules = number st totalAtRules + count1 (isAtrule call)
  /\ List.length (fontfaces st') = List.length (fontfaces st) + count1 (isFontface call)
  /\ specificities st'
     = specificities st
       ++ (if isPlainSelector call then [calculate I (snd call)] else [])
  /\ AggregateCollection.size (aggregator st' selectorComplexities)
     = AggregateCollection.size (aggregator st selectorComplexities)
       + count1 (isPlainSelector call)
  /\ minSpecificity st'
     = (if isPlainSelector call
        then replaceMin (minSpecificity st) (calculate I (snd call))
        else minSpecificity st)
  /\ maxSpecificity st'
     = (if isPlainSelector call
        then replaceMax (maxSpecificity st) (calculate I (snd call))
        else maxSpecificity st)
  /\ number st' totalDeclarations
     = number st totalDeclarations + count1 (isCountedDeclaration call)
  /\ CountableCollection.size (counter st' keyframeSelectors)
     = CountableCollection.size (counter st keyframeSelectors)
       + count1 (isKeyframeSelector call)
  /\ number st' embedSize <= number st embedSize + selfUrl (snd call).

(** The part never exceeds the total, for every pair of accumulators that a
    ratio of the report divides. *)
Definition consistent (st : AnalysisState) : Prop :=
  let totalSelectors := AggregateCollection.size (aggregator st selectorComplexities) in
  let sizeOf c := CountableCollection.size (counter st c) in
  number st emptyRules <= number st totalRules
  /\ List.length (stringSet st uniqueSelectors) <= totalSelectors
  /\ sizeOf ids <= totalSelectors
  /\ sizeOf a11y <= totalSelectors
  /\ sizeOf prefixedSelectors <= totalSelectors
  /\ sizeOf uniqueSpecificities = totalSelectors
  /\ List.length (stringSet st uniqueDeclarations) <= number st totalDeclarations
  /\ number st importantDeclarations <= number st totalDeclarations
  /\ number st importantsInKeyframes <= number st importantDeclarations
  /\ sizeOf propertyVendorPrefixes <= sizeOf properties
  /\ sizeOf customProperties <= sizeOf properties
  /\ sizeOf propertyHacks <= sizeOf properties
  /\ sizeOf importantCustomProperties <= sizeOf customProperties
  /\ sizeOf prefixedKeyframes <= sizeOf keyframes
  /\ List.length (embedTypesUnique st) <= number st embedTypesTotal.

(* ------------------------------------------------------------------------- *)
(** ** Footprints *)

(** A set of accumulators: the variables of each kind that belong to it,
    whether [embedTypes.unique] and [fontfaces] do, and whether the
    specificity trackers and samples do. *)
Record Footprint : Type :=
  { inNumber : NumberVar -> bool;
    inCounter : Counter -> bool;
    inAggregator : Aggregator -> bool;
    inContextual : Contextual -> bool;
    inStringSet : StringSet -> bool;
    inEmbedTypes : bool;
    inFontfaces : bool;
    inSpecificity : bool }.

(** Two states that differ at most in the accumulators of a footprint. *)
Record within (F : Footprint) (st st' : AnalysisState) : Prop :=
  { within_number : forall v, inNumber F v = false -> number st' v = number st v;
    within_counter : forall c, inCounter F c = false -> counter st' c = counter st c;
    within_aggregator :
      forall a, inAggregator F a = false -> aggregator st' a = aggregator st a;
    within_contextual :
      forall c, inContextual F c = false -> contextual st' c = contextual st c;
    within_stringSet :
      forall s, inStringSet F s = false -> stringSet st' s = stringSet st s;
    within_embedTypes :
      inEmbedTypes F = false -> embedTypesUnique st' = embedTypesUnique st;
    within_fontfaces : inFontfaces F = false -> fontfaces st' = fontfaces st;
    within_specificity :
      inSpecificity F = false ->
      maxSpecificity st' = maxSpecificity st
      /\ minSpecificity st' = minSpecificity st
      /\ specificities st' = specificities st }.

(** A computation that changes at most the accumulators of a footprint. *)
Definition touches {X : Type} (F : Footprint) (m : A X) : Prop :=
  forall st x st', m st = inr (x, st') -> within F st st'.

Definition nothing : Footprint :=
  {| inNumber := fun _ => false; inCounter := fun _ => false;
     inAggregator := fun _ => false; inContextual := fun _ => false;
     inStringSet := fun _ => false; inEmbedTypes := false; inFontfaces := false;
     inSpecificity := false |}.

(** The accumulators of the [Atrule] case. *)
Definition atruleFootprint : Footprint :=
  {| inNumber := fun v => match v with totalAtRules => true | _ => false end;
     inCounter := fun c =>
       match c with
       | medias | mediaBrowserhacks | supports | supportsBrowserhacks | keyframes
       | prefixedKeyframes | imports | charsets | containers | layers => true
       | _ => false
       end;
     inAggregator := fun _ => false; inContextual := fun _ => false;
     inStringSet := fun _ => false; inEmbedTypes := false; inFontfaces := true;
     inSpecificity := false |}.

(** The accumulators of the [Rule] case. *)
Definition ruleFootprint : Footprint :=
  {| inNumber := fun v => match v with totalRules | emptyRules => true | _ => false end;
     inCounter := fun _ => false;
     inAggregator := fun a =>
       match a with
       | ruleSizes | selectorsPerRule | declarationsPerRule => true
       | _ => false
       end;
     inContextual := fun _ => false;
     inStringSet := fun _ => false; inEmbedTypes := false; inFontfaces := false;
     inSpecificity := false |}.

(** The accumulators of the [Selector] case. *)
Definition selectorFootprint : Footprint :=
  {| inNumber := fun _ => false;
     inCounter := fun c =>
       match c with
       | keyframeSelectors | prefixedSelectors | uniqueSpecificities | ids | a11y => true
       | _ => false
       end;
     inAggregator := fun a =>
       match a with
       | specificityA | specificityB | specificityC | selectorComplexities => true
       | _ => false
       end;
     inContextual := fun _ => false;
     inStringSet := fun s => match s with uniqueSelectors => true | _ => false end;
     inEmbedTypes := false; inFontfaces := false; inSpecificity := true |}.

(** The accumulators of the [Dimension] case. *)
Definition dimensionFootprint : Footprint :=
  {| inNumber := fun _ => false; inCounter := fun _ => false;
     inAggregator := fun _ => false;
     inContextual := fun c => match c with units => true | _ => false end;
     inStringSet := fun _ => false; inEmbedTypes := false; inFontfaces := false;
     inSpecificity := false |}.

(** The accumulators of the [Url] case. *)
Definition urlFootprint : Footprint :=
  {| inNumber := fun v =>
       match v with embedTypesTotal | embedSize => true | _ => false end;
     inCounter := fun c => match c with embeds => true | _ => false end;
     inAggregator := fun _ => false; inContextual := fun _ => false;
     inStringSet := fun _ => false; inEmbedTypes := true; inFontfaces := false;
     inSpecificity := false |}.

(** The accumulators of the walk over a declaration value. *)
Definition colorFootprint : Footprint :=
  {| inNumber := fun _ => false;
     inCounter := fun c => match c with colorFormats | gradients => true | _ => false end;
     inAggregator := fun _ => false;
     inContextual := fun c => match c with colors => true | _ => false end;
     inStringSet := fun _ => false; inEmbedTypes := false; inFontfaces := false;
     inSpecificity := false |}.

(** The accumulators of the [Value] case, the walk over the value included. *)
Definition valueFootprint : Footprint :=
  {| inNumber := fun _ => false;
     inCounter := fun c =>
       match c with
       | vendorPrefixedValues | valueBrowserhacks | zindex | textShadows | boxShadows
       | fontFamilies | fontSizes | lineHeights | timingFunctions | durations
       | colorFormats | gradients => true
       | _ => false
       end;
     inAggregator := fun _ => false;
     inContextual := fun c => match c with colors => true | _ => false end;
     inStringSet := fun _ => false; inEmbedTypes := false; inFontfaces := false;
     inSpecificity := false |}.

(** The accumulators of the [Declaration] case. *)
Definition declarationFootprint : Footprint :=
  {| inNumber := fun v =>
       match v with
       | totalDeclarations | importantDeclarations | importantsInKeyframes => true
       | _ => false
       end;
     inCounter := fun c =>
       match c with
       | importantCustomProperties | properties | propertyHacks
       | propertyVendorPrefixes | customProperties => true
       | _ => false
       end;
     inAggregator := fun a => match a with propertyComplexities => true | _ => false end;
     inContextual := fun _ => false;
     inStringSet := fun s => match s with uniqueDeclarations => true | _ => false end;
     inEmbedTypes := false; inFontfaces := false; inSpecificity := false |}.

(** The accumulators that the callback may change at a node, by its kind. *)
Definition footprintOf (node : CssNode) : Footprint :=
  match node with
  | Atrule _ _ _ _ => atruleFootprint
  | Rule _ _ _ => ruleFootprint
  | Selector _ _ => selectorFootprint
  | Dimension _ _ _ => dimensionFootprint
  | Url _ _ => urlFootprint
  | Value _ _ => valueFootprint
  | Declaration _ _ _ _ => declarationFootprint
  | _ => nothing
  end.

(* ------------------------------------------------------------------------- *)
(** ** The calls that the report counts *)

(** [node.children ? node.children.size : 0] *)
Definition childCount (node : CssNode) : nat :=
  match nodeChildren node with
  | Some cs => List.length cs
  | None => 0
  end.

Definition isRuleCall (call : Context * CssNode) : bool :=
  match snd call with Rule _ _ _ => true | _ => false end.

(** A rule whose block has no children. *)
Definition isEmptyRule (call : Context * CssNode) : bool :=
  match snd call with
  | Rule _ _ block => childCount block =? 0
  | _ => false
  end.

(** One sample per visited rule, computed from its prelude and its block. *)
Definition ruleSamples (f : CssNode -> CssNode -> nat) (calls : list (Context * CssNode))
  : list Z :=
  flat_map (fun call =>
              match snd call with
              | Rule _ prelude block => [Z.of_nat (f prelude block)]
              | _ => []
              end)
           calls.

(** A dimension inside a declaration. *)
Definition isUnitDimension (call : Context * CssNode) : bool :=
  match snd call, declaration (fst call) with
  | Dimension _ _ _, Some _ => true
  | _, _ => false
  end.




(** A counted declaration with [important === true]. *)
Definition isImportantDeclaration (call : Context * CssNode) : bool :=
  match snd call with
  | Declaration _ important _ _ => isCountedDeclaration call && isTrue important
  | _ => false
  end.

Definition isImportantInKeyframes (call : Context * CssNode) : bool :=
  isImportantDeclaration call && inKeyframes (fst call).

(** An at-rule whose name satisfies [p]. *)
Definition isAtruleNamed (p : string -> bool) (call : Context * CssNode) : bool :=
  match snd call with
  | Atrule _ name _ _ => p name
  | _ => false
  end.

(** An at-rule called [name]. *)
Definition isAtruleCalled (name : string) : Context * CssNode -> bool :=
  isAtruleNamed (fun n => String.eqb n name).



(** The accumulators when the walk starts: [onComment] has run on every
    comment that the parser found. *)
Definition afterComments (I : Imports) (css : string) : AnalysisState :=
  fold_left onComment (snd (parse I css)) initialState.

(** A computation whose every run relates the state before to the state
    after. *)
Definition respects {X : Type} (R : AnalysisState -> AnalysisState -> Prop) (m : A X)
  : Prop :=
  forall st x st', m st = inr (x, st') -> R st st'.

(** The colors and the color formats have grown by the same number. *)
Definition colorsInStep (st st' : AnalysisState) : Prop :=
  ContextCollection.size (contextual st' colors)
  + CountableCollection.size (counter st colorFormats)
  = ContextCollection.size (contextual st colors)
    + CountableCollection.size (counter st' colorFormats).

(** Every counted declaration is one property and one complexity sample of 1,
    or of 2 together with one push to exactly one of the three special
    classes. *)
Definition propertiesConsistent (st : AnalysisState) : Prop :=
  let sizeOf c := CountableCollection.size (counter st c) in
  sizeOf properties = number st totalDeclarations
  /\ AggregateCollection.size (aggregator st propertyComplexities)
     = number st totalDeclarations
  /\ AggregateCollection.sum (aggregator st propertyComplexities)
     = Z.of_nat (number st totalDeclarations + sizeOf propertyVendorPrefixes
                 + sizeOf propertyHacks + sizeOf customProperties)
  /\ sizeOf propertyVendorPrefixes + sizeOf propertyHacks + sizeOf customProperties
     <= number st totalDeclarations.

(** The number of names that a [layer] at-rule with a prelude records. *)
Definition layerNames (css : string) (call : Context * CssNode) : nat :=
  match snd call with
  | Atrule _ name (Some prelude) _ =>
      if String.eqb name "layer"
      then List.length (JsString.split "," (stringifyNode css prelude))
      else 0
  | _ => 0
  end.

(** The specificities with an id component. *)
Definition withId (l : list Specificity) : list Specificity :=
  filter (fun s => (0 <? specA s)%Z) l.

(** A tracker of the least or greatest specificity holds one of the
    specificities seen so far, and nothing while there are none. *)
Definition trackerAmong (tracker : option Specificity) (l : list Specificity) : Prop :=
  match tracker with
  | None => l = []
  | Some s => In s l
  end.

(** What the accumulators of the selectors have in common when they are
    read against the list of specificities. *)
Definition selectorsConsistent (st : AnalysisState) : Prop :=
  aggregator st specificityA = map specA (specificities st)
  /\ aggregator st specificityB = map specB (specificities st)
  /\ aggregator st specificityC = map specC (specificities st)
  /\ AggregateCollection.size (aggregator st selectorComplexities)
     = List.length (specificities st)
  /\ sizeOf st uniqueSpecificities = List.length (specificities st)
  /\ sizeOf st ids = List.length (withId (specificities st))
  /\ sizeOf st a11y <= List.length (specificities st)
  /\ sizeOf st prefixedSelectors <= List.length (specificities st)
  /\ trackerAmong (minSpecificity st) (specificities st)
  /\ trackerAmong (maxSpecificity st) (specificities st).

(* ------------------------------------------------------------------------- *)
(** ** Exceptions *)

(** The callback calls of the walk of a list of siblings, in order. *)
Definition visitedAll (signal : Context -> CssNode -> Signal)
    (ctx : Context) (l : list CssNode) : list (Context * CssNode) :=
  match walkNodes (fun c n => modify (fun l => l ++ [(c, n)]) ;; ret (signal c n))
                  ctx l [] with
  | inr (_, log) => log
  | inl _ => []
  end.

(** A callback that returns at a call, whatever the state. *)
Definition returnsAt {S : Type} (enter : Context -> CssNode -> M S Signal)
    (call : Context * CssNode) : Prop :=
  forall s, exists sig s', enter (fst call) (snd call) s = inr (sig, s').

(** The names of the at-rules whose branch takes the text of the prelude. *)
Definition readsPrelude (name : string) : bool :=
  String.eqb name "media" || String.eqb name "supports"
  || StringUtils.endsWith "keyframes" name
  || String.eqb name "import" || String.eqb name "charset"
  || String.eqb name "container" || String.eqb name "layer".

(** The calls at which the callback reads a property of [null] or of
    [undefined]: a [font-face] at-rule without a block or whose block has no
    list of children, an at-rule of [readsPrelude] without a prelude, and a
    value that is not a keyword outside every declaration. *)
Definition throwsAt (I : Imports) (call : Context * CssNode) : bool :=
  match snd call with
  | Atrule _ name prelude block =>
      if String.eqb name "font-face" then
        match block with
        | None => true
        | Some b => match nodeChildren b with None => true | Some _ => false end
        end
      else readsPrelude name && match prelude with None => true | Some _ => false end
  | Value _ _ =>
      negb (isValueKeyword I (snd call))
      && match declaration (fst call) with None => true | Some _ => false end
  | _ => false
  end.

(* ------------------------------------------------------------------------- *)
(** ** Descriptors and values *)

(** The text of the value of the last declaration of [property] among the
    children of a block. *)
Definition lastDeclared (css property : string) (children : list CssNode)
  : option string :=
  fold_left
    (fun found child =>
       match child with
       | Declaration _ _ p value =>
           if String.eqb p property then Some (stringifyNode css value) else found
       | _ => found
       end)
    children None.

(** The own property [property] of a descriptor object, if it has one. *)
Definition descriptorOf (property : string) (d : list (string * string)) : option string :=
  match find (fun kv => String.eqb (fst kv) property) d with
  | Some kv => Some (snd kv)
  | None => None
  end.

(** The declaration of a value that the [Value] case analyses: the value is
    not a keyword. *)
Definition analysedValue (I : Imports) (call : Context * CssNode) : option CssNode :=
  match snd call with
  | Value _ _ => if isValueKeyword I (snd call) then None else declaration (fst call)
  | _ => None
  end.

Definition isPrefixedValue (I : Imports) (call : Context * CssNode) : bool :=
  match analysedValue I call with
  | Some _ => isAstVendorPrefixed I (snd call)
  | None => false
  end.

Definition isZindexValue (I : Imports) (call : Context * CssNode) : bool :=
  match analysedValue I call with
  | Some d => isProperty I "z-index" (nodeProperty d)
  | None => false
  end.

(** [typeof important === 'string'] *)
Definition isText (i : Important) : bool :=
  match i with
  | ImportantText _ => true
  | ImportantFlag _ => false
  end.

(** The browser hacks that one value is recorded with: one for a textual
    [important] of its declaration, one for the [\9] hack. *)
Definition valueHacks (I : Imports) (call : Context * CssNode) : nat :=
  match analysedValue I call with
  | Some d => count1 (isText (nodeImportant d)) + count1 (isIe9Hack I (snd call))
  | None => 0
  end.

(** The accumulators of the [Value] case after the z-index test. *)
Definition valueTailFootprint : Footprint :=
  {| inNumber := fun _ => false;
     inCounter := fun c =>
       match c with
       | textShadows | boxShadows | fontFamilies | fontSizes | lineHeights
       | timingFunctions | durations | colorFormats | gradients => true
       | _ => false
       end;
     inAggregator := fun _ => false;
     inContextual := fun c => match c with colors => true | _ => false end;
     inStringSet := fun _ => false; inEmbedTypes := false; inFontfaces := false;
     inSpecificity := false |}.

(** The texts of the calls of a kind, in the order of the walk. *)
Definition textsOf (css : string) (p : Context * CssNode -> bool)
    (calls : list (Context * CssNode)) : list string :=
  map (fun call => stringifyNode css (snd call)) (filter p calls).

(** A list that holds the members of [l], each of them once. *)
Definition distinctOf (l set : list string) : Prop :=
  NoDup set /\ forall x, In x set <-> In x l.



(* ------------------------------------------------------------------------- *)
(** ** A style sheet with an at-rule block *)

Module Demo.

(** A media query with a rule of four declarations, a layer statement, an
    empty rule and a comment. *)
Definition source : string :=
  "@media print{#x{margin:1px!important;color:#fff;z-index:1!ie;background:url(data:x)}}@layer a, b;b{}/*c*/".

Definition declarations : list CssNode :=
  [ Declaration (Sample.span 16 36) (ImportantFlag true) "margin"
      (Value (Sample.span 23 26) [ Dimension (Sample.span 23 26) "1" "px" ]);
    Declaration (Sample.span 37 47) (ImportantFlag false) "color"
      (Value (Sample.span 43 47) [ Hash (Sample.span 43 47) "fff" ]);
    Declaration (Sample.span 48 60) (ImportantText "ie") "z-index"
      (Value (Sample.span 56 57) [ Generic "Number" (Sample.span 56 57) "" [] ]);
    Declaration (Sample.span 61 83) (ImportantFlag false) "background"
      (Value (Sample.span 72 83) [ Url (Sample.span 72 83) "data:x" ]) ].

Definition mediaAtrule : CssNode :=
  Atrule (Sample.span 0 85) "media"
    (Some (AtrulePrelude (Sample.span 7 12)
             [ Generic "MediaQueryList" (Sample.span 7 12) ""
                 [ Generic "MediaQuery" (Sample.span 7 12) ""
                     [ Identifier (Sample.span 7 12) "print" ] ] ]))
    (Some (Block (Sample.span 12 85)
             [ Rule (Sample.span 13 84)
                 (SelectorList (Sample.span 13 15)
                    [ Selector (Sample.span 13 15)
                        [ Generic "IdSelector" (Sample.span 13 15) "x" [] ] ])
                 (Block (Sample.span 15 84) declarations) ])).

Definition layerAtrule : CssNode :=
  Atrule (Sample.span 85 97) "layer"
    (Some (AtrulePrelude (Sample.span 92 96)
             [ Generic "LayerList" (Sample.span 92 96) ""
                 [ Generic "Layer" (Sample.span 92 93) "a" [];
                   Generic "Layer" (Sample.span 95 96) "b" [] ] ]))
    None.

Definition emptyRule : CssNode :=
  Rule (Sample.span 97 100)
    (SelectorList (Sample.span 97 98)
       [ Selector (Sample.span 97 98) [ Sample.typeSelector 97 98 "b" ] ])
    (Block (Sample.span 98 100) []).

Definition sheet : CssNode :=
  StyleSheet (Sample.span 0 105) [ mediaAtrule; layerAtrule; emptyRule ].

(** The collaborators of [Sample], with a parser that knows [source]. *)
Definition imports : Imports :=
  let S := Sample.sampleImports in
  {| parse := fun css =>
       if String.eqb css source then (sheet, ["c"]) else parse S css;
     calculate := calculate S;
     isSupportsBrowserhack := isSupportsBrowserhack S;
     isMediaBrowserhack := isMediaBrowserhack S;
     getComplexity := getComplexity S;
     isAccessibility := isAccessibility S;
     colorFunctions := colorFunctions S;
     colorKeywords := colorKeywords S;
     namedColors := namedColors S;
     systemColors := systemColors S;
     destructure := destructure S;
     isSystemFont := isSystemFont S;
     isValueKeyword := isValueKeyword S;
     analyzeAnimation := analyzeAnimation S;
     isAstVendorPrefixed := isAstVendorPrefixed S;
     hasVendorPrefix := hasVendorPrefix S;
     isCustom := isCustom S;
     isHack := isHack S;
     isProperty := isProperty S;
     getEmbedType := getEmbedType S;
     isIe9Hack := isIe9Hack S |}.

(** The declaration of [a{width:1px\9}] and the context of its value. *)
Definition widthDeclaration : CssNode :=
  Declaration (Sample.span 2 13) (ImportantFlag false) "width"
    (Value (Sample.span 8 13) [ Dimension (Sample.span 8 13) "1" "px\9" ]).

Definition inWidthDeclaration : Context :=
  {| atrule := None; atrulePrelude := None; declaration := Some widthDeclaration |}.




(** The block of [@font-face{__proto__:x;src:y;src:z}]. *)
Definition protoBlock : list CssNode :=
  [ Declaration (Sample.span 11 22) (ImportantFlag false) "__proto__"
      (Value (Sample.span 21 22) [ Identifier (Sample.span 21 22) "x" ]);
    Declaration (Sample.span 23 28) (ImportantFlag false) "src"
      (Value (Sample.span 27 28) [ Identifier (Sample.span 27 28) "y" ]);
    Declaration (Sample.span 29 34) (ImportantFlag false) "src"
      (Value (Sample.span 33 34) [ Identifier (Sample.span 33 34) "z" ]) ].

End Demo.

(* ========================================================================= *)
(** * Properties *)

(* ------------------------------------------------------------------------- *)
(** ** The walker *)

Section WalkerFacts.

Lemma CssNode_subnodes_ind (P : CssNode -> Prop) :
  (forall node, Forall P (subnodes node) -> P node) -> forall node, P node.
Proof.
  intros step. fix IH 1. intros node. apply step.
  assert (all : forall l, Forall P l).
  { fix IHl 1. intros [|child l]; constructor; [apply IH | apply IHl]. }
  destruct node as [? cs|? ? [p|] [b|]|? cs|? p b|? cs|? cs|? cs|? ? ? v|? cs
                   | | | | | |? ? cs| |? ? ? cs];
    cbn [subnodes app]; try exact (all cs); repeat constructor; apply IH.
Qed.

Context {S : Type}.
Variable enter : Context -> CssNode -> M S Signal.

(** One step of the walk: the callback, then the sub-nodes unless the
    callback asked to skip them or to stop. *)
Lemma walkNode_eq (ctx : Context) (node : CssNode) (st : S) :
  walkNode enter ctx node st =
  match enter ctx node st with
  | inl e => inl e
  | inr (Break, st') => inr (true, st')
  | inr (Skip, st') => inr (false, st')
  | inr (Continue, st') => walkNodes enter (enterContext ctx node) (subnodes node) st'
  end.
Proof.
  assert (lists : forall ctx' l s,
    (fix walkList (l : list CssNode) : M S bool :=
       match l with
       | [] => ret false
       | child :: l' =>
           stop <- walkNode enter ctx' child ;;
           if stop then ret true else walkList l'
       end) l s = walkNodes enter ctx' l s).
  { intros ctx'. induction l as [|child l IHl]; intros s; [reflexivity|].
    cbn [walkNodes]. unfold bind at 1 3.
    destruct (walkNode enter ctx' child s) as [e|[[] s']]; auto. }
  destruct node as [? cs|? ? [p|] [b|]|? cs|? p b|? cs|? cs|? cs|? ? ? v|? cs
                   | | | | | |? ? cs| |? ? ? cs];
    cbn [walkNode subnodes]; unfold bind at 1;
    destruct (enter ctx _ st) as [e|[[] st']]; try reflexivity;
    try apply lists; cbn [app walkNodes]; unfold bind, ret; try reflexivity.
  - destruct (walkNode enter _ p st') as [e|[[] s']]; try reflexivity.
    destruct (walkNode enter _ b s') as [e|[[] s'']]; reflexivity.
  - destruct (walkNode enter _ b st') as [e|[[] s']]; reflexivity.
  - destruct (walkNode enter _ p st') as [e|[[] s']]; try reflexivity.
    destruct (walkNode enter _ b s') as [e|[[] s'']]; reflexivity.
  - destruct (walkNode enter _ v st') as [e|[[] s']]; reflexivity.
Qed.

End WalkerFacts.

Section WalkerSimulation.

Context {S1 S2 : Type}.
Variable enter1 : Context -> CssNode -> M S1 Signal.
Variable enter2 : Context -> CssNode -> M S2 Signal.
Variable R : S1 -> S2 -> Prop.

Hypothesis enter_simulation :
  forall ctx node s1 s2 sig s1',
    R s1 s2 -> enter1 ctx node s1 = inr (sig, s1') ->
    exists s2', enter2 ctx node s2 = inr (sig, s2') /\ R s1' s2'.

(** When a second callback follows every call of a first one with the same
    signal, the walk driven by the second follows the walk driven by the
    first. *)
Lemma walkNode_simulation :
  forall node ctx s1 s2 stop s1',
    R s1 s2 -> walkNode enter1 ctx node s1 = inr (stop, s1') ->
    exists s2', walkNode enter2 ctx node s2 = inr (stop, s2') /\ R s1' s2'.
Proof.
  induction node as [node IH] using CssNode_subnodes_ind.
  intros ctx s1 s2 stop s1' HR Hwalk.
  rewrite walkNode_eq in Hwalk. rewrite walkNode_eq.
  destruct (enter1 ctx node s1) as [e|[sig t1]] eqn:Henter; [discriminate|].
  destruct (enter_simulation _ _ _ _ _ _ HR Henter) as (t2 & -> & HR').
  destruct sig; try (injection Hwalk as <- <-; eauto).
  clear Henter HR. revert t1 t2 HR' Hwalk.
  generalize (enterContext ctx node) as ctx'.
  induction IH as [|child l Hchild _ IHl]; intros ctx' t1 t2 HR' Hwalk;
    cbn [walkNodes] in *; unfold bind, ret in *.
  - injection Hwalk as <- <-. eauto.
  - destruct (walkNode enter1 ctx' child t1) as [e|[b u1]] eqn:Hchild1; [discriminate|].
    destruct (Hchild _ _ _ _ _ HR' Hchild1) as (u2 & -> & HR'').
    destruct b; eauto. injection Hwalk as <- <-. eauto.
Qed.

End WalkerSimulation.

Section WalkerRuns.

Context {S : Type}.
Variable enter : Context -> CssNode -> M S Signal.

(** A property of the state that every callback call preserves holds when
    the walk ends. *)
Lemma walkNode_invariant (P : S -> Prop) :
  (forall ctx node s sig s', P s -> enter ctx node s = inr (sig, s') -> P s') ->
  forall node ctx s stop s',
    P s -> walkNode enter ctx node s = inr (stop, s') -> P s'.
Proof.
  intros Hstep node ctx s stop s' HP Hwalk.
  assert (Hsim : forall c n s1 s2 sig s1',
             s1 = s2 /\ P s1 -> enter c n s1 = inr (sig, s1') ->
             exists s2', enter c n s2 = inr (sig, s2') /\ s1' = s2' /\ P s1').
  { intros c n s1 s2 sig s1' [<- HP1] Henter. eauto. }
  destruct (walkNode_simulation enter enter _ Hsim node ctx s s stop s'
              (conj eq_refl HP) Hwalk) as (s2 & _ & _ & HP').
  exact HP'.
Qed.

Lemma runAll_app (l1 l2 : list (Context * CssNode)) (s s1 : S) :
  runAll enter l1 s = inr (tt, s1) ->
  runAll enter (l1 ++ l2) s = runAll enter l2 s1.
Proof.
  revert s. induction l1 as [|[ctx node] l1 IH]; intros s; cbn [runAll app].
  - unfold ret. now intros [= <-].
  - unfold bind. destruct (enter ctx node s) as [e|[sig t]]; [discriminate|]. apply IH.
Qed.

Variable signal : Context -> CssNode -> Signal.
Hypothesis enter_signal :
  forall ctx node s sig s', enter ctx node s = inr (sig, s') -> sig = signal ctx node.

(** The walk runs the callback on the [visited] calls, in order. *)
Lemma walkNode_runAll (node : CssNode) (ctx : Context) (s : S) (stop : bool) (s' : S) :
  walkNode enter ctx node s = inr (stop, s') ->
  runAll enter (visited signal ctx node) s = inr (tt, s').
Proof.
  intros Hwalk.
  assert (Hsim : forall c n s1 log sig s1',
             runAll enter log s = inr (tt, s1) -> enter c n s1 = inr (sig, s1') ->
             exists log',
               (modify (fun l => l ++ [(c, n)]) ;; ret (signal c n)) log = inr (sig, log')
               /\ runAll enter log' s = inr (tt, s1')).
  { intros c n s1 log sig s1' Hrun Henter.
    exists (log ++ [(c, n)]). split.
    - rewrite (enter_signal _ _ _ _ _ Henter). reflexivity.
    - rewrite (runAll_app _ _ _ _ Hrun). cbn [runAll]. unfold bind.
      now rewrite Henter. }
  destruct (walkNode_simulation enter
              (fun c n => modify (fun l => l ++ [(c, n)]) ;; ret (signal c n))
              _ Hsim node ctx s [] stop s' eq_refl Hwalk)
    as (log & Hlog & Hrun).
  unfold visited. now rewrite Hlog.
Qed.

(** A property that every call of the list preserves holds after the run. *)
Lemma runAll_invariant (P : S -> Prop) (calls : list (Context * CssNode)) :
  (forall ctx node s sig s',
      In (ctx, node) calls -> P s -> enter ctx node s = inr (sig, s') -> P s') ->
  forall s s', P s -> runAll enter calls s = inr (tt, s') -> P s'.
Proof.
  induction calls as [|[ctx node] calls IH]; intros Hstep s s' HP; cbn [runAll].
  - unfold ret. now intros [= <-].
  - unfold bind. destruct (enter ctx node s) as [e|[sig t]] eqn:Henter; [discriminate|].
    apply IH.
    + intros c n u sg u' Hin. apply Hstep. now right.
    + eapply Hstep; eauto. now left.
Qed.

End WalkerRuns.

(* ------------------------------------------------------------------------- *)
(** ** Computations of the callback *)

Lemma bind_inr {S X Y : Type} (m : M S X) (f : X -> M S Y) (s : S) (y : Y) (s'' : S) :
  bind m f s = inr (y, s'') ->
  exists x s', m s = inr (x, s') /\ f x s' = inr (y, s'').
Proof.
  unfold bind. destruct (m s) as [e|[x s']]; [discriminate|]. eauto.
Qed.

Lemma ret_inr {S X : Type} (a x : X) (s s' : S) :
  ret a s = inr (x, s') -> x = a /\ s' = s.
Proof. unfold ret. now intros [= <- <-]. Qed.

Lemma modify_inr {S : Type} (f : S -> S) (x : unit) (s s' : S) :
  modify f s = inr (x, s') -> s' = f s.
Proof. unfold modify. now intros [= <-]. Qed.

Lemma sameCore_refl (st : AnalysisState) : sameCore st st.
Proof. now constructor. Qed.

Lemma sameCore_trans (st1 st2 st3 : AnalysisState) :
  sameCore st1 st2 -> sameCore st2 st3 -> sameCore st1 st3.
Proof.
  intros H1 H2. constructor; intros;
    (etransitivity; [apply H2 | apply H1]); assumption.
Qed.

Lemma framed_ret {X : Type} (x : X) : framed (ret x).
Proof. intros st y st' H. apply ret_inr in H as [_ ->]. apply sameCore_refl. Qed.

Lemma framed_throw {X : Type} (e : Exn) : framed (@throw AnalysisState X e).
Proof. intros st y st' H. discriminate. Qed.

Lemma framed_bind {X Y : Type} (m : A X) (f : X -> A Y) :
  framed m -> (forall x, framed (f x)) -> framed (bind m f).
Proof.
  intros Hm Hf st y st'' H. apply bind_inr in H as (x & st' & H1 & H2).
  eapply sameCore_trans; [eapply Hm | eapply Hf]; eauto.
Qed.

Lemma framed_when (c : bool) (m : A unit) : framed m -> framed (when c m).
Proof. destruct c; [auto | intros _; apply framed_ret]. Qed.

Lemma framed_forEach {X : Type} (f : X -> A unit) (l : list X) :
  (forall x, framed (f x)) -> framed (forEach f l).
Proof.
  intros Hf. induction l as [|x l IH]; cbn [forEach].
  - apply framed_ret.
  - apply framed_bind; auto.
Qed.

Lemma framed_push (c : Counter) (key : string) : tracked c = false -> framed (push c key).
Proof.
  intros Hc st x st' H. apply modify_inr in H as ->.
  constructor; try reflexivity.
  intros c' Hc'. cbn. unfold update.
  destruct (Counter_beq c c') eqn:E; [|reflexivity].
  apply internal_Counter_dec_bl in E. congruence.
Qed.

Lemma framed_pushContext (c : Contextual) (item context : string) :
  framed (pushContext c item context).
Proof. intros st x st' H. apply modify_inr in H as ->. now constructor. Qed.

Lemma framed_walk (enter : Context -> CssNode -> A Signal) (node : CssNode) :
  (forall ctx n, framed (enter ctx n)) -> framed (walk enter node).
Proof.
  intros Henter st x st' H. unfold walk in H.
  apply bind_inr in H as (stop & st1 & Hwalk & Hret).
  apply ret_inr in Hret as [_ ->].
  eapply (walkNode_invariant enter (sameCore st)); [|apply sameCore_refl|exact Hwalk].
  intros ctx n s sig s' Hs Hstep. eapply sameCore_trans; eauto. eapply Henter; eauto.
Qed.

Ltac framed :=
  repeat first
    [ apply framed_ret
    | apply framed_throw
    | apply framed_pushContext
    | apply framed_push; reflexivity
    | apply framed_when
    | apply framed_forEach; intros ?
    | apply framed_walk; intros ? ?
    | apply framed_bind; [|intros ?]
    | match goal with
      | |- framed (if ?c then _ else _) => destruct c
      | |- framed (match ?o with _ => _ end) => destruct o
      end ].

Lemma yields_ret {X : Type} (x : X) : yields (ret x) x.
Proof. intros st y st' H. now apply ret_inr in H. Qed.

Lemma yields_throw {X : Type} (e : Exn) (x : X) : yields (throw e) x.
Proof. intros st y st' H. discriminate. Qed.

Lemma yields_bind {X Y : Type} (m : A X) (f : X -> A Y) (y : Y) :
  (forall x, yields (f x) y) -> yields (bind m f) y.
Proof.
  intros Hf st y' st'' H. apply bind_inr in H as (x & st' & _ & H2). eapply Hf; eauto.
Qed.

Ltac yields :=
  repeat first
    [ apply yields_ret
    | apply yields_throw
    | apply yields_bind; intros ?
    | match goal with
      | |- yields (if ?c then _ else _) _ => destruct c eqn:?
      | |- yields (match ?o with _ => _ end) _ => destruct o eqn:?
      end ].

Section CallbackFacts.

Variable I : Imports.
Variable css : string.

Lemma visitValue_framed (property : string) (ctx : Context) (node : CssNode) :
  framed (visitValue I css property ctx node).
Proof. unfold visitValue. framed. Qed.

Lemma visitValueNode_framed (ctx : Context) (node : CssNode) (children : list CssNode) :
  framed (visitValueNode I css ctx node children).
Proof.
  unfold visitValueNode, pushEach. framed; apply visitValue_framed.
Qed.

Lemma visitDimension_framed (ctx : Context) (unit : string) :
  framed (visitDimension ctx unit).
Proof. unfold visitDimension. framed. Qed.

(** The signal of [visit] is the one [visitSignal] gives. *)
Lemma visit_signal (ctx : Context) (node : CssNode) :
  yields (visit I css ctx node) (visitSignal I ctx node).
Proof.
  destruct node; cbn [visit visitSignal]; try apply yields_ret.
  - unfold visitAtrule. yields.
  - unfold visitRule. yields.
  - unfold visitSelector. yields.
  - unfold visitDeclaration. yields.
  - unfold visitValueNode. yields; congruence.
  - unfold visitDimension. yields.
  - unfold visitUrl. yields.
Qed.

End CallbackFacts.

(* ------------------------------------------------------------------------- *)
(** ** Accumulators *)

Lemma CountableCollection_size_push {K : Type} (eqb : K -> K -> bool) (key : K)
    (c : CountableCollection.t K) :
  CountableCollection.size (CountableCollection.push eqb key c)
  = S (CountableCollection.size c).
Proof.
  induction c as [|[k n] c IH]; cbn [CountableCollection.push CountableCollection.size].
  - reflexivity.
  - destruct (eqb k key); cbn [CountableCollection.size]; lia.
Qed.

Lemma CountableCollection_totalUnique_le {K : Type} (c : CountableCollection.t K) :
  CountableCollection.totalUnique c <= CountableCollection.size c.
Proof.
  unfold CountableCollection.totalUnique.
  induction c as [|[k n] c IH]; cbn [List.length CountableCollection.size]; lia.
Qed.

Lemma CountableCollection_size_ofList {K : Type} (eqb : K -> K -> bool) (l : list K) :
  CountableCollection.size (CountableCollection.ofList eqb l) = List.length l.
Proof.
  unfold CountableCollection.ofList.
  assert (H : forall c,
    CountableCollection.size (fold_left (fun c key => CountableCollection.push eqb key c) l c)
    = CountableCollection.size c + List.length l).
  { induction l as [|x l IH]; intros c; cbn [fold_left List.length]; [lia|].
    rewrite IH, CountableCollection_size_push. lia. }
  apply H.
Qed.

Lemma ContextCollection_totalUnique_le (c : ContextCollection.t) :
  ContextCollection.totalUnique c <= ContextCollection.size c.
Proof.
  unfold ContextCollection.totalUnique.
  induction c as [|[k [n per]] c IH]; cbn [List.length ContextCollection.size]; lia.
Qed.

Lemma setAdd_length (x : string) (s : list string) :
  List.length s <= List.length (setAdd x s) <= S (List.length s).
Proof.
  unfold setAdd. destruct (existsb _ s); [lia|]. rewrite length_app. cbn. lia.
Qed.

Lemma countEmbedType_length (type : string) (size : nat) (m : list (string * (nat * nat))) :
  List.length (countEmbedType type size m) <= S (List.length m).
Proof.
  induction m as [|[k [a b]] m IH]; cbn [countEmbedType List.length]; [lia|].
  destruct (String.eqb k type); cbn [List.length]; lia.
Qed.

(* ------------------------------------------------------------------------- *)
(** ** Lower case *)

Lemma lowerChar_code (c : ascii) :
  nat_of_ascii (JsString.lowerChar c)
  = (let n := nat_of_ascii c in
     if (65 <=? n) && (n <=? 90) || (192 <=? n) && (n <=? 222) && negb (n =? 215)
     then n + 32 else n).
Proof.
  unfold JsString.lowerChar. cbv zeta.
  destruct ((65 <=? nat_of_ascii c) && (nat_of_ascii c <=? 90)
            || (192 <=? nat_of_ascii c) && (nat_of_ascii c <=? 222)
               && negb (nat_of_ascii c =? 215)) eqn:E; [|reflexivity].
  apply nat_ascii_embedding.
  apply orb_true_iff in E as [E|E].
  - apply andb_true_iff in E as [_ E]. apply Nat.leb_le in E. lia.
  - apply andb_true_iff in E as [E _]. apply andb_true_iff in E as [_ E].
    apply Nat.leb_le in E. lia.
Qed.

Lemma toLowerCase_length (s : string) :
  String.length (JsString.toLowerCase s) = String.length s.
Proof. induction s as [|c s IH]; cbn; [reflexivity | now rewrite IH]. Qed.

Lemma toLowerCase_get (s : string) :
  forall i c,
    String.get i s = Some c ->
    exists low,
      String.get i (JsString.toLowerCase s) = Some low
      /\ nat_of_ascii low
         = (let n := nat_of_ascii c in
            if (65 <=? n) && (n <=? 90) || (192 <=? n) && (n <=? 222) && negb (n =? 215)
            then n + 32 else n).
Proof.
  induction s as [|d s IH]; intros i c H; [discriminate H|].
  destruct i as [|i]; cbn [String.get JsString.toLowerCase] in *.
  - injection H as <-. exists (JsString.lowerChar d). split; [reflexivity|].
    apply lowerChar_code.
  - apply IH, H.
Qed.

(* ------------------------------------------------------------------------- *)
(** ** Selectors and declarations that the engine prunes *)

Section Pruning.

Variable I : Imports.
Variable css : string.

(** C4.  A selector whose nearest enclosing at-rule has a name that ends in
    [keyframes] is pushed to the keyframe-selector counter and to nothing
    else, and its subtree is skipped: the state after the walk of the whole
    selector is the state before it with that one counter pushed.  No other
    counter, number, aggregator, set or context counter changes, the
    specificity trackers and samples stay as they are, and the resulting
    state does not depend on the specificity calculator. *)
Theorem keyframe_selector_only_counted
    (ctx : Context) (a : CssNode) (loc : Loc) (children : list CssNode)
    (st : AnalysisState) :
  atrule ctx = Some a ->
  StringUtils.endsWith "keyframes" (nodeName a) = true ->
  let node := Selector loc children in
  let st' :=
    setCounter keyframeSelectors
      (CountableCollection.push String.eqb (stringifyNode css node)
         (counter st keyframeSelectors)) st in
  visit I css ctx node st = inr (Skip, st')
  /\ walkNode (visit I css) ctx node st = inr (false, st')
  /\ CountableCollection.size (counter st' keyframeSelectors)
     = S (CountableCollection.size (counter st keyframeSelectors))
  /\ (forall c, c <> keyframeSelectors -> counter st' c = counter st c)
  /\ number st' = number st
  /\ aggregator st' = aggregator st
  /\ contextual st' = contextual st
  /\ stringSet st' = stringSet st
  /\ minSpecificity st' = minSpecificity st
  /\ maxSpecificity st' = maxSpecificity st
  /\ specificities st' = specificities st.
Proof.
  intros Hatrule Hname node st'.
  assert (Hvisit : visit I css ctx node st = inr (Skip, st')).
  { cbn [visit node]. unfold visitSelector, inKeyframes.
    rewrite Hatrule, Hname. reflexivity. }
  split; [exact Hvisit|]. split; [rewrite walkNode_eq, Hvisit; reflexivity|].
  split; [apply CountableCollection_size_push|].
  split; [|repeat split].
  intros c Hc. cbn. unfold update.
  destruct (Counter_beq keyframeSelectors c) eqn:E; [|reflexivity].
  apply internal_Counter_dec_bl in E. congruence.
Qed.

(** C5.  A declaration inside an at-rule prelude is skipped together with
    its subtree: the walk of the declaration leaves every accumulator as it
    was, so neither the declaration count, nor the set of unique
    declarations, nor any accumulator of properties sees it. *)
Theorem prelude_declaration_skipped
    (ctx : Context) (prelude : CssNode) (loc : Loc) (important : Important)
    (property : string) (value : CssNode) (st : AnalysisState) :
  atrulePrelude ctx = Some prelude ->
  let node := Declaration loc important property value in
  visit I css ctx node st = inr (Skip, st)
  /\ walkNode (visit I css) ctx node st = inr (false, st).
Proof.
  intros Hprelude node.
  assert (Hvisit : visit I css ctx node st = inr (Skip, st)).
  { cbn [visit node]. unfold visitDeclaration. now rewrite Hprelude. }
  split; [exact Hvisit|]. now rewrite walkNode_eq, Hvisit.
Qed.

End Pruning.

(** Reading a field of a state that setters have built. *)
Ltac fields :=
  cbn [number counter aggregator contextual stringSet embedTypesUnique fontfaces
       maxSpecificity minSpecificity specificities
       setNumber setCounter setAggregator setContextual setStringSet
       setEmbedTypesUnique setFontfaces setMaxSpecificity setMinSpecificity
       setSpecificities update
       NumberVar_beq Counter_beq Aggregator_beq Contextual_beq StringSet_beq].

Ltac fields_in H :=
  cbn [number counter aggregator contextual stringSet embedTypesUnique fontfaces
       maxSpecificity minSpecificity specificities
       setNumber setCounter setAggregator setContextual setStringSet
       setEmbedTypesUnique setFontfaces setMaxSpecificity setMinSpecificity
       setSpecificities update
       NumberVar_beq Counter_beq Aggregator_beq Contextual_beq StringSet_beq] in H.

(** Symbolic execution of a straight-line computation that returned: every
    state it went through is written in terms of the first one. *)
Ltac exec_state H :=
  fields_in H;
  lazymatch type of H with
  | _ = match ?o with _ => _ end =>
      first [ match goal with E : o = _ |- _ => rewrite E in H end
            | destruct o eqn:? ];
      exec_state H
  | _ = (if ?c then _ else _) =>
      first [ match goal with E : c = _ |- _ => rewrite E in H end
            | destruct c eqn:? ];
      exec_state H
  | ?s = _ => subst s
  end.

Ltac exec H :=
  fields_in H;
  lazymatch type of H with
  | bind _ _ _ = inr _ =>
      let x := fresh "x" in
      let s := fresh "s" in
      let H1 := fresh "Hexec" in
      let H2 := fresh "Hexec" in
      apply bind_inr in H as (x & s & H1 & H2); exec H1; exec H2
  | ret _ _ = inr _ =>
      let E1 := fresh in
      let E2 := fresh in
      apply ret_inr in H as [E1 E2]; try subst
  | modify _ _ = inr _ => apply modify_inr in H; cbv beta in H; exec_state H
  | throw _ _ = inr _ => discriminate H
  | when ?c _ _ = inr _ => destruct c eqn:?; cbn [when] in H; exec H
  | (if ?c then _ else _) _ = inr _ => destruct c eqn:?; exec H
  | (match ?o with _ => _ end) _ = inr _ => destruct o eqn:?; exec H
  | add _ _ _ = inr _ => unfold add in H; exec H
  | incr _ _ = inr _ => unfold incr, add in H; exec H
  | push _ _ _ = inr _ => unfold push in H; exec H
  | pushSample _ _ _ = inr _ => unfold pushSample in H; exec H
  | pushContext _ _ _ _ = inr _ => unfold pushContext in H; exec H
  | addToSet _ _ _ = inr _ => unfold addToSet in H; exec H
  | _ => idtac
  end.

Lemma update_counter_other {V : Type} (f : Counter -> V) (k c : Counter) (v : V) :
  k <> c -> update Counter_beq f k v c = f c.
Proof.
  intros Hk. unfold update. destruct (Counter_beq k c) eqn:E; [|reflexivity].
  apply internal_Counter_dec_bl in E. contradiction.
Qed.

Lemma succeeds_ret {X : Type} (x : X) : succeeds (ret x).
Proof. intros st. unfold ret. eauto. Qed.

Lemma succeeds_modify (f : AnalysisState -> AnalysisState) : succeeds (modify f).
Proof. intros st. unfold modify. eauto. Qed.

Lemma succeeds_bind {X Y : Type} (m : A X) (f : X -> A Y) :
  succeeds m -> (forall x, succeeds (f x)) -> succeeds (bind m f).
Proof.
  intros Hm Hf st. destruct (Hm st) as (x & st' & Hx).
  destruct (Hf x st') as (y & st'' & Hy).
  exists y, st''. unfold bind. now rewrite Hx.
Qed.

Lemma succeeds_when (c : bool) (m : A unit) : succeeds m -> succeeds (when c m).
Proof. destruct c; [auto | intros _; apply succeeds_ret]. Qed.

Ltac succeeds :=
  repeat first
    [ apply succeeds_ret
    | apply succeeds_modify
    | apply succeeds_when
    | apply succeeds_bind; [|intros ?]
    | match goal with
      | |- succeeds (if ?c then _ else _) => destruct c
      end ].

Section SelectorFacts.

Variable I : Imports.
Variable css : string.

(** The callback returns on every selector. *)
Lemma visitSelector_returns (ctx : Context) (node : CssNode) (st : AnalysisState) :
  exists st', visitSelector I css ctx node st = inr (Skip, st').
Proof.
  assert (H : succeeds (visitSelector I css ctx node)).
  { unfold visitSelector, push, pushSample, addToSet. succeeds. }
  assert (Hskip : yields (visitSelector I css ctx node) Skip).
  { unfold visitSelector. yields. }
  destruct (H st) as (sig & st' & Hrun). exists st'.
  now rewrite Hrun, (Hskip _ _ _ Hrun).
Qed.

(** What the callback does at a selector outside keyframes. *)
Lemma visitSelector_plain (ctx : Context) (node : CssNode) (st : AnalysisState)
    (sig : Signal) (st' : AnalysisState) :
  inKeyframes ctx = false ->
  visitSelector I css ctx node st = inr (sig, st') ->
  let s := calculate I node in
  let selector := stringifyNode css node in
  specificities st' = specificities st ++ [s]
  /\ minSpecificity st' = replaceMin (minSpecificity st) s
  /\ maxSpecificity st' = replaceMax (maxSpecificity st) s
  /\ aggregator st' selectorComplexities
     = aggregator st selectorComplexities ++ [fst (getComplexity I node)]
  /\ aggregator st' specificityA = aggregator st specificityA ++ [specA s]
  /\ aggregator st' specificityB = aggregator st specificityB ++ [specB s]
  /\ aggregator st' specificityC = aggregator st specificityC ++ [specC s]
  /\ number st' = number st
  /\ fontfaces st' = fontfaces st
  /\ embedTypesUnique st' = embedTypesUnique st
  /\ stringSet st' uniqueDeclarations = stringSet st uniqueDeclarations
  /\ stringSet st' uniqueSelectors = setAdd selector (stringSet st uniqueSelectors)
  /\ counter st' uniqueSpecificities
     = CountableCollection.push String.eqb
         (JsString.ofZ (specA s) ++ "," ++ JsString.ofZ (specB s) ++ ","
          ++ JsString.ofZ (specC s))%string (counter st uniqueSpecificities)
  /\ counter st' ids
     = (if (0 <? specA s)%Z
        then CountableCollection.push String.eqb selector (counter st ids)
        else counter st ids)
  /\ counter st' a11y
     = (if isAccessibility I node
        then CountableCollection.push String.eqb selector (counter st a11y)
        else counter st a11y)
  /\ counter st' prefixedSelectors
     = (if snd (getComplexity I node)
        then CountableCollection.push String.eqb selector (counter st prefixedSelectors)
        else counter st prefixedSelectors)
  /\ (forall c, tracked c = true -> c <> uniqueSpecificities -> c <> ids -> c <> a11y ->
                c <> prefixedSelectors -> counter st' c = counter st c).
Proof.
  intros Hkf H s selector. unfold visitSelector in H. rewrite Hkf in H.
  fold s selector in H.
  unfold replaceMin, replaceMax.
  exec H; fields;
    repeat match goal with
           | E : ?c = _ |- context [?c] => rewrite E
           end;
    repeat split; try reflexivity;
    intros c _ ? ? ? ?; rewrite !update_counter_other by congruence; reflexivity.
Qed.

(** C3.  At a selector outside keyframes the callback records the selector
    and answers "skip": the walk of the selector with its whole subtree,
    whatever selector lists are nested in it, appends exactly one
    specificity sample, the one of the selector itself, one complexity
    sample, and one sample per specificity component. *)
Theorem selector_sampled_once
    (ctx : Context) (loc : Loc) (children : list CssNode) (st : AnalysisState) :
  inKeyframes ctx = false ->
  let node := Selector loc children in
  exists st',
    visit I css ctx node st = inr (Skip, st')
    /\ walkNode (visit I css) ctx node st = inr (false, st')
    /\ specificities st' = specificities st ++ [calculate I node]
    /\ aggregator st' selectorComplexities
       = aggregator st selectorComplexities ++ [fst (getComplexity I node)]
    /\ aggregator st' specificityA
       = aggregator st specificityA ++ [specA (calculate I node)]
    /\ aggregator st' specificityB
       = aggregator st specificityB ++ [specB (calculate I node)]
    /\ aggregator st' specificityC
       = aggregator st specificityC ++ [specC (calculate I node)].
Proof.
  intros Hkf node.
  destruct (visitSelector_returns ctx node st) as (st' & Hvisit).
  exists st'.
  destruct (visitSelector_plain ctx node st Skip st' Hkf Hvisit)
    as (Hs & _ & _ & Hcx & Ha & Hb & Hc & _).
  split; [exact Hvisit|].
  split; [rewrite walkNode_eq; cbn [visit node]; now rewrite Hvisit|].
  auto.
Qed.

End SelectorFacts.

Lemma ContextCollection_size_push (item context : string) (c : ContextCollection.t) :
  ContextCollection.size (ContextCollection.push item context c)
  = S (ContextCollection.size c).
Proof.
  induction c as [|[k [n per]] c IH]; cbn [ContextCollection.push ContextCollection.size].
  - reflexivity.
  - destruct (String.eqb k item); cbn [ContextCollection.size]; lia.
Qed.

Section ValueWalk.

Variable I : Imports.
Variable css : string.

(** C8.  In the walk over a declaration value, an identifier whose name has
    between 3 and 20 characters is looked up in the named colors, then in
    the color keywords, then in the system colors; the first set that has it
    decides the format tag ("named", the name in lower case, "system"), the
    color is pushed once with the property of the declaration, the format
    once, and the callback does not ask to skip.  An identifier with a
    shorter or longer name, or one that no set has, changes nothing and the
    callback answers "skip".  The name in lower case has the length of the
    name and, place by place, its character, but for a capital letter ([A]
    to [Z] and the Latin-1 capitals) the letter 32 code units further on. *)
Theorem identifier_color_lookup
    (property : string) (ctx : Context) (loc : Loc) (name : string)
    (st : AnalysisState) :
  let node := Identifier loc name in
  let recorded (format : string) : AnalysisState :=
    setCounter colorFormats
      (CountableCollection.push String.eqb format (counter st colorFormats))
      (setContextual colors
         (ContextCollection.push (stringifyNode css node) property (contextual st colors))
         st) in
  visitValue I css property ctx node st
  = (if (3 <=? String.length name) && (String.length name <=? 20) then
       if namedColors I name then inr (Continue, recorded "named")
       else if colorKeywords I name then
              inr (Continue, recorded (JsString.toLowerCase name))
       else if systemColors I name then inr (Continue, recorded "system")
       else inr (Skip, st)
     else inr (Skip, st))
  /\ (forall format,
       ContextCollection.size (contextual (recorded format) colors)
       = S (ContextCollection.size (contextual st colors))
       /\ CountableCollection.size (counter (recorded format) colorFormats)
          = S (CountableCollection.size (counter st colorFormats))
       /\ sameCore st (recorded format))
  /\ String.length (JsString.toLowerCase name) = String.length name
  /\ (forall i c,
        String.get i name = Some c ->
        exists low,
          String.get i (JsString.toLowerCase name) = Some low
          /\ nat_of_ascii low
             = (let n := nat_of_ascii c in
                if (65 <=? n) && (n <=? 90)
                   || (192 <=? n) && (n <=? 222) && negb (n =? 215)
                then n + 32 else n)).
Proof.
  intros node recorded. split; [|split; [|split]].
  - cbn [visitValue node nodeName].
    destruct (3 <=? String.length name) eqn:E3, (String.length name <=? 20) eqn:E20;
      cbn [andb].
    + replace (20 <? String.length name) with false
        by (symmetry; apply Nat.ltb_ge; now apply Nat.leb_le).
      replace (String.length name <? 3) with false
        by (symmetry; apply Nat.ltb_ge; now apply Nat.leb_le).
      cbn [orb].
      destruct (namedColors I name); [reflexivity|].
      destruct (colorKeywords I name); [reflexivity|].
      destruct (systemColors I name); reflexivity.
    + replace (20 <? String.length name) with true; [reflexivity|].
      symmetry. apply Nat.ltb_lt. now apply Nat.leb_gt.
    + replace (String.length name <? 3) with true; [now rewrite orb_true_r|].
      symmetry. apply Nat.ltb_lt. now apply Nat.leb_gt.
    + replace (String.length name <? 3) with true; [now rewrite orb_true_r|].
      symmetry. apply Nat.ltb_lt. now apply Nat.leb_gt.
  - intros format. split; [|split].
    + apply ContextCollection_size_push.
    + apply CountableCollection_size_push.
    + constructor; try reflexivity.
      intros c Hc. cbn. apply update_counter_other. intros <-. discriminate.
  - apply toLowerCase_length.
  - apply toLowerCase_get.
Qed.

End ValueWalk.

(* ------------------------------------------------------------------------- *)
(** ** One callback call *)

Lemma sameCore_effects (I : Imports) (call : Context * CssNode) (st st' : AnalysisState) :
  sameCore st st' ->
  isAtrule call = false -> isFontface call = false -> isPlainSelector call = false ->
  isCountedDeclaration call = false -> isKeyframeSelector call = false ->
  effects I call st st'.
Proof.
  intros H H1 H2 H3 H4 H5. unfold effects.
  rewrite H1, H2, H3, H4, H5. cbn [count1].
  rewrite (same_number _ _ H), (same_fontfaces _ _ H), (same_specificities _ _ H),
    (same_aggregator _ _ H), (same_minSpecificity _ _ H), (same_maxSpecificity _ _ H),
    (same_counter _ _ H keyframeSelectors eq_refl), app_nil_r.
  repeat split; lia.
Qed.

Lemma sameCore_consistent (st st' : AnalysisState) :
  sameCore st st' -> consistent st -> consistent st'.
Proof.
  intros H. unfold consistent.
  rewrite (same_number _ _ H), (same_aggregator _ _ H), (same_stringSet _ _ H),
    (same_embedTypesUnique _ _ H).
  rewrite !(same_counter _ _ H) by reflexivity. exact (fun x => x).
Qed.

Ltac leftovers :=
  repeat match goal with
         | H : forEach _ _ _ = inr _ |- _ =>
             apply framed_forEach in H; [|intros ?; framed]
         end.

Ltac arith :=
  unfold AggregateCollection.size, AggregateCollection.push in *;
  rewrite ?CountableCollection_size_push, ?length_app in *;
  cbn [List.length count1 app selfUrl snd] in *;
  repeat match goal with
         | |- context [setAdd ?x ?s] =>
             lazymatch goal with
             | _ : List.length s <= List.length (setAdd x s) <= _ |- _ => fail
             | _ => pose proof (setAdd_length x s)
             end
         | |- context [countEmbedType ?t ?n ?m] =>
             lazymatch goal with
             | _ : List.length (countEmbedType t n m) <= _ |- _ => fail
             | _ => pose proof (countEmbedType_length t n m)
             end
         end;
  try lia.

Section StepFacts.

Variable I : Imports.
Variable css : string.

Lemma visitRule_step (ctx : Context) (loc : Loc) (prelude block : CssNode)
    (st : AnalysisState) (sig : Signal) (st' : AnalysisState) :
  visitRule prelude block st = inr (sig, st') ->
  effects I (ctx, Rule loc prelude block) st st' /\ (consistent st -> consistent st').
Proof.
  intros H. unfold visitRule in H. cbv zeta in H. exec H.
  all: unfold effects, consistent; cbn [isAtrule isFontface isPlainSelector
         isKeyframeSelector isCountedDeclaration snd fst]; fields.
  all: split; [repeat split; arith; try (now rewrite app_nil_r)|].
  all: intros J; decompose [and] J; clear J; repeat split; arith.
Qed.

Lemma visitUrl_step (ctx : Context) (loc : Loc) (value : string)
    (st : AnalysisState) (sig : Signal) (st' : AnalysisState) :
  visitUrl I value st = inr (sig, st') ->
  effects I (ctx, Url loc value) st st' /\ (consistent st -> consistent st').
Proof.
  intros H. unfold visitUrl in H. cbv zeta in H. exec H.
  all: unfold effects, consistent; cbn [isAtrule isFontface isPlainSelector
         isKeyframeSelector isCountedDeclaration snd fst]; fields.
  all: split; [repeat split; arith; try (now rewrite app_nil_r)|].
  all: intros J; decompose [and] J; clear J; repeat split; arith.
Qed.

Lemma visitDeclaration_step (ctx : Context) (loc : Loc) (important : Important)
    (property : string) (value : CssNode)
    (st : AnalysisState) (sig : Signal) (st' : AnalysisState) :
  let node := Declaration loc important property value in
  visitDeclaration I css ctx node important property st = inr (sig, st') ->
  effects I (ctx, node) st st' /\ (consistent st -> consistent st').
Proof.
  intros node H. unfold visitDeclaration in H. exec H.
  all: unfold effects, consistent; cbn [isAtrule isFontface isPlainSelector
         isKeyframeSelector isCountedDeclaration snd fst node]; fields.
  all: repeat match goal with E : atrulePrelude _ = _ |- _ => rewrite E end.
  all: split; [repeat split; arith; try (now rewrite app_nil_r)|].
  all: intros J; decompose [and] J; clear J; repeat split; arith.
Qed.

Lemma visitSelector_step (ctx : Context) (loc : Loc) (children : list CssNode)
    (st : AnalysisState) (sig : Signal) (st' : AnalysisState) :
  let node := Selector loc children in
  visitSelector I css ctx node st = inr (sig, st') ->
  effects I (ctx, node) st st' /\ (consistent st -> consistent st').
Proof.
  intros node H. destruct (inKeyframes ctx) eqn:Hkf.
  - unfold visitSelector in H. rewrite Hkf in H. exec H.
    unfold effects, consistent; cbn [isAtrule isFontface isPlainSelector
      isKeyframeSelector isCountedDeclaration snd fst node]; fields.
    rewrite Hkf. cbn [negb].
    split; [repeat split; arith; try (now rewrite app_nil_r)|].
    intros J; decompose [and] J; clear J; repeat split; arith.
  - destruct (visitSelector_plain I css ctx node st sig st' Hkf H)
      as (Hs & Hmin & Hmax & Hcx & _ & _ & _ & Hn & Hff & Het & Hud & Hus & Hsp
          & Hids & Ha11y & Hpre & Hother).
    unfold effects, consistent; cbn [isAtrule isFontface isPlainSelector
      isKeyframeSelector isCountedDeclaration snd fst node].
    rewrite Hkf. cbn [negb].
    rewrite Hs, Hmin, Hmax, Hcx, Hn, Hff, Het, Hud, Hus, Hsp, Hids, Ha11y, Hpre.
    rewrite !Hother by (reflexivity || discriminate).
    split; [repeat split; arith|].
    intros J; decompose [and] J; clear J.
    destruct (0 <? specA (calculate I node))%Z, (isAccessibility I node),
      (snd (getComplexity I node)); repeat split; arith.
Qed.

Lemma visitAtrule_step (ctx : Context) (loc : Loc) (name : string)
    (prelude block : option CssNode)
    (st : AnalysisState) (sig : Signal) (st' : AnalysisState) :
  visitAtrule I css name prelude block st = inr (sig, st') ->
  effects I (ctx, Atrule loc name prelude block) st st'
  /\ (consistent st -> consistent st').
Proof.
  intros H. unfold visitAtrule in H. cbv zeta in H. exec H; leftovers.
  all: unfold effects, consistent; cbn [isAtrule isFontface isPlainSelector
         isKeyframeSelector isCountedDeclaration snd fst]; fields.
  all: repeat match goal with
              | E : String.eqb _ "font-face" = _ |- _ => rewrite E
              | E : sameCore _ ?s |- _ =>
                  rewrite (same_number _ _ E), (same_fontfaces _ _ E),
                    (same_specificities _ _ E), (same_aggregator _ _ E),
                    (same_minSpecificity _ _ E), (same_maxSpecificity _ _ E),
                    (same_stringSet _ _ E), (same_embedTypesUnique _ _ E),
                    !(same_counter _ _ E) by reflexivity;
                  clear E
              end; fields.
  all: split; [repeat split; arith; try (now rewrite app_nil_r)|].
  all: intros J; decompose [and] J; clear J; repeat split; arith.
Qed.

(** Every callback call has the [effects] of its kind and keeps the
    accumulators [consistent]. *)
Lemma visit_step (ctx : Context) (node : CssNode)
    (st : AnalysisState) (sig : Signal) (st' : AnalysisState) :
  visit I css ctx node st = inr (sig, st') ->
  effects I (ctx, node) st st' /\ (consistent st -> consistent st').
Proof.
  intros H.
  destruct node; cbn [visit] in H;
    try (apply ret_inr in H as [_ ->];
         split; [apply sameCore_effects; (apply sameCore_refl || reflexivity) | auto]).
  - eapply visitAtrule_step; eauto.
  - eapply visitRule_step; eauto.
  - eapply visitSelector_step; eauto.
  - eapply visitDeclaration_step; eauto.
  - apply visitValueNode_framed in H.
    split; [apply sameCore_effects; (assumption || reflexivity)
           | now apply sameCore_consistent].
  - apply visitDimension_framed in H.
    split; [apply sameCore_effects; (assumption || reflexivity)
           | now apply sameCore_consistent].
  - eapply visitUrl_step; eauto.
Qed.

(** The effects of a run of calls. *)
Lemma runAll_effects (calls : list (Context * CssNode)) :
  forall st st',
    runAll (visit I css) calls st = inr (tt, st') ->
    let samples := map (fun call => calculate I (snd call)) (filter isPlainSelector calls) in
    number st' totalAtRules = number st totalAtRules + countCalls isAtrule calls
    /\ List.length (fontfaces st')
       = List.length (fontfaces st) + countCalls isFontface calls
    /\ specificities st' = specificities st ++ samples
    /\ AggregateCollection.size (aggregator st' selectorComplexities)
       = AggregateCollection.size (aggregator st selectorComplexities)
         + countCalls isPlainSelector calls
    /\ minSpecificity st' = fold_left replaceMin samples (minSpecificity st)
    /\ maxSpecificity st' = fold_left replaceMax samples (maxSpecificity st)
    /\ number st' totalDeclarations
       = number st totalDeclarations + countCalls isCountedDeclaration calls
    /\ CountableCollection.size (counter st' keyframeSelectors)
       = CountableCollection.size (counter st keyframeSelectors)
         + countCalls isKeyframeSelector calls
    /\ (consistent st -> consistent st').
Proof.
  unfold countCalls.
  induction calls as [|[ctx node] calls IH]; intros st st' H; cbn [runAll] in H.
  - apply ret_inr in H as [_ ->]. cbn [filter map fold_left List.length].
    rewrite app_nil_r. repeat match goal with |- _ /\ _ => split end; auto.
  - apply bind_inr in H as (sig & s & Hvisit & Hrest).
    apply visit_step in Hvisit as [(E1 & E2 & E3 & E4 & E5 & E6 & E7 & E8 & _) Hcons].
    apply IH in Hrest as (R1 & R2 & R3 & R4 & R5 & R6 & R7 & R8 & Rcons).
    rewrite R1, R2, R3, R4, R5, R6, R7, R8, E1, E2, E3, E4, E5, E6, E7, E8.
    cbn [filter].
    destruct (isAtrule (ctx, node)), (isFontface (ctx, node)),
      (isPlainSelector (ctx, node)), (isCountedDeclaration (ctx, node)),
      (isKeyframeSelector (ctx, node));
      cbn [count1 List.length map fold_left snd];
      rewrite <- ?app_assoc; cbn [app]; rewrite ?app_nil_r;
      repeat match goal with |- _ /\ _ => split end; auto; lia.
Qed.

End StepFacts.

(* ------------------------------------------------------------------------- *)
(** ** The whole walk *)

Lemma urlSize_subnodes (node : CssNode) :
  urlSize node = selfUrl node + list_sum (map urlSize (subnodes node)).
Proof.
  assert (lists : forall l,
    (fix sumList (l : list CssNode) : nat :=
       match l with
       | [] => 0
       | child :: l' => urlSize child + sumList l'
       end) l = list_sum (map urlSize l)).
  { induction l as [|child l IHl]; cbn [map list_sum]; [reflexivity|]. now rewrite IHl. }
  destruct node as [? cs|? ? [p|] [b|]|? cs|? p b|? cs|? cs|? cs|? ? ? v|? cs
                   | | | | | |? ? cs| |? ? ? cs];
    cbn [urlSize selfUrl subnodes app map]; rewrite ?lists;
    cbn [list_sum fold_right]; lia.
Qed.

Section WholeWalk.

Variable I : Imports.
Variable css : string.

(** The walk adds at most the length of the [Url] values of the tree to
    [embedSize]. *)
Lemma walkNode_embedSize :
  forall node ctx st stop st',
    walkNode (visit I css) ctx node st = inr (stop, st') ->
    number st' embedSize <= number st embedSize + urlSize node.
Proof.
  induction node as [node IH] using CssNode_subnodes_ind.
  intros ctx st stop st' H. rewrite walkNode_eq in H.
  rewrite urlSize_subnodes.
  destruct (visit I css ctx node st) as [e|[sig s]] eqn:Hvisit; [discriminate|].
  apply visit_step in Hvisit as [(_ & _ & _ & _ & _ & _ & _ & _ & Hembed) _].
  cbn [snd] in Hembed.
  destruct sig; try (injection H as _ <-; lia).
  enough (number st' embedSize
          <= number s embedSize + list_sum (map urlSize (subnodes node))) by lia.
  clear Hembed. revert s H. generalize (enterContext ctx node) as ctx'.
  induction IH as [|child l Hchild _ IHl]; intros ctx' s H;
    cbn [walkNodes map] in *.
  - apply ret_inr in H as [_ ->]. cbn. lia.
  - change (list_sum (urlSize child :: map urlSize l))
      with (urlSize child + list_sum (map urlSize l)).
    apply bind_inr in H as (b & s1 & H1 & H2).
    apply Hchild in H1. destruct b.
    + apply ret_inr in H2 as [_ ->]. lia.
    + apply IHl in H2. lia.
Qed.

(** The state in which the walk starts: the comments are counted, every
    other accumulator is empty. *)
Lemma comments_state (comments : list string) :
  let st := fold_left onComment comments initialState in
  counter st = counter initialState
  /\ aggregator st = aggregator initialState
  /\ stringSet st = stringSet initialState
  /\ contextual st = contextual initialState
  /\ embedTypesUnique st = []
  /\ fontfaces st = []
  /\ maxSpecificity st = None
  /\ minSpecificity st = None
  /\ specificities st = []
  /\ (forall v, v <> totalComments -> v <> commentsSize -> number st v = 0).
Proof.
  assert (H : forall st0,
    let st := fold_left onComment comments st0 in
    counter st = counter st0 /\ aggregator st = aggregator st0
    /\ stringSet st = stringSet st0 /\ contextual st = contextual st0
    /\ embedTypesUnique st = embedTypesUnique st0 /\ fontfaces st = fontfaces st0
    /\ maxSpecificity st = maxSpecificity st0 /\ minSpecificity st = minSpecificity st0
    /\ specificities st = specificities st0
    /\ (forall v, v <> totalComments -> v <> commentsSize -> number st v = number st0 v)).
  { induction comments as [|c l IHl]; intros st0; cbn [fold_left].
    - repeat split; reflexivity.
    - destruct (IHl (onComment st0 c)) as (? & ? & ? & ? & ? & ? & ? & ? & ? & Hn).
      repeat split; try assumption.
      intros v Hv1 Hv2. rewrite (Hn v Hv1 Hv2). unfold onComment. fields.
      destruct v; try reflexivity; contradiction. }
  exact (H initialState).
Qed.

(** The accumulators at the end of the walk, from the calls of the walk. *)
Lemma analysis_facts (st : AnalysisState) :
  analysis I css = inr st ->
  let ast := fst (parse I css) in
  let calls := visits I ast in
  let samples := specificitySamples I ast in
  number st totalAtRules = countCalls isAtrule calls
  /\ List.length (fontfaces st) = countCalls isFontface calls
  /\ specificities st = samples
  /\ AggregateCollection.size (aggregator st selectorComplexities)
     = countCalls isPlainSelector calls
  /\ minSpecificity st = fold_left replaceMin samples None
  /\ maxSpecificity st = fold_left replaceMax samples None
  /\ number st totalDeclarations = countCalls isCountedDeclaration calls
  /\ CountableCollection.size (counter st keyframeSelectors)
     = countCalls isKeyframeSelector calls
  /\ consistent st
  /\ number st embedSize <= urlSize ast.
Proof.
  intros H. cbv zeta. unfold analysis, walk in H. cbv zeta in H.
  set (ast := fst (parse I css)) in *.
  set (st0 := fold_left onComment (snd (parse I css)) initialState) in *.
  destruct (bind (walkNode (visit I css) rootContext ast) (fun _ => ret tt) st0)
    as [e|[[] s]] eqn:Hwalk; [discriminate|].
  injection H as ->.
  apply bind_inr in Hwalk as (stop & s & Hwalk & Hret).
  apply ret_inr in Hret as [_ ->].
  destruct (comments_state (snd (parse I css)))
    as (Hc & Ha & Hs & Hx & He & Hf & Hmax & Hmin & Hsp & Hn).
  fold st0 in Hc, Ha, Hs, Hx, He, Hf, Hmax, Hmin, Hsp, Hn.
  assert (Hcons : consistent st0).
  { unfold consistent. rewrite Hc, Ha, Hs, He, !Hn by discriminate.
    cbn. repeat split; lia. }
  pose proof (walkNode_embedSize _ _ _ _ _ Hwalk) as Hembed.
  rewrite Hn in Hembed by discriminate.
  apply (walkNode_runAll _ (visitSignal I) (visit_signal I css)) in Hwalk.
  apply runAll_effects in Hwalk as (R1 & R2 & R3 & R4 & R5 & R6 & R7 & R8 & Rcons).
  rewrite Hc, Ha, Hf, Hmin, Hmax, Hsp, !Hn in * by discriminate.
  cbn in R2, R3, R4, R8.
  repeat match goal with |- _ /\ _ => split end; auto.
Qed.

End WholeWalk.

(* ------------------------------------------------------------------------- *)
(** ** The order of the specificities *)

Lemma lexLtb_lt (x y : Specificity) :
  lexLtb x y = true
  <-> (specA x < specA y
       \/ specA x = specA y
          /\ (specB x < specB y \/ specB x = specB y /\ specC x < specC y))%Z.
Proof.
  unfold lexLtb.
  rewrite !orb_true_iff, !andb_true_iff, !orb_true_iff, !andb_true_iff,
    !Z.ltb_lt, !Z.eqb_eq.
  reflexivity.
Qed.

Lemma lexLtb_ge (x y : Specificity) :
  lexLtb x y = false
  <-> (specA y < specA x
       \/ specA y = specA x
          /\ (specB y < specB x \/ specB y = specB x /\ specC y <= specC x))%Z.
Proof.
  rewrite <- not_true_iff_false, lexLtb_lt. lia.
Qed.

(** The comparison is negative exactly when its second argument is the
    smaller tuple, and positive exactly when it is the greater one. *)
Lemma compareSpecificity_negative (x y : Specificity) :
  (compareSpecificity x y <? 0)%Z = lexLtb y x.
Proof.
  apply eq_true_iff_eq. rewrite Z.ltb_lt, lexLtb_lt. unfold compareSpecificity.
  destruct (Z.eqb_spec (specA x) (specA y)); [|lia].
  destruct (Z.eqb_spec (specB x) (specB y)); lia.
Qed.

Lemma compareSpecificity_positive (x y : Specificity) :
  (compareSpecificity x y >? 0)%Z = lexLtb x y.
Proof.
  apply eq_true_iff_eq. rewrite Z.gtb_ltb, Z.ltb_lt, lexLtb_lt. unfold compareSpecificity.
  destruct (Z.eqb_spec (specA x) (specA y)); [|lia].
  destruct (Z.eqb_spec (specB x) (specB y)); lia.
Qed.

Lemma lexLtb_irrefl (x : Specificity) : lexLtb x x = false.
Proof. apply lexLtb_ge. lia. Qed.

(** A tuple that is not smaller than the least one is not smaller than a
    tuple below the least one either. *)
Lemma lexLtb_false_lt (x y z : Specificity) :
  lexLtb y x = false -> lexLtb z x = true -> lexLtb y z = false.
Proof. rewrite !lexLtb_ge, lexLtb_lt. lia. Qed.

Lemma lexLtb_false_gt (x y z : Specificity) :
  lexLtb x y = false -> lexLtb x z = true -> lexLtb z y = false.
Proof. rewrite !lexLtb_ge, lexLtb_lt. lia. Qed.

(** The tracker of [min] holds the smallest of the specificities seen. *)
Lemma replaceMin_least (l : list Specificity) :
  forall tracker seen,
    extremeOf lexLtb tracker seen ->
    extremeOf lexLtb (fold_left replaceMin l tracker) (seen ++ l).
Proof.
  induction l as [|s l IH]; intros tracker seen H; cbn [fold_left].
  - now rewrite app_nil_r.
  - replace (seen ++ s :: l) with ((seen ++ [s]) ++ l)
      by (rewrite <- app_assoc; reflexivity).
    apply IH. unfold replaceMin. destruct tracker as [m|]; cbn [extremeOf] in *.
    + destruct H as [Hin Hleast]. rewrite compareSpecificity_negative.
      destruct (lexLtb s m) eqn:E.
      * split; [apply in_or_app; right; now left|].
        intros t Ht. apply in_app_or in Ht as [Ht|[<-|[]]].
        -- apply (lexLtb_false_lt m t s); [now apply Hleast | exact E].
        -- apply lexLtb_irrefl.
      * split; [apply in_or_app; now left|].
        intros t Ht. apply in_app_or in Ht as [Ht|[<-|[]]]; [now apply Hleast | exact E].
    + subst seen. split; [now left|]. intros t [<-|[]]. apply lexLtb_irrefl.
Qed.

(** The tracker of [max] holds the greatest of the specificities seen. *)
Lemma replaceMax_greatest (l : list Specificity) :
  forall tracker seen,
    extremeOf (fun s m => lexLtb m s) tracker seen ->
    extremeOf (fun s m => lexLtb m s) (fold_left replaceMax l tracker) (seen ++ l).
Proof.
  induction l as [|s l IH]; intros tracker seen H; cbn [fold_left].
  - now rewrite app_nil_r.
  - replace (seen ++ s :: l) with ((seen ++ [s]) ++ l)
      by (rewrite <- app_assoc; reflexivity).
    apply IH. unfold replaceMax. destruct tracker as [m|]; cbn [extremeOf] in *.
    + destruct H as [Hin Hgreatest]. rewrite compareSpecificity_positive.
      destruct (lexLtb m s) eqn:E.
      * split; [apply in_or_app; right; now left|].
        intros t Ht. apply in_app_or in Ht as [Ht|[<-|[]]].
        -- apply (lexLtb_false_gt m t s); [now apply Hgreatest | exact E].
        -- apply lexLtb_irrefl.
      * split; [apply in_or_app; now left|].
        intros t Ht. apply in_app_or in Ht as [Ht|[<-|[]]]; [now apply Hgreatest | exact E].
    + subst seen. split; [now left|]. intros t [<-|[]]. apply lexLtb_irrefl.
Qed.

(* ------------------------------------------------------------------------- *)
(** ** The report *)

Section Report.

Variable I : Imports.
Variable css : string.
Variable now : nat -> Z.

(** C1, amended.  The report's [selectors.specificity.min] is what one gets
    from the specificities of the visited non-keyframe selectors, in the
    order of the walk, by starting undefined, taking the first specificity,
    and then replacing the current value by the candidate exactly when
    [compareSpecificity current candidate < 0]; [max] likewise with
    [compareSpecificity current candidate > 0].  The comparison is negative
    exactly when the candidate is the smaller tuple in the lexicographic
    order on (a, b, c) and positive exactly when it is the greater one, so
    [min] is replaced by a smaller candidate and ends on the smallest of the
    specificities, and [max] is replaced by a greater one and ends on the
    greatest.  Without any selector both fields are [0, 0, 0]. *)
Theorem specificity_min_max_tracking (r : JsValue) :
  analyze I css now = inr r ->
  let samples := specificitySamples I (fst (parse I css)) in
  get ["selectors"; "specificity"; "min"] r
  = Some (orZero (fold_left replaceMin samples None))
  /\ get ["selectors"; "specificity"; "max"] r
     = Some (orZero (fold_left replaceMax samples None))
  /\ get ["selectors"; "specificity"; "items"] r
     = Some (specificityItems samples)
  /\ (forall current candidate,
        ((compareSpecificity current candidate <? 0)%Z = lexLtb candidate current)
        /\ ((compareSpecificity current candidate >? 0)%Z = lexLtb current candidate))
  /\ (forall current candidate,
        replaceMin (Some current) candidate
        = Some (if lexLtb candidate current then candidate else current))
  /\ (forall current candidate,
        replaceMax (Some current) candidate
        = Some (if lexLtb current candidate then candidate else current))
  /\ extremeOf lexLtb (fold_left replaceMin samples None) samples
  /\ extremeOf (fun s m => lexLtb m s) (fold_left replaceMax samples None) samples.
Proof.
  intros H samples. unfold analyze in H.
  destruct (analysis I css) as [e|st] eqn:Hst; [discriminate|].
  injection H as <-.
  destruct (analysis_facts I css st Hst) as (_ & _ & Hs & _ & Hmin & Hmax & _).
  fold samples in Hs, Hmin, Hmax. rewrite <- Hmin, <- Hmax, <- Hs.
  repeat match goal with |- _ /\ _ => split end; try reflexivity.
  - intros current candidate.
    split; [apply compareSpecificity_negative | apply compareSpecificity_positive].
  - intros current candidate. unfold replaceMin.
    rewrite compareSpecificity_negative. now destruct (lexLtb candidate current).
  - intros current candidate. unfold replaceMax.
    rewrite compareSpecificity_positive. now destruct (lexLtb current candidate).
  - rewrite Hmin, Hs. exact (replaceMin_least samples None [] eq_refl).
  - rewrite Hmax, Hs. exact (replaceMax_greatest samples None [] eq_refl).
Qed.

(** C9.  [stylesheet.sourceLinesOfCode] is the number of at-rules visited
    plus [selectors.total], the number of selectors visited outside
    keyframes, plus [declarations.total], the number of declarations visited
    outside at-rule preludes, plus [selectors.keyframes.total], the number
    of selectors visited inside keyframes. *)
Theorem sourceLinesOfCode_is_sum (r : JsValue) :
  analyze I css now = inr r ->
  let calls := visits I (fst (parse I css)) in
  let atrules := countCalls isAtrule calls in
  let selectors := countCalls isPlainSelector calls in
  let declarations := countCalls isCountedDeclaration calls in
  let keyframeSelectors := countCalls isKeyframeSelector calls in
  get ["stylesheet"; "sourceLinesOfCode"] r
  = Some (num (atrules + selectors + declarations + keyframeSelectors))
  /\ get ["selectors"; "total"] r = Some (num selectors)
  /\ get ["declarations"; "total"] r = Some (num declarations)
  /\ get ["selectors"; "keyframes"; "total"] r = Some (num keyframeSelectors).
Proof.
  intros H calls nat nsel ndecl nkf. unfold analyze in H.
  destruct (analysis I css) as [e|st] eqn:Hst; [discriminate|].
  injection H as <-.
  destruct (analysis_facts I css st Hst) as (Hat & _ & _ & Hsel & _ & _ & Hdecl & Hkf & _).
  fold calls in Hat, Hsel, Hdecl, Hkf.
  unfold nat, nsel, ndecl, nkf. rewrite <- Hat, <- Hsel, <- Hdecl, <- Hkf.
  repeat split; reflexivity.
Qed.

(** C10.  In [atrules.fontface], [total] and [totalUnique] are both the
    number of [@font-face] at-rules visited, equal records included, and
    [uniquenessRatio] is 0 when that number is 0 and 1 otherwise. *)
Theorem fontface_never_deduplicated (r : JsValue) :
  analyze I css now = inr r ->
  let fontfaces := countCalls isFontface (visits I (fst (parse I css))) in
  get ["atrules"; "fontface"; "total"] r = Some (num fontfaces)
  /\ get ["atrules"; "fontface"; "totalUnique"] r = Some (num fontfaces)
  /\ get ["atrules"; "fontface"; "uniquenessRatio"] r
     = Some (VNum (if fontfaces =? 0 then 0%Q else 1%Q)).
Proof.
  intros H n. unfold analyze in H.
  destruct (analysis I css) as [e|st] eqn:Hst; [discriminate|].
  injection H as <-.
  destruct (analysis_facts I css st Hst) as (_ & Hff & _).
  unfold n. rewrite <- Hff.
  repeat split; reflexivity.
Qed.

End Report.

(* ------------------------------------------------------------------------- *)
(** ** Ratios *)

Lemma ratio_inUnit (part total : nat) :
  part <= total -> inUnit (VNum (ratio part total)) = true.
Proof.
  intros H. unfold ratio, inUnit.
  destruct total as [|n]; [reflexivity|].
  cbn [Nat.eqb]. apply andb_true_intro.
  split; apply Qle_bool_iff; unfold Qle; cbn [Qnum Qden].
  - lia.
  - rewrite <- Pos.of_nat_succ, Zpos_P_of_succ_nat. lia.
Qed.

(** A ratio is 0 when the number it divides by is 0. *)
Lemma ratio_zero_denominator (part total : nat) :
  (if Qeq_bool (inject_Z (Z.of_nat total)) 0 then Qeq_bool (ratio part total) 0 else true)
  = true.
Proof. destruct total; reflexivity. Qed.

Section Leaves.

Variable name : string.
Variable p : JsValue -> bool.

Lemma forall_fields_unique {K : Type} (show : K -> string) (c : CountableCollection.t K) :
  forall_fields name p (CountableCollection.unique show c) = true.
Proof.
  unfold CountableCollection.unique.
  induction c as [|kn c IH]; [reflexivity|].
  cbn [forall_fields map num] in *. exact IH.
Qed.

Lemma forall_fields_itemsOf (st : AnalysisState) (a : Aggregator) :
  forall_fields name p (itemsOf st a) = true.
Proof.
  unfold itemsOf. induction (AggregateCollection.toArray (aggregator st a)) as [|x l IH];
    [reflexivity|].
  cbn [forall_fields map numZ] in *. exact IH.
Qed.

Lemma forall_fields_orZero (o : option Specificity) :
  forall_fields name p (orZero o) = true.
Proof. destruct o; reflexivity. Qed.

Lemma forall_fields_specificityItems (l : list Specificity) :
  forall_fields name p (specificityItems l) = true.
Proof.
  unfold specificityItems. induction l as [|x l IH]; [reflexivity|].
  cbn [forall_fields map specificityValue numZ andb] in *. exact IH.
Qed.

Lemma forall_fields_fontfacesValue (l : list (list (string * string))) :
  forall_fields name p (fontfacesValue l) = true.
Proof.
  unfold fontfacesValue. induction l as [|d l IH]; [reflexivity|].
  cbn [forall_fields map] in *. rewrite IH, andb_true_r.
  clear IH. induction d as [|kv d IH]; [reflexivity|].
  cbn [map fst snd andb]. exact IH.
Qed.

Lemma forall_fields_uniquenessRatio {K : Type} (c : CountableCollection.t K) :
  forall_fields name p (CountableCollection.uniquenessRatio c) = true.
Proof. reflexivity. Qed.

Lemma forall_fields_contextUniquenessRatio (c : ContextCollection.t) :
  forall_fields name p (ContextCollection.uniquenessRatio c) = true.
Proof. reflexivity. Qed.

Hypothesis not_count : String.eqb "count" name = false.
Hypothesis not_size : String.eqb "size" name = false.
Hypothesis not_total : String.eqb "total" name = false.
Hypothesis not_unique : String.eqb "unique" name = false.

Lemma forall_fields_embedTypesValue (m : list (string * (nat * nat))) :
  forall_fields name p (embedTypesValue m) = true.
Proof.
  unfold embedTypesValue. induction m as [|e m IH]; [reflexivity|].
  cbn [forall_fields map fst snd num] in *. now rewrite not_count, not_size, IH.
Qed.

Lemma forall_fields_contextUnique (c : ContextCollection.t) :
  forall_fields name p (ContextCollection.unique c) = true.
Proof.
  unfold ContextCollection.unique. induction c as [|e c IH]; [reflexivity|].
  cbn [forall_fields map ContextCollection.showEntry fst snd num] in *.
  rewrite not_total, not_unique, IH, !andb_true_r. cbn [andb].
  induction (snd (snd e)) as [|kn per IHper]; [reflexivity|].
  cbn [map fst snd andb]. exact IHper.
Qed.

End Leaves.

Section CountLeaves.

Variable name : string.

Lemma count_fields_unique {K : Type} (show : K -> string) (c : CountableCollection.t K) :
  count_fields name (CountableCollection.unique show c) = 0.
Proof.
  unfold CountableCollection.unique.
  induction c as [|kn c IH]; [reflexivity|].
  cbn [count_fields map num] in *. exact IH.
Qed.

Lemma count_fields_itemsOf (st : AnalysisState) (a : Aggregator) :
  count_fields name (itemsOf st a) = 0.
Proof.
  unfold itemsOf. induction (AggregateCollection.toArray (aggregator st a)) as [|x l IH];
    [reflexivity|].
  cbn [count_fields map numZ] in *. exact IH.
Qed.

Lemma count_fields_orZero (o : option Specificity) :
  count_fields name (orZero o) = 0.
Proof. destruct o; reflexivity. Qed.

Lemma count_fields_specificityItems (l : list Specificity) :
  count_fields name (specificityItems l) = 0.
Proof.
  unfold specificityItems. induction l as [|x l IH]; [reflexivity|].
  cbn [count_fields map specificityValue numZ Nat.add] in *. exact IH.
Qed.

Lemma count_fields_fontfacesValue (l : list (list (string * string))) :
  count_fields name (fontfacesValue l) = 0.
Proof.
  unfold fontfacesValue. induction l as [|d l IH]; [reflexivity|].
  cbn [count_fields map] in *. rewrite IH, Nat.add_0_r.
  clear IH. induction d as [|kv d IH]; [reflexivity|].
  cbn [map fst snd Nat.add]. exact IH.
Qed.

Lemma count_fields_uniquenessRatio {K : Type} (c : CountableCollection.t K) :
  count_fields name (CountableCollection.uniquenessRatio c) = 0.
Proof. reflexivity. Qed.

Lemma count_fields_contextUniquenessRatio (c : ContextCollection.t) :
  count_fields name (ContextCollection.uniquenessRatio c) = 0.
Proof. reflexivity. Qed.

Hypothesis not_count : String.eqb "count" name = false.
Hypothesis not_size : String.eqb "size" name = false.
Hypothesis not_total : String.eqb "total" name = false.
Hypothesis not_unique : String.eqb "unique" name = false.

Lemma count_fields_embedTypesValue (m : list (string * (nat * nat))) :
  count_fields name (embedTypesValue m) = 0.
Proof.
  unfold embedTypesValue. induction m as [|e m IH]; [reflexivity|].
  cbn [count_fields map fst snd num] in *. now rewrite not_count, not_size, IH.
Qed.

Lemma count_fields_contextUnique (c : ContextCollection.t) :
  count_fields name (ContextCollection.unique c) = 0.
Proof.
  unfold ContextCollection.unique. induction c as [|e c IH]; [reflexivity|].
  cbn [count_fields map ContextCollection.showEntry fst snd num] in *.
  rewrite not_total, not_unique, IH, !Nat.add_0_r. cbn [Nat.add].
  induction (snd (snd e)) as [|kn per IHper]; [reflexivity|].
  cbn [map fst snd Nat.add]. exact IHper.
Qed.

End CountLeaves.

Lemma inUnit_uniquenessRatio {K : Type} (c : CountableCollection.t K) :
  inUnit (CountableCollection.uniquenessRatio c) = true.
Proof. apply ratio_inUnit, CountableCollection_totalUnique_le. Qed.

Lemma inUnit_contextUniquenessRatio (c : ContextCollection.t) :
  inUnit (ContextCollection.uniquenessRatio c) = true.
Proof. apply ratio_inUnit, ContextCollection_totalUnique_le. Qed.

Ltac skeleton :=
  unfold report, sizesReport, countOf, sizeOf, ratioOf, CountableCollection.count,
    ContextCollection.count, AggregateCollection.aggregate;
  cbn [forall_fields count_fields assign fold_left setField fst snd String.eqb Ascii.eqb
       Bool.eqb andb num numZ Nat.add].

Section Ratios.

Variable css : string.

Lemma report_ratios (name : string) (st : AnalysisState) (l p a t : Z) :
  name = "ratio" \/ name = "uniquenessRatio" ->
  consistent st -> number st embedSize <= String.length css ->
  forall_fields name inUnit (report css st l p a t) = true.
Proof.
  intros Hname (J1 & J2 & J3 & J4 & J5 & J6 & J7 & J8 & J9 & J10 & J11 & J12 & J13
                & J14 & J15) He.
  destruct Hname as [-> | ->]; skeleton;
    rewrite ?forall_fields_unique, ?forall_fields_itemsOf, ?forall_fields_orZero,
      ?forall_fields_specificityItems, ?forall_fields_fontfacesValue,
      ?forall_fields_embedTypesValue, ?forall_fields_contextUnique,
      ?forall_fields_uniquenessRatio, ?forall_fields_contextUniquenessRatio
      by reflexivity;
    rewrite ?inUnit_uniquenessRatio, ?inUnit_contextUniquenessRatio;
    rewrite ?ratio_inUnit by assumption;
    try (destruct (List.length (fontfaces st) =? 0));
    reflexivity.
Qed.

(** The table [ratioFields] lists every ratio field of the report. *)
Lemma report_ratio_count (st : AnalysisState) (l p a t : Z) :
  count_fields "ratio" (report css st l p a t)
  + count_fields "uniquenessRatio" (report css st l p a t)
  = List.length ratioFields.
Proof.
  skeleton;
    rewrite ?count_fields_unique, ?count_fields_itemsOf, ?count_fields_orZero,
      ?count_fields_specificityItems, ?count_fields_fontfacesValue,
      ?count_fields_embedTypesValue, ?count_fields_contextUnique,
      ?count_fields_uniquenessRatio, ?count_fields_contextUniquenessRatio
      by reflexivity.
  reflexivity.
Qed.

Lemma report_zero_denominators (st : AnalysisState) (l p a t : Z) :
  consistent st ->
  forallb (zeroWithDenominator (report css st l p a t)) ratioFields = true.
Proof.
  intros (_ & _ & _ & _ & _ & J6 & _).
  unfold ratioFields. cbn [forallb app]. unfold zeroWithDenominator. cbn [fst snd].
  unfold report, sizesReport, countOf, sizeOf, ratioOf, CountableCollection.count,
    ContextCollection.count, AggregateCollection.aggregate,
    CountableCollection.uniquenessRatio, ContextCollection.uniquenessRatio.
  cbn [get lookup assign fold_left setField fst snd String.eqb Ascii.eqb Bool.eqb
       num numZ].
  unfold histogram. rewrite !CountableCollection_size_ofList.
  unfold AggregateCollection.toArray. fold (AggregateCollection.size (aggregator st ruleSizes)).
  rewrite J6.
  rewrite ?ratio_zero_denominator.
  destruct (List.length (fontfaces st)); reflexivity.
Qed.

End Ratios.

Section ReportRatios.

Variable I : Imports.
Variable css : string.
Variable now : nat -> Z.

(** C6.  Every [ratio] and every [uniquenessRatio] field of the report is a
    number between 0 and 1, and is 0 when the number it divides by is 0.
    The fields are the ones that [ratioFields] lists, each with the field of
    the report that holds its denominator.  The parser is taken to deliver
    [Url] values that together are no longer than the source they were
    cut from. *)
Theorem ratios_in_unit_interval (r : JsValue) :
  urlSize (fst (parse I css)) <= String.length css ->
  analyze I css now = inr r ->
  forall_fields "ratio" inUnit r = true
  /\ forall_fields "uniquenessRatio" inUnit r = true
  /\ forallb (zeroWithDenominator r) ratioFields = true
  /\ count_fields "ratio" r + count_fields "uniquenessRatio" r
     = List.length ratioFields.
Proof.
  intros Hurl H. unfold analyze in H.
  destruct (analysis I css) as [e|st] eqn:Hst; [discriminate|].
  injection H as <-.
  destruct (analysis_facts I css st Hst) as (_ & _ & _ & _ & _ & _ & _ & _ & Hcons & Hembed).
  assert (He : number st embedSize <= String.length css) by lia.
  repeat split.
  - apply report_ratios; auto.
  - apply report_ratios; auto.
  - now apply report_zero_denominators.
  - apply report_ratio_count.
Qed.

(** C2, as the code has it.  Two calls of [analyze] on one source text, at
    whatever times, throw the same exception or return reports that are
    equal in every section but [__meta__]; the three fields of [__meta__]
    are differences of clock readings. *)
Theorem analyze_repeatable_up_to_meta (now' : nat -> Z) :
  match analyze I css now, analyze I css now' with
  | inr r, inr r' =>
      withoutMeta r = withoutMeta r'
      /\ get ["__meta__"] r
         = Some (VObj [ ("parseTime", numZ (now 2 - now 1));
                        ("analyzeTime", numZ (now 3 - now 2));
                        ("total", numZ (now 4 - now 0)) ])
  | inl e, inl e' => e = e'
  | _, _ => False
  end.
Proof.
  unfold analyze. destruct (analysis I css) as [e|st]; [reflexivity|].
  split; reflexivity.
Qed.

End ReportRatios.

Section EmptySource.

Variable I : Imports.
Variable now : nat -> Z.

(** C7, as the code has it.  When the parser gives the empty style sheet,
    without comments, for the empty source, [analyze] returns a report in
    which every [total] field outside [__meta__] and every [totalUnique]
    field is 0, every [ratio] and [uniquenessRatio] field is 0, and
    [selectors.specificity.min] and [max] are [0, 0, 0]. *)
Theorem empty_source_report (loc : Loc) :
  parse I "" = (StyleSheet loc [], []) ->
  exists r,
    analyze I "" now = inr r
    /\ forall_fields "total" isZero (withoutMeta r) = true
    /\ forall_fields "totalUnique" isZero r = true
    /\ forall_fields "ratio" isZero r = true
    /\ forall_fields "uniquenessRatio" isZero r = true
    /\ get ["selectors"; "specificity"; "min"] r = Some (VArr [numZ 0; numZ 0; numZ 0])
    /\ get ["selectors"; "specificity"; "max"] r = Some (VArr [numZ 0; numZ 0; numZ 0]).
Proof.
  intros Hparse. unfold analyze, analysis. rewrite Hparse. cbn [fst snd fold_left].
  eexists. split; [reflexivity|].
  repeat split; vm_compute; reflexivity.
Qed.

End EmptySource.

(* ------------------------------------------------------------------------- *)
(** ** The properties on the sample inputs *)

Import Sample.

(** C1 as stated fails: with the comparison of the ascending order, the rule
    "replace when [compare(current, candidate) < 0]" takes [min] from
    [0, 0, 1] to [0, 1, 0] on [a,.b{}], where the report has [0, 0, 1]. *)
Lemma min_is_not_replaced_in_ascending_order :
  exists r,
    analyze sampleImports "a,.b{}" tickingClock = inr r
    /\ get ["selectors"; "specificity"; "items"] r
       = Some (specificityItems [(0, 0, 1)%Z; (0, 1, 0)%Z])
    /\ get ["selectors"; "specificity"; "min"] r = Some (specificityValue (0, 0, 1)%Z)
    /\ fold_left replaceMinAscending [(0, 0, 1)%Z; (0, 1, 0)%Z] None = Some (0, 1, 0)%Z
    /\ get ["selectors"; "specificity"; "min"] r
       <> Some (orZero (fold_left replaceMinAscending
                          (specificitySamples sampleImports
                             (fst (parse sampleImports "a,.b{}"))) None)).
Proof.
  eexists. split; [vm_compute; reflexivity|].
  repeat split; try (vm_compute; reflexivity).
  vm_compute. discriminate.
Qed.

(** C2 as stated fails: the report of the empty source read at a frozen clock
    differs from the one read at a ticking clock. *)
Lemma analyze_depends_on_clock :
  analyze sampleImports "" frozenClock <> analyze sampleImports "" tickingClock.
Proof.
  intros H.
  apply (f_equal (fun x => match x with
                           | inr r => get ["__meta__"; "total"] r
                           | inl _ => None
                           end)) in H.
  vm_compute in H. discriminate H.
Qed.

(** C7 as stated fails: in the report of the empty source read at a ticking
    clock the field [__meta__.total] is 4, not 0. *)
Lemma empty_source_meta_total_nonzero :
  exists r,
    analyze sampleImports "" tickingClock = inr r
    /\ get ["__meta__"; "total"] r = Some (numZ 4)
    /\ forall_fields "total" isZero r = false.
Proof.
  eexists. split; [vm_compute; reflexivity|].
  split; vm_compute; reflexivity.
Qed.

Lemma specificity_min_max_tracking_witness :
  exists r,
    analyze sampleImports "a,.b{}" tickingClock = inr r
    /\ get ["selectors"; "specificity"; "items"] r
       = Some (VArr [ VArr [numZ 0; numZ 0; numZ 1]; VArr [numZ 0; numZ 1; numZ 0] ])
    /\ get ["selectors"; "specificity"; "min"] r = Some (VArr [numZ 0; numZ 0; numZ 1])
    /\ get ["selectors"; "specificity"; "max"] r = Some (VArr [numZ 0; numZ 1; numZ 0]).
Proof.
  destruct (analyze sampleImports "a,.b{}" tickingClock) as [e|r] eqn:H;
    [vm_compute in H; discriminate H|].
  exists r. split; [reflexivity|].
  destruct (specificity_min_max_tracking sampleImports "a,.b{}" tickingClock r H)
    as (Hmin & Hmax & Hitems & _).
  repeat split; [exact Hitems | exact Hmin | exact Hmax].
Defined.

Lemma selector_sampled_once_witness :
  inKeyframes rootContext = false
  /\ exists st',
       walkNode (visit sampleImports ":is(a, b){}") rootContext
         (Selector (span 0 9) isChildren) initialState = inr (false, st')
       /\ specificities st' = [(0, 1, 0)%Z]
       /\ aggregator st' selectorComplexities = [1%Z].
Proof.
  split; [reflexivity|].
  destruct (selector_sampled_once sampleImports ":is(a, b){}" rootContext (span 0 9)
              isChildren initialState eq_refl) as (st' & _ & Hwalk & Hs & Hc & _).
  exists st'. repeat split; [exact Hwalk | exact Hs | exact Hc].
Defined.

Lemma keyframe_selector_only_counted_witness :
  atrule inSampleKeyframes = Some keyframesAtrule
  /\ StringUtils.endsWith "keyframes" (nodeName keyframesAtrule) = true
  /\ walkNode (visit sampleImports "@keyframes x{to{top:0}}") inSampleKeyframes
       (Selector (span 13 15) [ typeSelector 13 15 "to" ]) initialState
     = inr (false,
            setCounter keyframeSelectors [("to", 1%positive)] initialState).
Proof.
  split; [reflexivity|]. split; [reflexivity|].
  exact (proj1 (proj2 (keyframe_selector_only_counted sampleImports
                         "@keyframes x{to{top:0}}" inSampleKeyframes keyframesAtrule
                         (span 13 15) [ typeSelector 13 15 "to" ] initialState
                         eq_refl eq_refl))).
Defined.

Lemma prelude_declaration_skipped_witness :
  atrulePrelude inSamplePrelude = Some supportsPrelude
  /\ walkNode (visit sampleImports "@supports (display:flex){}") inSamplePrelude
       (Declaration (span 11 23) (ImportantFlag false) "display"
          (Value (span 19 23) [ Identifier (span 19 23) "flex" ])) initialState
     = inr (false, initialState).
Proof.
  split; [reflexivity|].
  exact (proj2 (prelude_declaration_skipped sampleImports "@supports (display:flex){}"
                  inSamplePrelude supportsPrelude (span 11 23) (ImportantFlag false)
                  "display" (Value (span 19 23) [ Identifier (span 19 23) "flex" ])
                  initialState eq_refl)).
Defined.

Lemma ratios_in_unit_interval_witness :
  let css := "@font-face{src:url(data:x)}@font-face{src:url(data:x)}" in
  urlSize (fst (parse sampleImports css)) <= String.length css
  /\ exists r,
       analyze sampleImports css tickingClock = inr r
       /\ forall_fields "ratio" inUnit r = true
       /\ forall_fields "uniquenessRatio" inUnit r = true
       /\ forallb (zeroWithDenominator r) ratioFields = true
       /\ get ["stylesheet"; "embeddedContent"; "size"; "ratio"] r = Some (VNum (12 # 54)).
Proof.
  cbv zeta.
  assert (Hurl : urlSize (fst (parse sampleImports
                   "@font-face{src:url(data:x)}@font-face{src:url(data:x)}"))
                 <= String.length "@font-face{src:url(data:x)}@font-face{src:url(data:x)}").
  { vm_compute. lia. }
  split; [exact Hurl|].
  destruct (analyze sampleImports "@font-face{src:url(data:x)}@font-face{src:url(data:x)}"
              tickingClock) as [e|r] eqn:H; [vm_compute in H; discriminate H|].
  exists r. split; [reflexivity|].
  destruct (ratios_in_unit_interval sampleImports _ tickingClock r Hurl H)
    as (H1 & H2 & H3 & _).
  repeat split; try assumption.
  vm_compute in H. injection H as <-. reflexivity.
Defined.

Lemma empty_source_report_witness :
  parse sampleImports "" = (StyleSheet (span 0 0) [], [])
  /\ exists r,
       analyze sampleImports "" tickingClock = inr r
       /\ forall_fields "total" isZero (withoutMeta r) = true
       /\ forall_fields "ratio" isZero r = true
       /\ get ["selectors"; "specificity"; "min"] r = Some (VArr [numZ 0; numZ 0; numZ 0])
       /\ get ["selectors"; "specificity"; "max"] r = Some (VArr [numZ 0; numZ 0; numZ 0]).
Proof.
  split; [reflexivity|].
  destruct (empty_source_report sampleImports tickingClock (span 0 0) eq_refl)
    as (r & H & Ht & _ & Hr & _ & Hmin & Hmax).
  exists r. repeat split; assumption.
Defined.

Lemma sourceLinesOfCode_is_sum_witness :
  exists r,
    analyze sampleImports "@keyframes x{to{top:0}}" tickingClock = inr r
    /\ get ["stylesheet"; "sourceLinesOfCode"] r = Some (num (1 + 0 + 1 + 1))
    /\ get ["selectors"; "total"] r = Some (num 0)
    /\ get ["declarations"; "total"] r = Some (num 1)
    /\ get ["selectors"; "keyframes"; "total"] r = Some (num 1).
Proof.
  destruct (analyze sampleImports "@keyframes x{to{top:0}}" tickingClock) as [e|r] eqn:H;
    [vm_compute in H; discriminate H|].
  exists r. split; [reflexivity|].
  exact (sourceLinesOfCode_is_sum sampleImports "@keyframes x{to{top:0}}" tickingClock r H).
Defined.

Lemma fontface_never_deduplicated_witness :
  exists r,
    analyze sampleImports "@font-face{src:url(data:x)}@font-face{src:url(data:x)}"
      tickingClock = inr r
    /\ get ["atrules"; "fontface"; "total"] r = Some (num 2)
    /\ get ["atrules"; "fontface"; "totalUnique"] r = Some (num 2)
    /\ get ["atrules"; "fontface"; "uniquenessRatio"] r = Some (VNum 1).
Proof.
  destruct (analyze sampleImports "@font-face{src:url(data:x)}@font-face{src:url(data:x)}"
              tickingClock) as [e|r] eqn:H; [vm_compute in H; discriminate H|].
  exists r. split; [reflexivity|].
  exact (fontface_never_deduplicated sampleImports _ tickingClock r H).
Defined.

(** The keyword [currentColor] is recorded as written, with the format
    [currentcolor]. *)
Lemma identifier_color_lookup_witness :
  visitValue sampleImports "a{color:currentColor}" "color" rootContext
    (Identifier (span 8 20) "currentColor") initialState
  = inr (Continue,
         setCounter colorFormats [("currentcolor", 1%positive)]
           (setContextual colors
              [("currentColor", (1%positive, [("color", 1%positive)]))] initialState)).
Proof.
  pose proof (identifier_color_lookup sampleImports "a{color:currentColor}" "color"
                rootContext (span 8 20) "currentColor" initialState) as H.
  cbv zeta in H. destruct H as [H _]. rewrite H. reflexivity.
Defined.

(** Colors on the sample sets: [red] is a named color, [currentColor] a
    keyword, [Canvas] a system color, [flex] none of them. *)
Example identifier_colors :
  map (fun name =>
         match visitValue sampleImports "" "color" rootContext
                 (Identifier (span 0 0) name) initialState with
         | inr (sig, st) => Some (sig, counter st colorFormats)
         | inl _ => None
         end)
      [ "red"; "currentColor"; "Canvas"; "flex"; "ab" ]
  = [ Some (Continue, [("named", 1%positive)]);
      Some (Continue, [("currentcolor", 1%positive)]);
      Some (Continue, [("system", 1%positive)]);
      Some (Skip, []);
      Some (Skip, []) ].
Proof. reflexivity. Qed.

(* ========================================================================= *)
(** * Further properties of the callback and of the report *)

(* ------------------------------------------------------------------------- *)
(** ** What each case of the callback may change *)

Lemma within_refl (F : Footprint) (st : AnalysisState) : within F st st.
Proof. constructor; auto. Qed.

Lemma within_trans (F : Footprint) (st1 st2 st3 : AnalysisState) :
  within F st1 st2 -> within F st2 st3 -> within F st1 st3.
Proof.
  intros H1 H2. constructor; intros.
  - rewrite (within_number _ _ _ H2), (within_number _ _ _ H1); auto.
  - rewrite (within_counter _ _ _ H2), (within_counter _ _ _ H1); auto.
  - rewrite (within_aggregator _ _ _ H2), (within_aggregator _ _ _ H1); auto.
  - rewrite (within_contextual _ _ _ H2), (within_contextual _ _ _ H1); auto.
  - rewrite (within_stringSet _ _ _ H2), (within_stringSet _ _ _ H1); auto.
  - rewrite (within_embedTypes _ _ _ H2), (within_embedTypes _ _ _ H1); auto.
  - rewrite (within_fontfaces _ _ _ H2), (within_fontfaces _ _ _ H1); auto.
  - destruct (within_specificity _ _ _ H2) as (-> & -> & ->); auto.
    apply (within_specificity _ _ _ H1); auto.
Qed.

Lemma touches_ret {X : Type} (F : Footprint) (x : X) : touches F (ret x).
Proof. intros st y st' H. apply ret_inr in H as [_ ->]. apply within_refl. Qed.

Lemma touches_throw {X : Type} (F : Footprint) (e : Exn) :
  touches F (@throw AnalysisState X e).
Proof. intros st y st' H. discriminate. Qed.

Lemma touches_bind {X Y : Type} (F : Footprint) (m : A X) (f : X -> A Y) :
  touches F m -> (forall x, touches F (f x)) -> touches F (bind m f).
Proof.
  intros Hm Hf st y st'' H. apply bind_inr in H as (x & st' & H1 & H2).
  eapply within_trans; [eapply Hm | eapply Hf]; eauto.
Qed.

Lemma touches_when (F : Footprint) (c : bool) (m : A unit) :
  touches F m -> touches F (when c m).
Proof. destruct c; [auto | intros _; apply touches_ret]. Qed.

Lemma touches_forEach {X : Type} (F : Footprint) (f : X -> A unit) (l : list X) :
  (forall x, touches F (f x)) -> touches F (forEach f l).
Proof.
  intros Hf. induction l as [|x l IH]; cbn [forEach].
  - apply touches_ret.
  - apply touches_bind; auto.
Qed.

Lemma touches_walk (F : Footprint) (enter : Context -> CssNode -> A Signal)
    (node : CssNode) :
  (forall ctx n, touches F (enter ctx n)) -> touches F (walk enter node).
Proof.
  intros Henter st x st' H. unfold walk in H.
  apply bind_inr in H as (stop & st1 & Hwalk & Hret).
  apply ret_inr in Hret as [_ ->].
  eapply (walkNode_invariant enter (within F st)); [|apply within_refl|exact Hwalk].
  intros ctx n s sig s' Hs Hstep. eapply within_trans; eauto. eapply Henter; eauto.
Qed.

Lemma update_other {K V : Type} (eqb : K -> K -> bool) (f : K -> V) (k k' : K) (v : V) :
  eqb k k' = false -> update eqb f k v k' = f k'.
Proof. intros H. unfold update. now rewrite H. Qed.

Lemma touches_add (F : Footprint) (v : NumberVar) (n : nat) :
  inNumber F v = true -> touches F (add v n).
Proof.
  intros Hv st x st' H. apply modify_inr in H as ->.
  constructor; try (intros; reflexivity); auto.
  intros v' Hv'. cbn. unfold update.
  destruct (NumberVar_beq v v') eqn:E; [|reflexivity].
  apply internal_NumberVar_dec_bl in E. congruence.
Qed.

Lemma touches_push (F : Footprint) (c : Counter) (key : string) :
  inCounter F c = true -> touches F (push c key).
Proof.
  intros Hc st x st' H. apply modify_inr in H as ->.
  constructor; try (intros; reflexivity); auto.
  intros c' Hc'. cbn. unfold update.
  destruct (Counter_beq c c') eqn:E; [|reflexivity].
  apply internal_Counter_dec_bl in E. congruence.
Qed.

Lemma touches_pushSample (F : Footprint) (a : Aggregator) (value : Z) :
  inAggregator F a = true -> touches F (pushSample a value).
Proof.
  intros Ha st x st' H. apply modify_inr in H as ->.
  constructor; try (intros; reflexivity); auto.
  intros a' Ha'. cbn. unfold update.
  destruct (Aggregator_beq a a') eqn:E; [|reflexivity].
  apply internal_Aggregator_dec_bl in E. congruence.
Qed.

Lemma touches_pushContext (F : Footprint) (c : Contextual) (item context : string) :
  inContextual F c = true -> touches F (pushContext c item context).
Proof.
  intros Hc st x st' H. apply modify_inr in H as ->.
  constructor; try (intros; reflexivity); auto.
  intros c' Hc'. cbn. unfold update.
  destruct (Contextual_beq c c') eqn:E; [|reflexivity].
  apply internal_Contextual_dec_bl in E. congruence.
Qed.

Lemma touches_addToSet (F : Footprint) (s : StringSet) (x : string) :
  inStringSet F s = true -> touches F (addToSet s x).
Proof.
  intros Hs st y st' H. apply modify_inr in H as ->.
  constructor; try (intros; reflexivity); auto.
  intros s' Hs'. cbn. unfold update.
  destruct (StringSet_beq s s') eqn:E; [|reflexivity].
  apply internal_StringSet_dec_bl in E. congruence.
Qed.

(** A change of the specificity trackers or samples, of [fontfaces] or of
    [embedTypes.unique]. *)
Lemma touches_modify (F : Footprint) (f : AnalysisState -> AnalysisState) :
  (forall st, number (f st) = number st /\ counter (f st) = counter st
              /\ aggregator (f st) = aggregator st /\ contextual (f st) = contextual st
              /\ stringSet (f st) = stringSet st
              /\ (inEmbedTypes F = false -> embedTypesUnique (f st) = embedTypesUnique st)
              /\ (inFontfaces F = false -> fontfaces (f st) = fontfaces st)
              /\ (inSpecificity F = false ->
                  maxSpecificity (f st) = maxSpecificity st
                  /\ minSpecificity (f st) = minSpecificity st
                  /\ specificities (f st) = specificities st)) ->
  touches F (modify f).
Proof.
  intros Hf st x st' H. apply modify_inr in H as ->.
  destruct (Hf st) as (Hn & Hc & Ha & Hx & Hs & He & Hff & Hsp).
  constructor; intros; try congruence; auto.
Qed.

Ltac touches_step :=
  first
    [ apply touches_ret
    | apply touches_throw
    | apply touches_add; reflexivity
    | apply touches_push; reflexivity
    | apply touches_pushSample; reflexivity
    | apply touches_pushContext; reflexivity
    | apply touches_addToSet; reflexivity
    | apply touches_when
    | apply touches_forEach; intros ?
    | apply touches_walk; intros ? ?
    | apply touches_bind; [|intros ?]
    | apply touches_modify; intros ?;
      repeat match goal with
             | |- context [match ?o with _ => _ end] => destruct o
             end;
      fields; repeat split; (reflexivity || discriminate)
    | match goal with
      | |- touches _ (if ?c then _ else _) => destruct c
      | |- touches _ (match ?o with _ => _ end) => destruct o
      end ].

Ltac touches := repeat touches_step.

Section Footprints.

Variable I : Imports.
Variable css : string.

Lemma visitValue_touches (property : string) (ctx : Context) (node : CssNode) :
  touches colorFootprint (visitValue I css property ctx node).
Proof. unfold visitValue. touches. Qed.

Lemma colorFootprint_valueFootprint (st st' : AnalysisState) :
  within colorFootprint st st' -> within valueFootprint st st'.
Proof.
  intros H. constructor; intros; try (apply H; assumption).
  apply H. destruct c; try reflexivity; discriminate.
Qed.

(** The walk over one value stays within the footprint of the color walk. *)
Lemma colorWalk_touches (property : string) (node : CssNode) :
  touches valueFootprint (walk (visitValue I css property) node).
Proof.
  intros st x st' H. apply colorFootprint_valueFootprint.
  revert H. apply touches_walk. intros ctx n. apply visitValue_touches.
Qed.

(** The callback stays within the footprint of the kind of the node. *)
Lemma visit_within (ctx : Context) (node : CssNode)
    (st : AnalysisState) (sig : Signal) (st' : AnalysisState) :
  visit I css ctx node st = inr (sig, st') ->
  within (footprintOf node) st st'.
Proof.
  revert st sig st'. change (touches (footprintOf node) (visit I css ctx node)).
  destruct node; cbn [visit footprintOf]; try apply touches_ret.
  - unfold visitAtrule. touches.
  - unfold visitRule. touches.
  - unfold visitSelector, incr. touches.
  - unfold visitDeclaration, incr. touches.
  - unfold visitValueNode, pushEach.
    repeat first [apply colorWalk_touches | touches_step].
  - unfold visitDimension. touches.
  - unfold visitUrl, incr. touches.
Qed.

(** X1.  The accumulators of one case of the callback are the only ones that
    the callback changes at a node of that kind, and at a node of a kind
    without a case it changes none; what it answers (go on, or skip the
    sub-nodes) depends on the node and on the context, never on the
    accumulators. *)
Theorem visit_footprint (ctx : Context) (node : CssNode)
    (st : AnalysisState) (sig : Signal) (st' : AnalysisState) :
  visit I css ctx node st = inr (sig, st') ->
  within (footprintOf node) st st' /\ sig = visitSignal I ctx node.
Proof.
  intros H. split.
  - exact (visit_within ctx node st sig st' H).
  - exact (visit_signal I css ctx node st sig st' H).
Qed.

End Footprints.

(* ------------------------------------------------------------------------- *)
(** ** Runs of calls *)

Lemma countCalls_cons (p : Context * CssNode -> bool) (call : Context * CssNode)
    (calls : list (Context * CssNode)) :
  countCalls p (call :: calls) = count1 (p call) + countCalls p calls.
Proof. unfold countCalls. cbn [filter]. now destruct (p call). Qed.

Section Runs.

Variable I : Imports.
Variable css : string.

(** A quantity to which every call adds its weight grows by the sum of the
    weights of a run. *)
Lemma runAll_sum (q : AnalysisState -> nat) (w : Context * CssNode -> nat) :
  (forall ctx node st sig st',
      visit I css ctx node st = inr (sig, st') -> q st' = q st + w (ctx, node)) ->
  forall calls st st',
    runAll (visit I css) calls st = inr (tt, st') ->
    q st' = q st + list_sum (map w calls).
Proof.
  intros Hstep. induction calls as [|[ctx node] calls IH]; intros st st' H;
    cbn [runAll map list_sum fold_right] in *.
  - apply ret_inr in H as [_ ->]. lia.
  - apply bind_inr in H as (sig & s & Hvisit & Hrest).
    apply Hstep in Hvisit. apply IH in Hrest. fold (list_sum (map w calls)). lia.
Qed.

Lemma runAll_count (q : AnalysisState -> nat) (p : Context * CssNode -> bool) :
  (forall ctx node st sig st',
      visit I css ctx node st = inr (sig, st') -> q st' = q st + count1 (p (ctx, node))) ->
  forall calls st st',
    runAll (visit I css) calls st = inr (tt, st') ->
    q st' = q st + countCalls p calls.
Proof.
  intros Hstep calls st st' H.
  rewrite (runAll_sum q (fun call => count1 (p call)) Hstep calls st st' H).
  f_equal. clear H. induction calls as [|call calls IH]; [reflexivity|].
  rewrite countCalls_cons, <- IH. reflexivity.
Qed.

(** A list to which every call appends its items grows by the items of a
    run, in order. *)
Lemma runAll_append {T : Type} (q : AnalysisState -> list T)
    (w : Context * CssNode -> list T) :
  (forall ctx node st sig st',
      visit I css ctx node st = inr (sig, st') -> q st' = q st ++ w (ctx, node)) ->
  forall calls st st',
    runAll (visit I css) calls st = inr (tt, st') ->
    q st' = q st ++ flat_map w calls.
Proof.
  intros Hstep. induction calls as [|[ctx node] calls IH]; intros st st' H;
    cbn [runAll flat_map] in *.
  - apply ret_inr in H as [_ ->]. now rewrite app_nil_r.
  - apply bind_inr in H as (sig & s & Hvisit & Hrest).
    apply Hstep in Hvisit. apply IH in Hrest. now rewrite Hrest, Hvisit, app_assoc.
Qed.

(** When [analyze] returns, the walk has run the callback on the calls of
    [visits], starting with the accumulators as the comments left them. *)
Lemma analysis_run (st : AnalysisState) :
  analysis I css = inr st ->
  runAll (visit I css) (visits I (fst (parse I css)))
    (fold_left onComment (snd (parse I css)) initialState) = inr (tt, st).
Proof.
  unfold analysis, walk. intros H.
  destruct (bind (walkNode (visit I css) rootContext (fst (parse I css)))
              (fun _ => ret tt) (fold_left onComment (snd (parse I css)) initialState))
    as [e|[[] s]] eqn:Hwalk; [discriminate|].
  injection H as ->.
  apply bind_inr in Hwalk as (stop & s & Hwalk & Hret).
  apply ret_inr in Hret as [_ ->].
  exact (walkNode_runAll _ (visitSignal I) (visit_signal I css) _ _ _ _ _ Hwalk).
Qed.

End Runs.

(** The accumulators that a case does not own are as they were. *)
Ltac unchanged F :=
  repeat first
    [ rewrite (within_number _ _ _ F) by reflexivity
    | rewrite (within_counter _ _ _ F) by reflexivity
    | rewrite (within_aggregator _ _ _ F) by reflexivity
    | rewrite (within_contextual _ _ _ F) by reflexivity
    | rewrite (within_stringSet _ _ _ F) by reflexivity
    | rewrite (within_embedTypes _ _ _ F) by reflexivity
    | rewrite (within_fontfaces _ _ _ F) by reflexivity ].

(* ------------------------------------------------------------------------- *)
(** ** Rules *)

Section Rules.

Variable I : Imports.
Variable css : string.

Lemma rule_step (ctx : Context) (node : CssNode)
    (st : AnalysisState) (sig : Signal) (st' : AnalysisState) :
  visit I css ctx node st = inr (sig, st') ->
  let sample (f : CssNode -> CssNode -> nat) := ruleSamples f [(ctx, node)] in
  number st' totalRules = number st totalRules + count1 (isRuleCall (ctx, node))
  /\ number st' emptyRules = number st emptyRules + count1 (isEmptyRule (ctx, node))
  /\ aggregator st' selectorsPerRule
     = aggregator st selectorsPerRule ++ sample (fun p _ => childCount p)
  /\ aggregator st' declarationsPerRule
     = aggregator st declarationsPerRule ++ sample (fun _ b => childCount b)
  /\ aggregator st' ruleSizes
     = aggregator st ruleSizes ++ sample (fun p b => childCount p + childCount b).
Proof.
  intros H. pose proof (visit_within I css ctx node st sig st' H) as F.
  destruct node; cbn [footprintOf] in F;
    cbn [ruleSamples flat_map isRuleCall isEmptyRule snd app count1];
    try (unchanged F; rewrite ?app_nil_r; repeat split; lia).
  clear F. cbn [visit] in H. unfold visitRule in H. cbv zeta in H.
  fold (childCount node1) (childCount node2) in H.
  exec H; fields; unfold AggregateCollection.push;
    repeat match goal with E : _ = _ |- _ => rewrite E end;
    cbn [count1]; repeat split; lia.
Qed.

Variable now : nat -> Z.

(** X2.  [rules.total] is the number of rules visited and [rules.empty.total]
    the number of those whose block has no children; the items of
    [rules.selectors], [rules.declarations] and [rules.sizes] hold, rule by
    rule in the order of the walk, the number of children of the prelude
    (0 for a prelude without a child list), the number of children of the
    block, and their sum. *)
Theorem rules_report (r : JsValue) :
  analyze I css now = inr r ->
  let calls := visits I (fst (parse I css)) in
  get ["rules"; "total"] r = Some (num (countCalls isRuleCall calls))
  /\ get ["rules"; "empty"; "total"] r = Some (num (countCalls isEmptyRule calls))
  /\ get ["rules"; "selectors"; "items"] r
     = Some (VArr (map numZ (ruleSamples (fun p _ => childCount p) calls)))
  /\ get ["rules"; "declarations"; "items"] r
     = Some (VArr (map numZ (ruleSamples (fun _ b => childCount b) calls)))
  /\ get ["rules"; "sizes"; "items"] r
     = Some (VArr (map numZ (ruleSamples (fun p b => childCount p + childCount b) calls))).
Proof.
  intros H calls. unfold analyze in H.
  destruct (analysis I css) as [e|st] eqn:Hst; [discriminate|].
  injection H as <-.
  apply analysis_run in Hst. fold calls in Hst.
  destruct (comments_state (snd (parse I css)))
    as (_ & Ha & _ & _ & _ & _ & _ & _ & _ & Hn).
  pose proof (runAll_count I css (fun s => number s totalRules) isRuleCall
                (fun c n s sg s' E => proj1 (rule_step c n s sg s' E)) _ _ _ Hst) as H1.
  pose proof (runAll_count I css (fun s => number s emptyRules) isEmptyRule
                (fun c n s sg s' E => proj1 (proj2 (rule_step c n s sg s' E))) _ _ _ Hst)
    as H2.
  pose proof (runAll_append I css (fun s => aggregator s selectorsPerRule)
                (fun call => ruleSamples (fun p _ => childCount p) [call])
                (fun c n s sg s' E => proj1 (proj2 (proj2 (rule_step c n s sg s' E))))
                _ _ _ Hst) as H3.
  pose proof (runAll_append I css (fun s => aggregator s declarationsPerRule)
                (fun call => ruleSamples (fun _ b => childCount b) [call])
                (fun c n s sg s' E =>
                   proj1 (proj2 (proj2 (proj2 (rule_step c n s sg s' E)))))
                _ _ _ Hst) as H4.
  pose proof (runAll_append I css (fun s => aggregator s ruleSizes)
                (fun call => ruleSamples (fun p b => childCount p + childCount b) [call])
                (fun c n s sg s' E =>
                   proj2 (proj2 (proj2 (proj2 (rule_step c n s sg s' E)))))
                _ _ _ Hst) as H5.
  cbv beta in *. rewrite Ha in H3, H4, H5. rewrite Hn in H1, H2 by discriminate.
  cbn [initialState aggregator app Nat.add] in *.
  assert (Hflat : forall f l,
    flat_map (fun call : Context * CssNode => ruleSamples f [call]) l
    = ruleSamples f l).
  { intros f. induction l as [|call l IH]; [reflexivity|].
    cbn [flat_map]. rewrite IH. unfold ruleSamples. cbn [flat_map].
    now rewrite app_nil_r. }
  repeat split.
  - cbn. now rewrite H1.
  - cbn. now rewrite H2.
  - transitivity (Some (itemsOf st selectorsPerRule)); [reflexivity|].
    unfold itemsOf, AggregateCollection.toArray. rewrite H3. do 3 f_equal.
    apply Hflat.
  - transitivity (Some (itemsOf st declarationsPerRule)); [reflexivity|].
    unfold itemsOf, AggregateCollection.toArray. rewrite H4. do 3 f_equal.
    apply Hflat.
  - transitivity (Some (itemsOf st ruleSizes)); [reflexivity|].
    unfold itemsOf, AggregateCollection.toArray. rewrite H5. do 3 f_equal.
    apply Hflat.
Qed.

End Rules.

(* ------------------------------------------------------------------------- *)
(** ** From the calls of the walk to the accumulators at its end *)

Section AnalysisRuns.

Variable I : Imports.
Variable css : string.

Lemma analysis_count (q : AnalysisState -> nat) (p : Context * CssNode -> bool) :
  (forall ctx node st sig st',
      visit I css ctx node st = inr (sig, st') -> q st' = q st + count1 (p (ctx, node))) ->
  forall st,
    analysis I css = inr st ->
    q st = q (afterComments I css) + countCalls p (visits I (fst (parse I css))).
Proof. intros Hstep st H. apply (runAll_count I css q p Hstep), analysis_run, H. Qed.

Lemma analysis_sum (q : AnalysisState -> nat) (w : Context * CssNode -> nat) :
  (forall ctx node st sig st',
      visit I css ctx node st = inr (sig, st') -> q st' = q st + w (ctx, node)) ->
  forall st,
    analysis I css = inr st ->
    q st = q (afterComments I css) + list_sum (map w (visits I (fst (parse I css)))).
Proof. intros Hstep st H. apply (runAll_sum I css q w Hstep), analysis_run, H. Qed.

Lemma analysis_invariant (P : AnalysisState -> Prop) :
  (forall ctx node st sig st',
      P st -> visit I css ctx node st = inr (sig, st') -> P st') ->
  P (afterComments I css) ->
  forall st, analysis I css = inr st -> P st.
Proof.
  intros Hstep H0 st H. apply analysis_run in H.
  eapply (runAll_invariant (visit I css) P); [|exact H0|exact H].
  intros ctx node s sig s' _. apply Hstep.
Qed.

(** The walk starts with every counter, aggregator, set and context counter
    empty and with every number but the two of the comments at 0. *)
Lemma start_state :
  counter (afterComments I css) = (fun _ => CountableCollection.empty)
  /\ aggregator (afterComments I css) = (fun _ => AggregateCollection.empty)
  /\ stringSet (afterComments I css) = (fun _ => [])
  /\ contextual (afterComments I css) = (fun _ => ContextCollection.empty)
  /\ embedTypesUnique (afterComments I css) = []
  /\ fontfaces (afterComments I css) = []
  /\ (forall v, v <> totalComments -> v <> commentsSize ->
                number (afterComments I css) v = 0).
Proof.
  destruct (comments_state (snd (parse I css)))
    as (Hc & Ha & Hs & Hx & He & Hf & _ & _ & _ & Hn).
  repeat split; assumption.
Qed.

End AnalysisRuns.

Lemma AggregateCollection_sum_push (c : AggregateCollection.t) (value : Z) :
  AggregateCollection.sum (AggregateCollection.push value c)
  = (AggregateCollection.sum c + value)%Z.
Proof.
  unfold AggregateCollection.sum, AggregateCollection.push.
  now rewrite fold_left_app.
Qed.

Lemma AggregateCollection_size_push (c : AggregateCollection.t) (value : Z) :
  AggregateCollection.size (AggregateCollection.push value c)
  = S (AggregateCollection.size c).
Proof.
  unfold AggregateCollection.size, AggregateCollection.push.
  rewrite length_app. cbn. lia.
Qed.

(* ------------------------------------------------------------------------- *)
(** ** Declarations and properties *)

Section Declarations.

Variable I : Imports.
Variable css : string.

Lemma importants_step (ctx : Context) (node : CssNode)
    (st : AnalysisState) (sig : Signal) (st' : AnalysisState) :
  visit I css ctx node st = inr (sig, st') ->
  number st' importantDeclarations
  = number st importantDeclarations + count1 (isImportantDeclaration (ctx, node))
  /\ number st' importantsInKeyframes
     = number st importantsInKeyframes + count1 (isImportantInKeyframes (ctx, node)).
Proof.
  intros H. pose proof (visit_within I css ctx node st sig st' H) as F.
  destruct node; cbn [footprintOf] in F;
    unfold isImportantInKeyframes, isImportantDeclaration, isCountedDeclaration;
    cbn [snd fst andb count1];
    try (unchanged F; split; lia).
  clear F. cbn [visit] in H. unfold visitDeclaration in H.
  exec H; fields;
    repeat match goal with E : _ = _ |- _ => rewrite E end;
    cbn [andb count1]; split; lia.
Qed.

Lemma properties_step (ctx : Context) (node : CssNode)
    (st : AnalysisState) (sig : Signal) (st' : AnalysisState) :
  propertiesConsistent st ->
  visit I css ctx node st = inr (sig, st') -> propertiesConsistent st'.
Proof.
  intros P H. pose proof (visit_within I css ctx node st sig st' H) as F.
  unfold propertiesConsistent in *.
  destruct node; cbn [footprintOf] in F; try (unchanged F; exact P).
  clear F. cbn [visit] in H. unfold visitDeclaration in H.
  destruct P as (P1 & P2 & P3 & P4).
  exec H; fields;
    rewrite ?AggregateCollection_sum_push, ?AggregateCollection_size_push,
      ?CountableCollection_size_push;
    repeat split; lia.
Qed.

Variable now : nat -> Z.

(** X3.  [declarations.importants.total] is the number of declarations visited
    outside at-rule preludes whose [important] is [true]; a declaration whose
    [important] is a string, as with [!ie], is not among them.
    [importants.inKeyframes.total] is the number of those that lie in an
    at-rule whose name ends in [keyframes]. *)
Theorem importants_report (r : JsValue) :
  analyze I css now = inr r ->
  let calls := visits I (fst (parse I css)) in
  get ["declarations"; "importants"; "total"] r
  = Some (num (countCalls isImportantDeclaration calls))
  /\ get ["declarations"; "importants"; "inKeyframes"; "total"] r
     = Some (num (countCalls isImportantInKeyframes calls)).
Proof.
  intros H calls. unfold analyze in H.
  destruct (analysis I css) as [e|st] eqn:Hst; [discriminate|].
  injection H as <-.
  destruct (start_state I css) as (_ & _ & _ & _ & _ & _ & Hn).
  pose proof (analysis_count I css (fun s => number s importantDeclarations) _
                (fun c n s sg s' E => proj1 (importants_step c n s sg s' E)) st Hst) as H1.
  pose proof (analysis_count I css (fun s => number s importantsInKeyframes) _
                (fun c n s sg s' E => proj2 (importants_step c n s sg s' E)) st Hst) as H2.
  cbv beta in H1, H2. rewrite Hn in H1, H2 by discriminate.
  split; cbn; [now rewrite H1 | now rewrite H2].
Qed.

(** X4.  Every counted declaration is one property and one complexity sample:
    [properties.total] and [properties.complexity.count] equal
    [declarations.total].  The sample is 2 for a declaration that is pushed
    to exactly one of [properties.prefixed], [properties.browserhacks] and
    [properties.custom], and 1 otherwise, so [properties.complexity.sum] is
    [declarations.total] plus the totals of these three, which together do
    not exceed [declarations.total]. *)
Theorem properties_report (r : JsValue) :
  analyze I css now = inr r ->
  exists total prefixed hacks custom,
    get ["declarations"; "total"] r = Some (num total)
    /\ get ["properties"; "total"] r = Some (num total)
    /\ get ["properties"; "complexity"; "count"] r = Some (num total)
    /\ get ["properties"; "prefixed"; "total"] r = Some (num prefixed)
    /\ get ["properties"; "browserhacks"; "total"] r = Some (num hacks)
    /\ get ["properties"; "custom"; "total"] r = Some (num custom)
    /\ get ["properties"; "complexity"; "sum"] r
       = Some (numZ (Z.of_nat (total + prefixed + hacks + custom)))
    /\ prefixed + hacks + custom <= total.
Proof.
  intros H. unfold analyze in H.
  destruct (analysis I css) as [e|st] eqn:Hst; [discriminate|].
  injection H as <-.
  destruct (start_state I css) as (Hc & Ha & _ & _ & _ & _ & Hn).
  assert (P : propertiesConsistent st).
  { apply (analysis_invariant I css propertiesConsistent); [|  |exact Hst].
    - intros ctx node s sig s' Ps Hv. eapply properties_step; eauto.
    - unfold propertiesConsistent. rewrite Hc, Ha, Hn by discriminate.
      cbn. repeat split; lia. }
  destruct P as (P1 & P2 & P3 & P4).
  exists (number st totalDeclarations),
    (CountableCollection.size (counter st propertyVendorPrefixes)),
    (CountableCollection.size (counter st propertyHacks)),
    (CountableCollection.size (counter st customProperties)).
  repeat split; try assumption; cbn; rewrite ?P1, ?P2, ?P3; reflexivity.
Qed.

End Declarations.

(* ------------------------------------------------------------------------- *)
(** ** Embedded content, comments and units *)



Section Embeds.

Variable I : Imports.
Variable css : string.


(** The walk leaves the two numbers of the comments as they were. *)
Lemma comments_step (ctx : Context) (node : CssNode)
    (st : AnalysisState) (sig : Signal) (st' : AnalysisState) :
  visit I css ctx node st = inr (sig, st') ->
  number st' totalComments = number st totalComments
  /\ number st' commentsSize = number st commentsSize.
Proof.
  intros H. pose proof (visit_within I css ctx node st sig st' H) as F.
  destruct node; cbn [footprintOf] in F; unchanged F; split; reflexivity.
Qed.

Lemma onComment_counts (comments : list string) (st : AnalysisState) :
  number (fold_left onComment comments st) totalComments
  = number st totalComments + List.length comments
  /\ number (fold_left onComment comments st) commentsSize
     = number st commentsSize + list_sum (map String.length comments).
Proof.
  revert st. induction comments as [|c l IH]; intros st;
    cbn [fold_left List.length map list_sum fold_right].
  - split; lia.
  - destruct (IH (onComment st c)) as [-> ->]. unfold onComment. fields.
    fold (list_sum (map String.length l)). split; lia.
Qed.

Lemma units_step (ctx : Context) (node : CssNode)
    (st : AnalysisState) (sig : Signal) (st' : AnalysisState) :
  visit I css ctx node st = inr (sig, st') ->
  ContextCollection.size (contextual st' units)
  = ContextCollection.size (contextual st units) + count1 (isUnitDimension (ctx, node)).
Proof.
  intros H. pose proof (visit_within I css ctx node st sig st' H) as F.
  destruct node; cbn [footprintOf] in F;
    unfold isUnitDimension; cbn [snd fst count1];
    try (unchanged F; lia).
  clear F. cbn [visit] in H. unfold visitDimension in H.
  exec H; fields; rewrite ?ContextCollection_size_push; cbn [count1]; lia.
Qed.

Variable now : nat -> Z.


(** X6.  [stylesheet.comments.total] is the number of comments that the parser
    reported and [stylesheet.comments.size] the sum of their lengths; the
    walk of the tree changes neither. *)
Theorem comments_report (r : JsValue) :
  analyze I css now = inr r ->
  let comments := snd (parse I css) in
  get ["stylesheet"; "comments"; "total"] r = Some (num (List.length comments))
  /\ get ["stylesheet"; "comments"; "size"] r
     = Some (num (list_sum (map String.length comments))).
Proof.
  intros H comments. unfold analyze in H.
  destruct (analysis I css) as [e|st] eqn:Hst; [discriminate|].
  injection H as <-.
  pose proof (analysis_invariant I css
    (fun s => number s totalComments = List.length comments
              /\ number s commentsSize = list_sum (map String.length comments))) as Hinv.
  destruct (Hinv) with (st := st) as [H1 H2]; [| |exact Hst|].
  - intros c n s sg s' [Hs1 Hs2] E.
    destruct (comments_step c n s sg s' E) as [-> ->]. now split.
  - exact (onComment_counts (snd (parse I css)) initialState).
  - split; cbn; [now rewrite H1 | now rewrite H2].
Qed.

(** X7.  [values.units.total] is the number of [Dimension] nodes visited
    inside a declaration; a dimension outside every declaration, as in a
    media query, is not recorded. *)
Theorem units_report (r : JsValue) :
  analyze I css now = inr r ->
  get ["values"; "units"; "total"] r
  = Some (num (countCalls isUnitDimension (visits I (fst (parse I css))))).
Proof.
  intros H. unfold analyze in H.
  destruct (analysis I css) as [e|st] eqn:Hst; [discriminate|].
  injection H as <-.
  destruct (start_state I css) as (_ & _ & _ & Hx & _).
  pose proof (analysis_count I css
    (fun s => ContextCollection.size (contextual s units)) _ units_step st Hst) as H1.
  cbv beta in H1. rewrite Hx in H1. cbn in H1. cbn. now rewrite H1.
Qed.

End Embeds.

(* ------------------------------------------------------------------------- *)
(** ** Colors *)

Section Respects.

Variable R : AnalysisState -> AnalysisState -> Prop.
Hypothesis R_refl : forall st, R st st.
Hypothesis R_trans : forall st1 st2 st3, R st1 st2 -> R st2 st3 -> R st1 st3.

Lemma respects_ret {X : Type} (x : X) : respects R (ret x).
Proof. intros st y st' H. apply ret_inr in H as [_ ->]. apply R_refl. Qed.

Lemma respects_throw {X : Type} (e : Exn) : respects R (@throw AnalysisState X e).
Proof. intros st y st' H. discriminate. Qed.

Lemma respects_bind {X Y : Type} (m : A X) (f : X -> A Y) :
  respects R m -> (forall x, respects R (f x)) -> respects R (bind m f).
Proof.
  intros Hm Hf st y st'' H. apply bind_inr in H as (x & st' & H1 & H2).
  eapply R_trans; [eapply Hm | eapply Hf]; eauto.
Qed.

Lemma respects_when (c : bool) (m : A unit) : respects R m -> respects R (when c m).
Proof. destruct c; [auto | intros _; apply respects_ret]. Qed.

Lemma respects_forEach {X : Type} (f : X -> A unit) (l : list X) :
  (forall x, respects R (f x)) -> respects R (forEach f l).
Proof.
  intros Hf. induction l as [|x l IH]; cbn [forEach].
  - apply respects_ret.
  - apply respects_bind; auto.
Qed.

Lemma respects_walk (enter : Context -> CssNode -> A Signal) (node : CssNode) :
  (forall ctx n, respects R (enter ctx n)) -> respects R (walk enter node).
Proof.
  intros Henter st x st' H. unfold walk in H.
  apply bind_inr in H as (stop & st1 & Hwalk & Hret).
  apply ret_inr in Hret as [_ ->].
  eapply (walkNode_invariant enter (R st)); [|apply R_refl|exact Hwalk].
  intros ctx n s sig s' Hs Hstep. eapply R_trans; eauto. eapply Henter; eauto.
Qed.

End Respects.

Lemma colorsInStep_refl (st : AnalysisState) : colorsInStep st st.
Proof. unfold colorsInStep. lia. Qed.

Lemma colorsInStep_trans (st1 st2 st3 : AnalysisState) :
  colorsInStep st1 st2 -> colorsInStep st2 st3 -> colorsInStep st1 st3.
Proof. unfold colorsInStep. lia. Qed.

(** A color and its format are pushed together. *)
Lemma colorsInStep_pair {X : Type} (item context format : string) (x : X) :
  respects colorsInStep
    (pushContext colors item context ;; push colorFormats format ;; ret x).
Proof.
  intros st y st' H. exec H. unfold colorsInStep. fields.
  rewrite ContextCollection_size_push, CountableCollection_size_push. lia.
Qed.

Lemma colorsInStep_push (c : Counter) (key : string) :
  Counter_beq c colorFormats = false -> respects colorsInStep (push c key).
Proof.
  intros Hc st y st' H. exec H. unfold colorsInStep. fields.
  unfold update. rewrite Hc. lia.
Qed.

Ltac colorsInStep :=
  repeat first
    [ apply colorsInStep_pair
    | apply (respects_ret _ colorsInStep_refl)
    | apply respects_throw
    | apply colorsInStep_push; reflexivity
    | apply (respects_when _ colorsInStep_refl)
    | apply (respects_forEach _ colorsInStep_refl colorsInStep_trans); intros ?
    | apply (respects_walk _ colorsInStep_refl colorsInStep_trans); intros ? ?
    | apply (respects_bind _ colorsInStep_trans); [|intros ?]
    | match goal with
      | |- respects _ (if ?c then _ else _) => destruct c
      | |- respects _ (match ?o with _ => _ end) => destruct o
      end ].

Section Colors.

Variable I : Imports.
Variable css : string.

Lemma visitValue_colorsInStep (property : string) (ctx : Context) (node : CssNode) :
  respects colorsInStep (visitValue I css property ctx node).
Proof. unfold visitValue. colorsInStep. Qed.

Lemma visitValueNode_colorsInStep (ctx : Context) (node : CssNode)
    (children : list CssNode) :
  respects colorsInStep (visitValueNode I css ctx node children).
Proof.
  unfold visitValueNode, pushEach. colorsInStep; apply visitValue_colorsInStep.
Qed.

Lemma colors_step (ctx : Context) (node : CssNode)
    (st : AnalysisState) (sig : Signal) (st' : AnalysisState) :
  visit I css ctx node st = inr (sig, st') -> colorsInStep st st'.
Proof.
  intros H. pose proof (visit_within I css ctx node st sig st' H) as F.
  unfold colorsInStep.
  destruct node; cbn [footprintOf] in F; try (unchanged F; lia).
  clear F. cbn [visit] in H. exact (visitValueNode_colorsInStep _ _ _ _ _ _ H).
Qed.

Variable now : nat -> Z.

(** X8.  Every color is recorded together with its format: [values.colors.total]
    equals [values.colors.formats.total]. *)
Theorem colors_report (r : JsValue) :
  analyze I css now = inr r ->
  exists total,
    get ["values"; "colors"; "total"] r = Some (num total)
    /\ get ["values"; "colors"; "formats"; "total"] r = Some (num total).
Proof.
  intros H. unfold analyze in H.
  destruct (analysis I css) as [e|st] eqn:Hst; [discriminate|].
  injection H as <-.
  destruct (start_state I css) as (Hc & _ & _ & Hx & _).
  assert (P : ContextCollection.size (contextual st colors)
              = CountableCollection.size (counter st colorFormats)).
  { apply (analysis_invariant I css
             (fun s => ContextCollection.size (contextual s colors)
                       = CountableCollection.size (counter s colorFormats)));
      [| |exact Hst].
    - intros c n s sg s' Hs E. apply colors_step in E. unfold colorsInStep in E. lia.
    - now rewrite Hc, Hx. }
  exists (ContextCollection.size (contextual st colors)).
  split; [reflexivity|]. rewrite P. reflexivity.
Qed.

End Colors.

(* ------------------------------------------------------------------------- *)
(** ** At-rules *)

Lemma forEach_push (c : Counter) (f : string -> string) (l : list string)
    (st : AnalysisState) (u : unit) (st' : AnalysisState) :
  forEach (fun x => push c (f x)) l st = inr (u, st') ->
  CountableCollection.size (counter st' c)
  = CountableCollection.size (counter st c) + List.length l
  /\ (forall c', Counter_beq c c' = false -> counter st' c' = counter st c')
  /\ number st' = number st
  /\ fontfaces st' = fontfaces st.
Proof.
  revert st. induction l as [|x l IH]; intros st H; cbn [forEach List.length] in H |- *.
  - apply ret_inr in H as [_ ->]. repeat split; auto; lia.
  - apply bind_inr in H as ([] & s & H1 & H2). exec H1.
    destruct (IH _ H2) as (E1 & E2 & E3 & E4). fields_in E1. fields_in E3. fields_in E4.
    repeat split; auto.
    + rewrite E1. unfold update. rewrite internal_Counter_dec_lb by reflexivity.
      rewrite CountableCollection_size_push. lia.
    + intros c' Hc'. rewrite (E2 c' Hc'). fields. unfold update. now rewrite Hc'.
Qed.

Section Atrules.

Variable I : Imports.
Variable css : string.

Lemma atrules_step (ctx : Context) (node : CssNode)
    (st : AnalysisState) (sig : Signal) (st' : AnalysisState) :
  visit I css ctx node st = inr (sig, st') ->
  sizeOf st' medias = sizeOf st medias + count1 (isAtruleCalled "media" (ctx, node))
  /\ sizeOf st' supports = sizeOf st supports + count1 (isAtruleCalled "supports" (ctx, node))
  /\ sizeOf st' keyframes
     = sizeOf st keyframes
       + count1 (isAtruleNamed (StringUtils.endsWith "keyframes") (ctx, node))
  /\ sizeOf st' imports = sizeOf st imports + count1 (isAtruleCalled "import" (ctx, node))
  /\ sizeOf st' charsets = sizeOf st charsets + count1 (isAtruleCalled "charset" (ctx, node))
  /\ sizeOf st' containers = sizeOf st containers + count1 (isAtruleCalled "container" (ctx, node))
  /\ sizeOf st' layers = sizeOf st layers + layerNames css (ctx, node)
  /\ (sizeOf st mediaBrowserhacks <= sizeOf st medias ->
      sizeOf st' mediaBrowserhacks <= sizeOf st' medias)
  /\ (sizeOf st supportsBrowserhacks <= sizeOf st supports ->
      sizeOf st' supportsBrowserhacks <= sizeOf st' supports)
  /\ (sizeOf st prefixedKeyframes <= sizeOf st keyframes ->
      sizeOf st' prefixedKeyframes <= sizeOf st' keyframes).
Proof.
  intros H. pose proof (visit_within I css ctx node st sig st' H) as F.
  unfold isAtruleCalled, sizeOf, isAtruleNamed, layerNames.
  destruct node; cbn [footprintOf] in F; cbn [snd count1];
    try (unchanged F; repeat split; auto; lia).
  clear F. cbn [visit] in H. unfold visitAtrule in H. cbv zeta in H.
  exec H;
    repeat match goal with
           | E : forEach _ _ _ = inr _ |- _ =>
               apply forEach_push in E; destruct E as (?E & ?E & ?E & ?E)
           end;
    fields;
    repeat match goal with
           | E : String.eqb _ _ = true |- _ => apply String.eqb_eq in E; subst
           end;
    repeat match goal with
           | |- context [String.eqb ?a ?b] =>
               destruct (String.eqb_spec a b); subst
           end;
    repeat match goal with
           | E : StringUtils.endsWith _ _ = _ |- _ =>
               first [ discriminate E
                     | vm_compute in E; discriminate E
                     | rewrite E ]
           end;
    try congruence;
    try (vm_compute StringUtils.endsWith);
    cbn [count1];
    repeat match goal with
           | E : forall c', Counter_beq layers c' = false -> _ |- _ =>
               rewrite ?(E medias), ?(E mediaBrowserhacks), ?(E supports),
                 ?(E supportsBrowserhacks), ?(E keyframes), ?(E imports),
                 ?(E prefixedKeyframes),
                 ?(E charsets), ?(E containers) by reflexivity;
               clear E
           | E : CountableCollection.size (counter _ layers) = _ |- _ => rewrite E; clear E
           end;
    fields; rewrite ?CountableCollection_size_push;
    try match goal with |- context [match ?p with Some _ => _ | None => _ end] =>
      destruct p end;
    repeat split; intros; try lia.
Qed.

Variable now : nat -> Z.

(** X9.  The totals of the at-rule sections count the at-rules the walk
    visits by name: [media], [supports], [import], [charset] and [container]
    by equality, [keyframes] by a name that ends in [keyframes].  A [layer]
    at-rule adds one to [layer.total] for every comma-separated part of its
    prelude.  The browser hacks of [media] and [supports], and the prefixed
    keyframes, are never more than the at-rules of their section. *)
Theorem atrules_report (r : JsValue) :
  analyze I css now = inr r ->
  let calls := visits I (fst (parse I css)) in
  get ["atrules"; "media"; "total"] r = Some (num (countCalls (isAtruleCalled "media") calls))
  /\ get ["atrules"; "supports"; "total"] r
     = Some (num (countCalls (isAtruleCalled "supports") calls))
  /\ get ["atrules"; "keyframes"; "total"] r
     = Some (num (countCalls (isAtruleNamed (StringUtils.endsWith "keyframes")) calls))
  /\ get ["atrules"; "import"; "total"] r = Some (num (countCalls (isAtruleCalled "import") calls))
  /\ get ["atrules"; "charset"; "total"] r
     = Some (num (countCalls (isAtruleCalled "charset") calls))
  /\ get ["atrules"; "container"; "total"] r
     = Some (num (countCalls (isAtruleCalled "container") calls))
  /\ get ["atrules"; "layer"; "total"] r
     = Some (num (list_sum (map (layerNames css) calls)))
  /\ exists mediaHacks supportsHacks prefixed,
       get ["atrules"; "media"; "browserhacks"; "total"] r = Some (num mediaHacks)
       /\ get ["atrules"; "supports"; "browserhacks"; "total"] r = Some (num supportsHacks)
       /\ get ["atrules"; "keyframes"; "prefixed"; "total"] r = Some (num prefixed)
       /\ mediaHacks <= countCalls (isAtruleCalled "media") calls
       /\ supportsHacks <= countCalls (isAtruleCalled "supports") calls
       /\ prefixed
          <= countCalls (isAtruleNamed (StringUtils.endsWith "keyframes")) calls.
Proof.
  intros H calls. unfold analyze in H.
  destruct (analysis I css) as [e|st] eqn:Hst; [discriminate|].
  injection H as <-.
  destruct (start_state I css) as (Hc & _).
  pose proof (fun q p S => analysis_count I css q p S st Hst) as count.
  pose proof (count (fun s => sizeOf s medias) (isAtruleCalled "media")
                (fun c n s sg s' E => proj1 (atrules_step c n s sg s' E))) as H1.
  pose proof (count (fun s => sizeOf s supports) (isAtruleCalled "supports")
                (fun c n s sg s' E => proj1 (proj2 (atrules_step c n s sg s' E)))) as H2.
  pose proof (count (fun s => sizeOf s keyframes) _
                (fun c n s sg s' E =>
                   proj1 (proj2 (proj2 (atrules_step c n s sg s' E))))) as H3.
  pose proof (count (fun s => sizeOf s imports) (isAtruleCalled "import")
                (fun c n s sg s' E =>
                   proj1 (proj2 (proj2 (proj2 (atrules_step c n s sg s' E)))))) as H4.
  pose proof (count (fun s => sizeOf s charsets) (isAtruleCalled "charset")
                (fun c n s sg s' E =>
                   proj1 (proj2 (proj2 (proj2 (proj2 (atrules_step c n s sg s' E))))))) as H5.
  pose proof (count (fun s => sizeOf s containers) (isAtruleCalled "container")
                (fun c n s sg s' E =>
                   proj1 (proj2 (proj2 (proj2 (proj2 (proj2
                     (atrules_step c n s sg s' E)))))))) as H6.
  pose proof (analysis_sum I css (fun s => sizeOf s layers) (layerNames css)
                (fun c n s sg s' E =>
                   proj1 (proj2 (proj2 (proj2 (proj2 (proj2 (proj2
                     (atrules_step c n s sg s' E)))))))) st Hst) as H7.
  assert (P : sizeOf st mediaBrowserhacks <= sizeOf st medias
              /\ sizeOf st supportsBrowserhacks <= sizeOf st supports
              /\ sizeOf st prefixedKeyframes <= sizeOf st keyframes).
  { apply (analysis_invariant I css
             (fun s => sizeOf s mediaBrowserhacks <= sizeOf s medias
                       /\ sizeOf s supportsBrowserhacks <= sizeOf s supports
                       /\ sizeOf s prefixedKeyframes <= sizeOf s keyframes));
      [| |exact Hst].
    - intros ctx node s sig s' (P1 & P2 & P3) Hv.
      destruct (atrules_step ctx node s sig s' Hv)
        as (_ & _ & _ & _ & _ & _ & _ & S1 & S2 & S3).
      auto.
    - unfold sizeOf. rewrite Hc. cbn. lia. }
  clear count. cbv beta in *. unfold sizeOf in *. rewrite Hc in H1, H2, H3, H4, H5, H6, H7.
  cbn [CountableCollection.size CountableCollection.empty Nat.add] in *.
  fold calls in H1, H2, H3, H4, H5, H6, H7.
  destruct P as (P1 & P2 & P3).
  repeat match goal with |- _ /\ _ => split end;
    try (cbn; congruence).
  exists (CountableCollection.size (counter st mediaBrowserhacks)),
    (CountableCollection.size (counter st supportsBrowserhacks)),
    (CountableCollection.size (counter st prefixedKeyframes)).
  repeat match goal with |- _ /\ _ => split end; try reflexivity; lia.
Qed.

End Atrules.


(* ------------------------------------------------------------------------- *)
(** ** Selectors *)

Lemma trackerAmong_replaceMin (t : option Specificity) (l : list Specificity)
    (s : Specificity) :
  trackerAmong t l -> trackerAmong (replaceMin t s) (l ++ [s]).
Proof.
  unfold trackerAmong, replaceMin. destruct t as [x|]; intros H.
  - destruct (_ <? _)%Z; apply in_or_app; cbn; auto.
  - apply in_or_app; cbn; auto.
Qed.

Lemma trackerAmong_replaceMax (t : option Specificity) (l : list Specificity)
    (s : Specificity) :
  trackerAmong t l -> trackerAmong (replaceMax t s) (l ++ [s]).
Proof.
  unfold trackerAmong, replaceMax. destruct t as [x|]; intros H.
  - destruct (_ >? _)%Z; apply in_or_app; cbn; auto.
  - apply in_or_app; cbn; auto.
Qed.

Lemma withId_app (l : list Specificity) (s : Specificity) :
  List.length (withId (l ++ [s]))
  = List.length (withId l) + (if (0 <? specA s)%Z then 1 else 0).
Proof.
  unfold withId. rewrite filter_app, length_app. cbn [filter].
  destruct (0 <? specA s)%Z; reflexivity.
Qed.

Lemma AggregateCollection_sum_map {A : Type} (f : A -> Z) (l : list A) :
  AggregateCollection.sum (map f l) = fold_right (fun x acc => (f x + acc)%Z) 0%Z l.
Proof.
  unfold AggregateCollection.sum.
  assert (G : forall a, fold_left Z.add (map f l) a
                        = (a + fold_right (fun x acc => (f x + acc)%Z) 0%Z l)%Z).
  { induction l as [|x l IH]; intros a; cbn; [lia|]. rewrite IH. lia. }
  rewrite G. lia.
Qed.

Section Selectors.

Variable I : Imports.
Variable css : string.

Lemma selectors_step (ctx : Context) (node : CssNode)
    (st : AnalysisState) (sig : Signal) (st' : AnalysisState) :
  selectorsConsistent st ->
  visit I css ctx node st = inr (sig, st') ->
  selectorsConsistent st'.
Proof.
  intros P H. pose proof (visit_within I css ctx node st sig st' H) as F.
  unfold selectorsConsistent, sizeOf in *.
  destruct node; cbn [footprintOf] in F;
    try (destruct (within_specificity _ _ _ F eq_refl) as (E1 & E2 & E3);
         rewrite E1, E2, E3; unchanged F; exact P).
  clear F. cbn [visit] in H.
  destruct P as (P1 & P2 & P3 & P4 & P5 & P6 & P7 & P8 & P9 & P10).
  destruct (inKeyframes ctx) eqn:Hkf.
  - unfold visitSelector in H. rewrite Hkf in H. exec H; fields.
    repeat split; assumption.
  - destruct (visitSelector_plain I css ctx _ st sig st' Hkf H)
      as (Hs & Hmin & Hmax & Hcx & Ha & Hb & Hc & _ & _ & _ & _ & _ & Hu & Hi & Hy & Hp & _).
    rewrite Hs, Hmin, Hmax, Hcx, Ha, Hb, Hc, Hu, Hi, Hy, Hp.
    rewrite !map_app, withId_app, length_app. cbn [map List.length].
    unfold AggregateCollection.size in *. rewrite length_app. cbn [List.length].
    rewrite CountableCollection_size_push.
    repeat match goal with |- _ /\ _ => split end;
      try congruence; try lia;
      try (now apply trackerAmong_replaceMin);
      try (now apply trackerAmong_replaceMax);
      repeat match goal with
             | |- context [if ?b then _ else _] => destruct b
             end;
      rewrite ?CountableCollection_size_push; lia.
Qed.

Variable now : nat -> Z.

(** X10.  The report of the selectors is consistent with the list of
    specificities [selectors.specificity.items], which holds the specificity
    of every selector visited outside keyframes: [selectors.total] is its
    length, [specificity.sum] is the sum of its items by component,
    [id.total] is the number of its items with a positive first component,
    the accessibility and prefixed totals do not exceed its length, and
    [specificity.min] and [specificity.max] are items of it, or [0, 0, 0]
    when it is empty. *)
Theorem selectors_report (r : JsValue) :
  analyze I css now = inr r ->
  let items := specificitySamples I (fst (parse I css)) in
  let sumOf (f : Specificity -> Z) := fold_right (fun x acc => (f x + acc)%Z) 0%Z items in
  get ["selectors"; "specificity"; "items"] r = Some (VArr (map specificityValue items))
  /\ get ["selectors"; "total"] r = Some (num (List.length items))
  /\ get ["selectors"; "specificity"; "sum"] r
     = Some (VArr [numZ (sumOf specA); numZ (sumOf specB); numZ (sumOf specC)])
  /\ get ["selectors"; "id"; "total"] r = Some (num (List.length (withId items)))
  /\ (exists least greatest,
        get ["selectors"; "specificity"; "min"] r = Some (specificityValue least)
        /\ get ["selectors"; "specificity"; "max"] r = Some (specificityValue greatest)
        /\ (items = [] /\ least = (0, 0, 0)%Z /\ greatest = (0, 0, 0)%Z
            \/ In least items /\ In greatest items))
  /\ (exists accessibility prefixed,
        get ["selectors"; "accessibility"; "total"] r = Some (num accessibility)
        /\ get ["selectors"; "prefixed"; "total"] r = Some (num prefixed)
        /\ accessibility <= List.length items
        /\ prefixed <= List.length items).
Proof.
  intros H items sumOf. unfold analyze in H.
  destruct (analysis I css) as [e|st] eqn:Hst; [discriminate|].
  injection H as <-.
  destruct (start_state I css) as (Hc & Ha & _ & _ & _ & _ & Hn).
  destruct (analysis_facts I css st Hst) as (_ & _ & Hitems & _).
  fold items in Hitems.
  assert (P : selectorsConsistent st).
  { apply (analysis_invariant I css selectorsConsistent); [| |exact Hst].
    - intros ctx node s sig s' Ps Hv. eapply selectors_step; eauto.
    - unfold selectorsConsistent, sizeOf. rewrite Hc, Ha.
      destruct (comments_state (snd (parse I css)))
        as (_ & _ & _ & _ & _ & _ & Hs & Hmin & Hmax & _).
      unfold afterComments. rewrite Hs, Hmin, Hmax. cbn. repeat split; lia. }
  unfold selectorsConsistent, sizeOf in P. rewrite Hitems in P.
  destruct P as (P1 & P2 & P3 & P4 & P5 & P6 & P7 & P8 & P9 & P10).
  repeat match goal with |- _ /\ _ => split end.
  - cbn. now rewrite Hitems.
  - cbn. now rewrite P4.
  - cbn. rewrite P1, P2, P3, !AggregateCollection_sum_map. reflexivity.
  - cbn. unfold sizeOf. now rewrite P6.
  - unfold trackerAmong in P9, P10.
    destruct (minSpecificity st) as [least|] eqn:Emin;
      destruct (maxSpecificity st) as [greatest|] eqn:Emax.
    + exists least, greatest. cbn. rewrite Emin, Emax.
      split; [reflexivity|]. split; [reflexivity|]. right. split; assumption.
    + exists least, (0, 0, 0)%Z. rewrite P10 in P9. destruct P9.
    + exists (0, 0, 0)%Z, greatest. rewrite P9 in P10. destruct P10.
    + exists (0, 0, 0)%Z, (0, 0, 0)%Z. cbn. rewrite Emin, Emax.
      split; [reflexivity|]. split; [reflexivity|]. left. auto.
  - exists (CountableCollection.size (counter st a11y)),
      (CountableCollection.size (counter st prefixedSelectors)).
    repeat split; assumption.
Qed.

End Selectors.

(* ------------------------------------------------------------------------- *)
(** ** Exceptions *)

Section WalkerReturns.

Context {S : Type}.
Variable enter : Context -> CssNode -> M S Signal.
Variable signal : Context -> CssNode -> Signal.
Hypothesis enter_signal :
  forall ctx node s sig s', enter ctx node s = inr (sig, s') -> sig = signal ctx node.

(** The walk that writes the calls down returns, with the calls of the node
    appended to the log; and the walk with [enter] returns, with the same
    answer, when [enter] returns at each of these calls. *)
Lemma walkNode_returns (node : CssNode) :
  forall ctx, exists stop,
    (forall log, walkNode (fun c n => modify (fun l => l ++ [(c, n)]) ;; ret (signal c n)) ctx node log = inr (stop, log ++ visited signal ctx node))
    /\ (Forall (returnsAt enter) (visited signal ctx node) ->
        forall s, exists s', walkNode enter ctx node s = inr (stop, s')).
Proof.
  induction node as [node IH] using CssNode_subnodes_ind. intros ctx.
  assert (lists : forall ctx', exists stop,
    (forall log, walkNodes (fun c n => modify (fun l => l ++ [(c, n)]) ;; ret (signal c n)) ctx' (subnodes node) log
                 = inr (stop, log ++ visitedAll signal ctx' (subnodes node)))
    /\ (Forall (returnsAt enter) (visitedAll signal ctx' (subnodes node)) ->
        forall s, exists s', walkNodes enter ctx' (subnodes node) s = inr (stop, s'))).
  { intros ctx'. induction IH as [|child l Hchild _ IHl].
    - exists false. split.
      + intros log. cbn. unfold ret. now rewrite app_nil_r.
      + intros _ s. cbn. unfold ret. eauto.
    - destruct (Hchild ctx') as (stopc & Hlogc & Hrunc).
      destruct IHl as (stopl & Hlogl & Hrunl).
      assert (Hall : visitedAll signal ctx' (child :: l)
                     = visited signal ctx' child
                       ++ (if stopc then [] else visitedAll signal ctx' l)).
      { unfold visitedAll at 1. cbn [walkNodes]. unfold bind at 1.
        rewrite (Hlogc []). cbn [app].
        destruct stopc; [unfold ret; now rewrite app_nil_r|].
        now rewrite Hlogl. }
      exists (if stopc then true else stopl). split.
      + intros log. cbn [walkNodes]. unfold bind at 1. rewrite Hlogc, Hall.
        destruct stopc; [unfold ret; now rewrite app_nil_r|].
        now rewrite Hlogl, app_assoc.
      + intros Hok s. rewrite Hall in Hok. apply Forall_app in Hok as [Hokc Hokl].
        cbn [walkNodes]. unfold bind at 1.
        destruct (Hrunc Hokc s) as (s1 & ->).
        destruct stopc; [unfold ret; eauto|]. apply Hrunl, Hokl. }
  destruct (lists (enterContext ctx node)) as (stopl & Hlogl & Hrunl).
  assert (Hstep : forall log, (fun c n => modify (fun l => l ++ [(c, n)]) ;; ret (signal c n)) ctx node log = inr (signal ctx node, log ++ [(ctx, node)])).
  { reflexivity. }
  assert (Hvisited : visited signal ctx node
                     = (ctx, node)
                         :: match signal ctx node with
                            | Continue => visitedAll signal (enterContext ctx node) (subnodes node)
                            | _ => []
                            end).
  { unfold visited. rewrite walkNode_eq, Hstep.
    destruct (signal ctx node); try reflexivity. now rewrite Hlogl. }
  exists (match signal ctx node with
          | Continue => stopl
          | Skip => false
          | Break => true
          end).
  split.
  - intros log. rewrite walkNode_eq, Hstep, Hvisited.
    destruct (signal ctx node); try reflexivity.
    rewrite Hlogl, <- app_assoc. reflexivity.
  - intros Hok s. rewrite Hvisited in Hok. apply Forall_cons_iff in Hok as [Hnode Hsub].
    rewrite walkNode_eq. destruct (Hnode s) as (sig & s1 & Henter).
    cbn [fst snd] in Henter. rewrite Henter.
    rewrite (enter_signal _ _ _ _ _ Henter) in *.
    destruct (signal ctx node); eauto.
Qed.

(** A run over a list of calls returns only when the callback returned at
    each of them. *)
Lemma runAll_returned (calls : list (Context * CssNode)) (s s' : S) :
  runAll enter calls s = inr (tt, s') ->
  Forall (fun call => exists s0 sig s1, enter (fst call) (snd call) s0 = inr (sig, s1)) calls.
Proof.
  revert s. induction calls as [|[ctx node] calls IH]; intros s H; constructor.
  - cbn [runAll] in H. unfold bind in H.
    destruct (enter ctx node s) as [e|[sig s1]] eqn:E; [discriminate|]. cbn. eauto.
  - cbn [runAll] in H. unfold bind in H.
    destruct (enter ctx node s) as [e|[sig s1]] eqn:E; [discriminate|]. eapply IH, H.
Qed.

End WalkerReturns.

(** A callback that returns at every call makes the walk return. *)
Lemma walkNode_total {S : Type} (enter : Context -> CssNode -> M S Signal)
    (node : CssNode) :
  (forall call, returnsAt enter call) ->
  forall ctx s, exists stop s', walkNode enter ctx node s = inr (stop, s').
Proof.
  intros Hall. induction node as [node IH] using CssNode_subnodes_ind.
  intros ctx s. rewrite walkNode_eq.
  destruct (Hall (ctx, node) s) as (sig & s1 & Henter).
  cbn [fst snd] in Henter. rewrite Henter. clear Henter.
  destruct sig; eauto.
  generalize (enterContext ctx node) as ctx'. intros ctx'. revert s1.
  induction IH as [|child l Hchild _ IHl]; intros s1; cbn [walkNodes].
  - unfold ret. eauto.
  - unfold bind. destruct (Hchild ctx' s1) as (stop & s2 & ->).
    destruct stop; [unfold ret; eauto | apply IHl].
Qed.

Lemma succeeds_forEach {X : Type} (f : X -> A unit) (l : list X) :
  (forall x, succeeds (f x)) -> succeeds (forEach f l).
Proof.
  intros Hf. induction l as [|x l IH]; cbn [forEach].
  - apply succeeds_ret.
  - apply succeeds_bind; auto.
Qed.

Lemma succeeds_walk (enter : Context -> CssNode -> A Signal) (node : CssNode) :
  (forall ctx n, succeeds (enter ctx n)) -> succeeds (walk enter node).
Proof.
  intros Hall st. unfold walk, bind.
  destruct (walkNode_total enter node) with (ctx := rootContext) (s := st)
    as (stop & s' & ->).
  - intros [c n] s. apply Hall.
  - unfold ret. eauto.
Qed.

Ltac returns :=
  repeat first
    [ apply succeeds_ret
    | apply succeeds_modify
    | apply succeeds_when
    | apply succeeds_forEach; intros ?
    | apply succeeds_walk; intros ? ?
    | apply succeeds_bind; [|intros ?]
    | match goal with
      | |- succeeds (if ?c then _ else _) => destruct c
      | |- succeeds (match ?o with _ => _ end) => destruct o
      end ].

Section Exceptions.

Variable I : Imports.
Variable css : string.

Lemma visitValue_returns (property : string) (ctx : Context) (node : CssNode) :
  succeeds (visitValue I css property ctx node).
Proof.
  unfold visitValue, push, pushContext. returns.
Qed.

Lemma visit_returns (ctx : Context) (node : CssNode) :
  throwsAt I (ctx, node) = false -> returnsAt (visit I css) (ctx, node).
Proof.
  unfold throwsAt, returnsAt, readsPrelude. cbn [fst snd]. intros H.
  change (succeeds (visit I css ctx node)).
  destruct node; cbn [visit]; try apply succeeds_ret.
  - unfold visitAtrule, incr, add, push.
    destruct (String.eqb name "font-face").
    + destruct block as [b|]; [|discriminate].
      destruct (nodeChildren b); [|discriminate]. returns.
    + destruct prelude as [p|]; [returns|].
      rewrite andb_true_r in H.
      repeat (apply orb_false_elim in H as [H ?]).
      repeat match goal with E : _ = false |- _ => rewrite E; clear E end.
      returns.
  - unfold visitRule, incr, add, pushSample. returns.
  - unfold visitSelector, push, pushSample, addToSet. returns.
  - unfold visitDeclaration, incr, add, push, pushSample, addToSet. returns.
  - unfold visitValueNode, pushEach, push.
    destruct (isValueKeyword I _); [apply succeeds_ret|].
    destruct (declaration ctx); [|discriminate].
    returns; apply visitValue_returns.
  - unfold visitDimension, pushContext. returns.
  - unfold visitUrl, incr, add, push. returns.
Qed.

Lemma visit_throws (ctx : Context) (node : CssNode) (st : AnalysisState) :
  throwsAt I (ctx, node) = true -> exists e, visit I css ctx node st = inl e.
Proof.
  unfold throwsAt, readsPrelude. cbn [fst snd]. intros H.
  destruct node; try discriminate H; cbn [visit].
  - unfold visitAtrule, incr, add, bind, modify, throw.
    destruct (String.eqb name "font-face").
    + destruct block as [b|]; [|eauto].
      destruct (nodeChildren b); [discriminate|eauto].
    + destruct prelude as [p|]; [rewrite andb_false_r in H; discriminate|].
      rewrite andb_true_r in H.
      repeat match goal with
             | |- context [if ?c then _ else _] => destruct c; eauto
             end.
      discriminate.
  - unfold visitValueNode, throw.
    destruct (isValueKeyword I _); [discriminate|].
    destruct (declaration ctx); [discriminate|eauto].
Qed.

Variable now : nat -> Z.

(** X11.  [analyze] returns a report exactly when the callback throws at none
    of the calls of the walk, and it throws an exception otherwise.  The
    callback throws at a [font-face] at-rule without a block or whose block
    has no list of children, at a [media], [supports], [keyframes], [import],
    [charset], [container] or [layer] at-rule without a prelude, and at a
    value that is not a keyword outside every declaration ([throwsAt]). *)
Theorem analyze_returns_iff :
  (exists r, analyze I css now = inr r)
  <-> existsb (throwsAt I) (visits I (fst (parse I css))) = false.
Proof.
  split.
  - intros [r H]. unfold analyze in H.
    destruct (analysis I css) as [e|st] eqn:Hst; [discriminate|].
    apply analysis_run, runAll_returned in Hst.
    destruct (existsb _ _) eqn:E; [|reflexivity].
    apply existsb_exists in E as ([ctx node] & Hin & Hthrow).
    rewrite Forall_forall in Hst.
    destruct (Hst _ Hin) as (s0 & sig & s1 & Hret). cbn [fst snd] in Hret.
    destruct (visit_throws ctx node s0 Hthrow) as [e He]. congruence.
  - intros H.
    assert (Hok : Forall (returnsAt (visit I css)) (visits I (fst (parse I css)))).
    { apply Forall_forall. intros [ctx node] Hin. apply visit_returns.
      destruct (throwsAt I (ctx, node)) eqn:E; [|reflexivity].
      assert (existsb (throwsAt I) (visits I (fst (parse I css))) = true)
        by (apply existsb_exists; eauto).
      congruence. }
    destruct (walkNode_returns (visit I css) (visitSignal I) (visit_signal I css)
                (fst (parse I css)) rootContext) as (stop & _ & Hrun).
    destruct (Hrun Hok (fold_left onComment (snd (parse I css)) initialState))
      as (st & Hst).
    unfold analyze, analysis, walk, bind. rewrite Hst. unfold ret. eauto.
Qed.

End Exceptions.

(* ------------------------------------------------------------------------- *)
(** ** Font faces *)

Lemma descriptorOf_replaceProperty (k v property : string) (d : list (string * string)) :
  existsb (fun kv => String.eqb (fst kv) k) d = true ->
  descriptorOf property (replaceProperty k v d)
  = if String.eqb k property then Some v else descriptorOf property d.
Proof.
  unfold descriptorOf.
  induction d as [|[k' v'] d IH]; cbn [replaceProperty existsb find fst snd]; intros H.
  - discriminate H.
  - destruct (String.eqb_spec k' k) as [->|Hk]; cbn [find fst snd].
    + destruct (String.eqb k property); reflexivity.
    + destruct (String.eqb_spec k' property) as [->|Hp].
      * destruct (String.eqb_spec k property) as [->|_]; [contradiction|reflexivity].
      * apply IH, H.
Qed.

Lemma descriptorOf_createProperty (k v property : string) (d : list (string * string)) :
  existsb (fun kv => String.eqb (fst kv) k) d = false ->
  descriptorOf property (createProperty k v d)
  = if String.eqb k property then Some v else descriptorOf property d.
Proof.
  unfold descriptorOf.
  induction d as [|[k' v'] d IH]; cbn [createProperty existsb find fst snd]; intros H.
  - destruct (String.eqb k property); reflexivity.
  - apply orb_false_elim in H as [Hk H].
    destruct (listedBefore k k'); cbn [find fst snd].
    + destruct (String.eqb k property); reflexivity.
    + destruct (String.eqb_spec k' property) as [->|Hp].
      * rewrite String.eqb_sym, Hk. reflexivity.
      * apply IH, H.
Qed.

(** What an assignment does to the own properties. *)
Lemma descriptorOf_setDescriptor (k v property : string) (d : list (string * string)) :
  descriptorOf property (setDescriptor k v d)
  = if String.eqb k "__proto__" then descriptorOf property d
    else if String.eqb k property then Some v
    else descriptorOf property d.
Proof.
  unfold setDescriptor. destruct (String.eqb k "__proto__"); [reflexivity|].
  destruct (existsb (fun kv => String.eqb (fst kv) k) d) eqn:E.
  - now apply descriptorOf_replaceProperty.
  - now apply descriptorOf_createProperty.
Qed.

Lemma replaceProperty_keys (k v : string) (d : list (string * string)) :
  map fst (replaceProperty k v d) = map fst d.
Proof.
  induction d as [|[k' v'] d IH]; cbn [replaceProperty map fst]; [reflexivity|].
  destruct (String.eqb k' k); cbn [map fst]; [reflexivity | now rewrite IH].
Qed.

Lemma createProperty_In (k v : string) (d : list (string * string)) (x : string) :
  In x (map fst (createProperty k v d)) <-> x = k \/ In x (map fst d).
Proof.
  induction d as [|[k' v'] d IH]; cbn [createProperty map fst].
  - cbn. intuition.
  - destruct (listedBefore k k'); cbn [map fst In]; [|rewrite IH]; intuition.
Qed.

Lemma createProperty_keys (k v : string) (d : list (string * string)) :
  ~ In k (map fst d) ->
  NoDup (map fst d) -> NoDup (map fst (createProperty k v d)).
Proof.
  induction d as [|[k' v'] d IH]; cbn [createProperty map fst]; intros Hk Hd.
  - repeat constructor. intros [].
  - inversion Hd as [|? ? Hnotin Hrest]; subst.
    destruct (listedBefore k k'); cbn [map fst].
    + constructor; [exact Hk | exact Hd].
    + constructor.
      * rewrite createProperty_In. intros [->|H]; [apply Hk; now left | contradiction].
      * apply IH; [|exact Hrest]. intros H. apply Hk. now right.
Qed.

Lemma setDescriptor_keys (k v : string) (d : list (string * string)) :
  NoDup (map fst d) -> NoDup (map fst (setDescriptor k v d)).
Proof.
  intros H. unfold setDescriptor. destruct (String.eqb k "__proto__"); [exact H|].
  destruct (existsb (fun kv => String.eqb (fst kv) k) d) eqn:E.
  - now rewrite replaceProperty_keys.
  - apply createProperty_keys; [|exact H].
    intros Hin. apply in_map_iff in Hin as ([k' v'] & Hk & Hin). cbn [fst] in Hk. subst k'.
    assert (existsb (fun kv => String.eqb (fst kv) k) d = true)
      by (apply existsb_exists; exists (k, v'); split; [exact Hin | apply String.eqb_refl]).
    congruence.
Qed.

Section Fontfaces.

Variable I : Imports.
Variable css : string.

(** X12.  At a [font-face] at-rule whose block has a list of children the
    callback appends one descriptor object to [fontfaces], also when an equal
    one is there already.  The object has one own property for every
    property name other than [__proto__] that a declaration among the
    children has; its value is the text of the value of the last such
    declaration.  Children that are not declarations are ignored, and a
    declaration of [__proto__] adds no own property. *)
Theorem fontface_descriptors (ctx : Context) (loc : Loc) (prelude : option CssNode)
    (block : CssNode) (children : list CssNode)
    (st : AnalysisState) (sig : Signal) (st' : AnalysisState) :
  nodeChildren block = Some children ->
  visit I css ctx (Atrule loc "font-face" prelude (Some block)) st = inr (sig, st') ->
  exists descriptors,
    fontfaces st' = fontfaces st ++ [descriptors]
    /\ NoDup (map fst descriptors)
    /\ forall property,
         descriptorOf property descriptors
         = if String.eqb property "__proto__" then None
           else lastDeclared css property children.
Proof.
  intros Hchildren H. cbn [visit] in H. unfold visitAtrule in H.
  cbn [String.eqb Ascii.eqb Bool.eqb] in H. rewrite Hchildren in H.
  exec H. fields. eexists. split; [reflexivity|].
  unfold lastDeclared.
  assert (G : forall d found,
    NoDup (map fst d) ->
    (forall p, descriptorOf p d = if String.eqb p "__proto__" then None else found p) ->
    NoDup (map fst (fold_left
                      (fun d descriptor =>
                         match descriptor with
                         | Declaration _ _ property value =>
                             setDescriptor property (stringifyNode css value) d
                         | _ => d
                         end) children d))
    /\ forall p,
         descriptorOf p (fold_left
                           (fun d descriptor =>
                              match descriptor with
                              | Declaration _ _ property value =>
                                  setDescriptor property (stringifyNode css value) d
                              | _ => d
                              end) children d)
         = if String.eqb p "__proto__" then None
           else fold_left
                  (fun found child =>
                     match child with
                     | Declaration _ _ q value =>
                         if String.eqb q p then Some (stringifyNode css value) else found
                     | _ => found
                     end) children (found p)).
  { clear. induction children as [|child l IH]; intros d found Hd Hf; cbn [fold_left].
    - auto.
    - destruct child; try (apply IH; assumption).
      apply (IH _ (fun p => if String.eqb property p
                            then Some (stringifyNode css child) else found p)).
      + apply setDescriptor_keys, Hd.
      + intros p. rewrite descriptorOf_setDescriptor, Hf.
        destruct (String.eqb_spec property "__proto__") as [->|Hproto].
        * destruct (String.eqb_spec p "__proto__") as [->|Hp]; [reflexivity|].
          destruct (String.eqb_spec "__proto__" p) as [<-|_]; [contradiction|reflexivity].
        * destruct (String.eqb_spec property p) as [<-|Hp]; [|reflexivity].
          destruct (String.eqb_spec property "__proto__"); [contradiction|reflexivity]. }
  apply (G [] (fun _ => None)); [constructor|].
  intros p. cbn. now destruct (String.eqb p "__proto__").
Qed.

End Fontfaces.

(** The keys of an object in the order in which it lists them: array indices
    first, in ascending order, then the other keys as they were created; an
    assignment to [__proto__] creates none. *)
Example descriptor_keys_listed :
  map fst (fold_left (fun d key => setDescriptor key "x" d)
             [ "b"; "10"; "__proto__"; "a"; "2"; "b"; "01" ] [])
  = [ "2"; "10"; "b"; "a"; "01" ].
Proof. vm_compute. reflexivity. Qed.

(* ------------------------------------------------------------------------- *)
(** ** Values *)

Section Values.

Variable I : Imports.
Variable css : string.

Lemma colorWalk_tail (property : string) (node : CssNode) :
  touches valueTailFootprint (walk (visitValue I css property) node).
Proof.
  intros st x st' H.
  assert (W : within colorFootprint st st').
  { revert H. apply touches_walk. intros ctx n. apply visitValue_touches. }
  constructor; intros; try (apply W; assumption).
  apply W. destruct c; try reflexivity; discriminate.
Qed.

Lemma values_step (ctx : Context) (node : CssNode)
    (st : AnalysisState) (sig : Signal) (st' : AnalysisState) :
  visit I css ctx node st = inr (sig, st') ->
  sizeOf st' zindex = sizeOf st zindex + count1 (isZindexValue I (ctx, node))
  /\ sizeOf st' vendorPrefixedValues
     = sizeOf st vendorPrefixedValues + count1 (isPrefixedValue I (ctx, node))
  /\ sizeOf st' valueBrowserhacks
     = sizeOf st valueBrowserhacks + valueHacks I (ctx, node).
Proof.
  intros H. pose proof (visit_within I css ctx node st sig st' H) as F.
  unfold sizeOf, isZindexValue, isPrefixedValue, valueHacks, analysedValue.
  destruct node; cbn [footprintOf] in F; cbn [fst snd count1];
    try (unchanged F; repeat split; lia).
  clear F. cbn [visit] in H. unfold visitValueNode in H.
  destruct (isValueKeyword I _).
  { apply ret_inr in H as [_ ->]. cbn [count1]. repeat split; lia. }
  destruct (declaration ctx) as [d|]; [|discriminate H].
  apply bind_inr in H as ([] & s1 & H1 & H).
  apply bind_inr in H as ([] & s2 & H2 & H).
  apply bind_inr in H as ([] & s3 & H3 & H).
  assert (E1 : sizeOf s1 vendorPrefixedValues
               = sizeOf st vendorPrefixedValues + count1 (isAstVendorPrefixed I (Value loc children))
               /\ sizeOf s1 valueBrowserhacks = sizeOf st valueBrowserhacks
               /\ sizeOf s1 zindex = sizeOf st zindex).
  { unfold sizeOf. exec H1; fields; rewrite ?CountableCollection_size_push;
      cbn [count1]; repeat split; lia. }
  assert (E2 : sizeOf s2 vendorPrefixedValues = sizeOf s1 vendorPrefixedValues
               /\ sizeOf s2 valueBrowserhacks
                  = sizeOf s1 valueBrowserhacks + count1 (isText (nodeImportant d))
               /\ sizeOf s2 zindex = sizeOf s1 zindex).
  { unfold sizeOf. exec H2; fields; rewrite ?CountableCollection_size_push;
      cbn [count1 isText]; repeat split; lia. }
  assert (E3 : sizeOf s3 vendorPrefixedValues = sizeOf s2 vendorPrefixedValues
               /\ sizeOf s3 valueBrowserhacks
                  = sizeOf s2 valueBrowserhacks + count1 (isIe9Hack I (Value loc children))
               /\ sizeOf s3 zindex = sizeOf s2 zindex).
  { unfold sizeOf. exec H3; fields; rewrite ?CountableCollection_size_push;
      cbn [count1]; repeat split; lia. }
  assert (E4 : sizeOf st' vendorPrefixedValues = sizeOf s3 vendorPrefixedValues
               /\ sizeOf st' valueBrowserhacks = sizeOf s3 valueBrowserhacks
               /\ sizeOf st' zindex
                  = sizeOf s3 zindex + count1 (isProperty I "z-index" (nodeProperty d))).
  { unfold sizeOf. destruct (isProperty I "z-index" (nodeProperty d)).
    - exec H; fields; rewrite ?CountableCollection_size_push;
        cbn [count1]; repeat split; lia.
    - assert (T : within valueTailFootprint s3 st').
      { revert H. generalize s3 sig st'.
        match goal with
        | |- forall s x s', ?m s = inr (x, s') -> _ =>
            change (touches valueTailFootprint m)
        end.
        unfold pushEach. repeat first [apply colorWalk_tail | touches_step]. }
      unchanged T. cbn [count1]. repeat split; lia. }
  unfold sizeOf in *. repeat split; lia.
Qed.

Variable now : nat -> Z.

(** X13.  A value is analysed when it is not a keyword.  [values.zindexes.total]
    is the number of analysed values of a [z-index] declaration,
    [values.prefixes.total] the number of analysed values with a vendor
    prefix, and [values.browserhacks.total] counts an analysed value once
    when the [important] of its declaration is a string and once more when
    it carries the [\9] hack. *)
Theorem values_report (r : JsValue) :
  analyze I css now = inr r ->
  let calls := visits I (fst (parse I css)) in
  get ["values"; "zindexes"; "total"] r = Some (num (countCalls (isZindexValue I) calls))
  /\ get ["values"; "prefixes"; "total"] r
     = Some (num (countCalls (isPrefixedValue I) calls))
  /\ get ["values"; "browserhacks"; "total"] r
     = Some (num (list_sum (map (valueHacks I) calls))).
Proof.
  intros H calls. unfold analyze in H.
  destruct (analysis I css) as [e|st] eqn:Hst; [discriminate|].
  injection H as <-.
  destruct (start_state I css) as (Hc & _).
  pose proof (analysis_count I css (fun s => sizeOf s zindex) _
                (fun c n s sg s' E => proj1 (values_step c n s sg s' E)) st Hst) as H1.
  pose proof (analysis_count I css (fun s => sizeOf s vendorPrefixedValues) _
                (fun c n s sg s' E => proj1 (proj2 (values_step c n s sg s' E))) st Hst)
    as H2.
  pose proof (analysis_sum I css (fun s => sizeOf s valueBrowserhacks) _
                (fun c n s sg s' E => proj2 (proj2 (values_step c n s sg s' E))) st Hst)
    as H3.
  cbv beta in *. unfold sizeOf in *. rewrite Hc in H1, H2, H3.
  cbn [CountableCollection.size CountableCollection.empty Nat.add] in *.
  fold calls in H1, H2, H3.
  repeat split; cbn; congruence.
Qed.

End Values.

(* ------------------------------------------------------------------------- *)
(** ** Ratios *)

(** X14.  [ratio(part, total)] is 0 exactly when the part or the total is 0, and
    1 exactly when the part is the whole of a total that is not 0. *)
Theorem ratio_zero_one (part total : nat) :
  (ratio part total == 0 <-> part = 0 \/ total = 0)
  /\ (ratio part total == 1 <-> part = total /\ total <> 0).
Proof.
  unfold ratio. destruct total as [|n]; cbn [Nat.eqb].
  - split; split; intros H.
    + now right.
    + reflexivity.
    + discriminate H.
    + destruct H as [_ H]. now contradiction H.
  - unfold Qeq. cbn [Qnum Qden].
    rewrite <- Pos.of_nat_succ, Zpos_P_of_succ_nat.
    split; split; intros H; try lia.
Qed.

(* ------------------------------------------------------------------------- *)
(** ** Timing *)

Section Timing.

Variable I : Imports.
Variable css : string.
Variable now : nat -> Z.

(** X15.  With a clock that never runs backwards the three fields of [__meta__]
    are not negative, and [parseTime] and [analyzeTime] together do not
    exceed [total]. *)
Theorem meta_report (r : JsValue) :
  (forall k, (now k <= now (S k))%Z) ->
  analyze I css now = inr r ->
  exists parseTime analyzeTime total,
    get ["__meta__"; "parseTime"] r = Some (numZ parseTime)
    /\ get ["__meta__"; "analyzeTime"] r = Some (numZ analyzeTime)
    /\ get ["__meta__"; "total"] r = Some (numZ total)
    /\ (0 <= parseTime)%Z /\ (0 <= analyzeTime)%Z
    /\ (parseTime + analyzeTime <= total)%Z.
Proof.
  intros Hclock H. unfold analyze in H.
  destruct (analysis I css) as [e|st]; [discriminate|].
  injection H as <-.
  exists (now 2 - now 1)%Z, (now 3 - now 2)%Z, (now 4 - now 0)%Z.
  pose proof (Hclock 0). pose proof (Hclock 1). pose proof (Hclock 2).
  pose proof (Hclock 3).
  repeat match goal with |- _ /\ _ => split end; try reflexivity; lia.
Qed.

End Timing.

(* ------------------------------------------------------------------------- *)
(** ** The [\9] hack *)

Lemma String_length_append (s t : string) :
  String.length (s ++ t) = String.length s + String.length t.
Proof. induction s as [|c s IH]; cbn; [reflexivity | now rewrite IH]. Qed.

Lemma String_substring_all (s : string) : String.substring 0 (String.length s) s = s.
Proof. induction s as [|c s IH]; cbn; [reflexivity | now rewrite IH]. Qed.

Lemma String_substring_prefix (s t : string) :
  String.substring 0 (String.length s) (s ++ t) = s.
Proof.
  induction s as [|c s IH]; cbn.
  - destruct t; reflexivity.
  - now rewrite IH.
Qed.

Lemma String_substring_suffix (s t : string) :
  String.substring (String.length s) (String.length t) (s ++ t) = t.
Proof.
  induction s as [|c s IH]; cbn; [apply String_substring_all | exact IH].
Qed.

Lemma endsWith_append (s base : string) : StringUtils.endsWith base (s ++ base) = true.
Proof.
  unfold StringUtils.endsWith. rewrite String_length_append.
  destruct (Nat.ltb_spec (String.length s + String.length base) (String.length base));
    [lia|].
  replace (String.length s + String.length base - String.length base)
    with (String.length s) by lia.
  rewrite String_substring_suffix. apply String.eqb_refl.
Qed.

Lemma JsString_substring_prefix (s t : string) :
  JsString.substring 0 (String.length (s ++ t) - String.length t) (s ++ t) = s.
Proof.
  unfold JsString.substring. rewrite String_length_append.
  replace (String.length s + String.length t - String.length t)
    with (String.length s) by lia.
  rewrite Nat.min_0_l, Nat.min_0_l, Nat.max_0_l, Nat.sub_0_r.
  rewrite Nat.min_l by lia. apply String_substring_prefix.
Qed.

Section Ie9Hack.

Variable I : Imports.
Variable css : string.

(** X16.  The [\9] hack at the end of a unit or of a hex color is not part of
    what is counted: a dimension in a declaration whose unit ends in [\9] is
    recorded under the unit without these two characters, and the format of
    such a hex color is [hex] with the number of characters before them,
    while the color itself is recorded as written. *)
Theorem ie9_hack_stripped (ctx : Context) (d : CssNode) (loc : Loc)
    (value unit hex property : string) (st : AnalysisState) :
  declaration ctx = Some d ->
  visit I css ctx (Dimension loc value (unit ++ "\9")%string) st
  = inr (Skip,
         setContextual units
           (ContextCollection.push unit (nodeProperty d) (contextual st units)) st)
  /\ exists st',
       visitValue I css property ctx (Hash loc (hex ++ "\9")%string) st = inr (Skip, st')
       /\ contextual st' colors
          = ContextCollection.push ("#" ++ hex ++ "\9")%string property (contextual st colors)
       /\ counter st' colorFormats
          = CountableCollection.push String.eqb ("hex" ++ JsString.ofNat (String.length hex))%string
              (counter st colorFormats).
Proof.
  intros Hd. split.
  - cbn [visit]. unfold visitDimension. rewrite Hd, endsWith_append.
    change 2 with (String.length "\9").
    rewrite JsString_substring_prefix. reflexivity.
  - unfold visitValue. rewrite endsWith_append, String_length_append.
    cbn [String.length]. replace (String.length hex + 2 - 2) with (String.length hex) by lia.
    eexists. split; [reflexivity|]. split; reflexivity.
Qed.

End Ie9Hack.

(* ------------------------------------------------------------------------- *)
(** ** Unique selectors and declarations *)

Lemma setAdd_distinct (x : string) (l set : list string) :
  distinctOf l set -> distinctOf (l ++ [x]) (setAdd x set).
Proof.
  unfold distinctOf, setAdd. intros [Hnodup Hin].
  destruct (existsb (String.eqb x) set) eqn:E.
  - split; [exact Hnodup|]. intros y. rewrite in_app_iff, Hin. cbn.
    apply existsb_exists in E as (z & Hz & Hxz). apply String.eqb_eq in Hxz. subst z.
    apply Hin in Hz. intuition (subst; auto).
  - split.
    + apply NoDup_app; [exact Hnodup|repeat constructor; intros []|].
      intros y Hy [Hxy|[]]. subst y.
      assert (existsb (String.eqb x) set = true)
        by (apply existsb_exists; exists x; split; [exact Hy | apply String.eqb_refl]).
      congruence.
    + intros y. rewrite !in_app_iff, Hin. reflexivity.
Qed.

Section Uniques.

Variable I : Imports.
Variable css : string.

(** A set to which every call of a kind adds its text holds the distinct
    texts of the calls of that kind. *)
Lemma runAll_distinct (s : StringSet) (p : Context * CssNode -> bool) :
  (forall ctx node st sig st',
      visit I css ctx node st = inr (sig, st') ->
      stringSet st' s
      = if p (ctx, node) then setAdd (stringifyNode css node) (stringSet st s)
        else stringSet st s) ->
  forall calls seen st st',
    distinctOf (textsOf css p seen) (stringSet st s) ->
    runAll (visit I css) calls st = inr (tt, st') ->
    distinctOf (textsOf css p (seen ++ calls)) (stringSet st' s).
Proof.
  intros Hstep. induction calls as [|[ctx node] calls IH]; intros seen st st' Hd H;
    cbn [runAll] in H.
  - apply ret_inr in H as [_ ->]. now rewrite app_nil_r.
  - apply bind_inr in H as (sig & s1 & Hvisit & Hrest).
    apply Hstep in Hvisit.
    replace (seen ++ (ctx, node) :: calls) with ((seen ++ [(ctx, node)]) ++ calls)
      by (rewrite <- app_assoc; reflexivity).
    apply (IH _ s1 st'); [|exact Hrest].
    rewrite Hvisit. unfold textsOf. rewrite filter_app, map_app. cbn [filter].
    destruct (p (ctx, node)); cbn [map snd].
    + apply setAdd_distinct, Hd.
    + rewrite app_nil_r. exact Hd.
Qed.

Lemma uniques_step (ctx : Context) (node : CssNode)
    (st : AnalysisState) (sig : Signal) (st' : AnalysisState) :
  visit I css ctx node st = inr (sig, st') ->
  stringSet st' uniqueDeclarations
  = (if isCountedDeclaration (ctx, node)
     then setAdd (stringifyNode css node) (stringSet st uniqueDeclarations)
     else stringSet st uniqueDeclarations)
  /\ stringSet st' uniqueSelectors
     = (if isPlainSelector (ctx, node)
        then setAdd (stringifyNode css node) (stringSet st uniqueSelectors)
        else stringSet st uniqueSelectors).
Proof.
  intros H. pose proof (visit_within I css ctx node st sig st' H) as F.
  unfold isCountedDeclaration, isPlainSelector.
  destruct node; cbn [footprintOf] in F; cbn [fst snd];
    try (unchanged F; split; reflexivity).
  - (* Selector *)
    clear F. cbn [visit] in H. destruct (inKeyframes ctx) eqn:Hkf; cbn [negb].
    + unfold visitSelector in H. rewrite Hkf in H. exec H; fields. split; reflexivity.
    + destruct (visitSelector_plain I css ctx _ st sig st' Hkf H)
        as (_ & _ & _ & _ & _ & _ & _ & _ & _ & _ & Hdecl & Hsel & _).
      split; assumption.
  - (* Declaration *)
    clear F. cbn [visit] in H. unfold visitDeclaration in H.
    destruct (atrulePrelude ctx); exec H; fields; split; reflexivity.
Qed.

Variable now : nat -> Z.

(** X17.  [declarations.totalUnique] is the number of distinct texts among the
    declarations visited outside at-rule preludes, and [selectors.totalUnique]
    the number of distinct texts among the selectors visited outside
    keyframes: each set holds every such text once. *)
Theorem uniques_report (r : JsValue) :
  analyze I css now = inr r ->
  let calls := visits I (fst (parse I css)) in
  exists declarations selectors,
    distinctOf (textsOf css isCountedDeclaration calls) declarations
    /\ distinctOf (textsOf css isPlainSelector calls) selectors
    /\ get ["declarations"; "totalUnique"] r = Some (num (List.length declarations))
    /\ get ["selectors"; "totalUnique"] r = Some (num (List.length selectors)).
Proof.
  intros H calls. unfold analyze in H.
  destruct (analysis I css) as [e|st] eqn:Hst; [discriminate|].
  injection H as <-.
  destruct (start_state I css) as (_ & _ & Hs & _).
  apply analysis_run in Hst. fold (afterComments I css) in Hst. fold calls in Hst.
  exists (stringSet st uniqueDeclarations), (stringSet st uniqueSelectors).
  assert (Hempty : forall p, distinctOf (textsOf css p []) []).
  { intros p. split; [constructor|]. intros x. reflexivity. }
  repeat match goal with |- _ /\ _ => split end; try reflexivity.
  - apply (runAll_distinct uniqueDeclarations isCountedDeclaration
             (fun c n s sg s' E => proj1 (uniques_step c n s sg s' E))
             calls [] (afterComments I css) st); [|exact Hst].
    rewrite Hs. apply Hempty.
  - apply (runAll_distinct uniqueSelectors isPlainSelector
             (fun c n s sg s' E => proj2 (uniques_step c n s sg s' E))
             calls [] (afterComments I css) st); [|exact Hst].
    rewrite Hs. apply Hempty.
Qed.

End Uniques.

(* ------------------------------------------------------------------------- *)
(** ** Durations *)

Section Durations.

Variable I : Imports.
Variable css : string.



End Durations.

(* ------------------------------------------------------------------------- *)
(** ** The properties on the style sheet of [Demo] *)

Lemma visit_footprint_witness :
  exists sig st',
    visit Demo.imports Demo.source rootContext Demo.emptyRule initialState = inr (sig, st')
    /\ within ruleFootprint initialState st'
    /\ sig = Continue.
Proof.
  destruct (visit Demo.imports Demo.source rootContext Demo.emptyRule initialState)
    as [e|[sig st']] eqn:H; [vm_compute in H; discriminate H|].
  exists sig, st'. split; [reflexivity|].
  exact (visit_footprint Demo.imports Demo.source rootContext Demo.emptyRule
           initialState sig st' H).
Defined.

Lemma rules_report_witness :
  exists r,
    analyze Demo.imports Demo.source tickingClock = inr r
    /\ get ["rules"; "total"] r = Some (num 2)
    /\ get ["rules"; "empty"; "total"] r = Some (num 1)
    /\ get ["rules"; "selectors"; "items"] r = Some (VArr [numZ 1; numZ 1])
    /\ get ["rules"; "declarations"; "items"] r = Some (VArr [numZ 4; numZ 0])
    /\ get ["rules"; "sizes"; "items"] r = Some (VArr [numZ 5; numZ 1]).
Proof.
  destruct (analyze Demo.imports Demo.source tickingClock) as [e|r] eqn:H;
    [vm_compute in H; discriminate H|].
  exists r. split; [reflexivity|].
  exact (rules_report Demo.imports Demo.source tickingClock r H).
Defined.

Lemma importants_report_witness :
  exists r,
    analyze Demo.imports Demo.source tickingClock = inr r
    /\ get ["declarations"; "importants"; "total"] r = Some (num 1)
    /\ get ["declarations"; "importants"; "inKeyframes"; "total"] r = Some (num 0).
Proof.
  destruct (analyze Demo.imports Demo.source tickingClock) as [e|r] eqn:H;
    [vm_compute in H; discriminate H|].
  exists r. split; [reflexivity|].
  exact (importants_report Demo.imports Demo.source tickingClock r H).
Defined.

Lemma properties_report_witness :
  exists r,
    analyze Demo.imports Demo.source tickingClock = inr r
    /\ exists total prefixed hacks custom,
         get ["declarations"; "total"] r = Some (num total)
         /\ get ["properties"; "total"] r = Some (num total)
         /\ get ["properties"; "complexity"; "count"] r = Some (num total)
         /\ get ["properties"; "prefixed"; "total"] r = Some (num prefixed)
         /\ get ["properties"; "browserhacks"; "total"] r = Some (num hacks)
         /\ get ["properties"; "custom"; "total"] r = Some (num custom)
         /\ get ["properties"; "complexity"; "sum"] r
            = Some (numZ (Z.of_nat (total + prefixed + hacks + custom)))
         /\ prefixed + hacks + custom <= total.
Proof.
  destruct (analyze Demo.imports Demo.source tickingClock) as [e|r] eqn:H;
    [vm_compute in H; discriminate H|].
  exists r. split; [reflexivity|].
  exact (properties_report Demo.imports Demo.source tickingClock r H).
Defined.


Lemma comments_report_witness :
  exists r,
    analyze Demo.imports Demo.source tickingClock = inr r
    /\ get ["stylesheet"; "comments"; "total"] r = Some (num 1)
    /\ get ["stylesheet"; "comments"; "size"] r = Some (num 1).
Proof.
  destruct (analyze Demo.imports Demo.source tickingClock) as [e|r] eqn:H;
    [vm_compute in H; discriminate H|].
  exists r. split; [reflexivity|].
  exact (comments_report Demo.imports Demo.source tickingClock r H).
Defined.

Lemma units_report_witness :
  exists r,
    analyze Demo.imports Demo.source tickingClock = inr r
    /\ get ["values"; "units"; "total"] r = Some (num 1).
Proof.
  destruct (analyze Demo.imports Demo.source tickingClock) as [e|r] eqn:H;
    [vm_compute in H; discriminate H|].
  exists r. split; [reflexivity|].
  exact (units_report Demo.imports Demo.source tickingClock r H).
Defined.

Lemma colors_report_witness :
  exists r,
    analyze Demo.imports Demo.source tickingClock = inr r
    /\ exists total,
         get ["values"; "colors"; "total"] r = Some (num total)
         /\ get ["values"; "colors"; "formats"; "total"] r = Some (num total).
Proof.
  destruct (analyze Demo.imports Demo.source tickingClock) as [e|r] eqn:H;
    [vm_compute in H; discriminate H|].
  exists r. split; [reflexivity|].
  exact (colors_report Demo.imports Demo.source tickingClock r H).
Defined.

Lemma atrules_report_witness :
  exists r,
    analyze Demo.imports Demo.source tickingClock = inr r
    /\ get ["atrules"; "media"; "total"] r = Some (num 1)
    /\ get ["atrules"; "supports"; "total"] r = Some (num 0)
    /\ get ["atrules"; "keyframes"; "total"] r = Some (num 0)
    /\ get ["atrules"; "import"; "total"] r = Some (num 0)
    /\ get ["atrules"; "charset"; "total"] r = Some (num 0)
    /\ get ["atrules"; "container"; "total"] r = Some (num 0)
    /\ get ["atrules"; "layer"; "total"] r = Some (num 2)
    /\ exists mediaHacks supportsHacks prefixed,
         get ["atrules"; "media"; "browserhacks"; "total"] r = Some (num mediaHacks)
         /\ get ["atrules"; "supports"; "browserhacks"; "total"] r
            = Some (num supportsHacks)
         /\ get ["atrules"; "keyframes"; "prefixed"; "total"] r = Some (num prefixed)
         /\ mediaHacks <= 1 /\ supportsHacks <= 0 /\ prefixed <= 0.
Proof.
  destruct (analyze Demo.imports Demo.source tickingClock) as [e|r] eqn:H;
    [vm_compute in H; discriminate H|].
  exists r. split; [reflexivity|].
  exact (atrules_report Demo.imports Demo.source tickingClock r H).
Defined.

Lemma selectors_report_witness :
  exists r,
    analyze Demo.imports Demo.source tickingClock = inr r
    /\ get ["selectors"; "specificity"; "items"] r
       = Some (VArr [ VArr [numZ 1; numZ 0; numZ 0]; VArr [numZ 0; numZ 0; numZ 1] ])
    /\ get ["selectors"; "total"] r = Some (num 2)
    /\ get ["selectors"; "specificity"; "sum"] r = Some (VArr [numZ 1; numZ 0; numZ 1])
    /\ get ["selectors"; "id"; "total"] r = Some (num 1).
Proof.
  destruct (analyze Demo.imports Demo.source tickingClock) as [e|r] eqn:H;
    [vm_compute in H; discriminate H|].
  exists r. split; [reflexivity|].
  destruct (selectors_report Demo.imports Demo.source tickingClock r H)
    as (Hitems & Htotal & Hsum & Hid & _).
  repeat split; [exact Hitems | exact Htotal | exact Hsum | exact Hid].
Defined.

Lemma fontface_descriptors_witness :
  nodeChildren (Block (span 10 35) Demo.protoBlock) = Some Demo.protoBlock
  /\ exists sig st',
       visit sampleImports "@font-face{__proto__:x;src:y;src:z}" rootContext
         (Atrule (span 0 35) "font-face" None (Some (Block (span 10 35) Demo.protoBlock)))
         initialState = inr (sig, st')
       /\ exists descriptors,
            fontfaces st' = fontfaces initialState ++ [descriptors]
            /\ NoDup (map fst descriptors)
            /\ descriptorOf "__proto__" descriptors = None
            /\ descriptorOf "src" descriptors = Some "z".
Proof.
  split; [reflexivity|].
  destruct (visit sampleImports "@font-face{__proto__:x;src:y;src:z}" rootContext
              (Atrule (span 0 35) "font-face" None
                 (Some (Block (span 10 35) Demo.protoBlock))) initialState)
    as [e|[sig st']] eqn:H; [vm_compute in H; discriminate H|].
  exists sig, st'. split; [reflexivity|].
  destruct (fontface_descriptors sampleImports "@font-face{__proto__:x;src:y;src:z}"
              rootContext (span 0 35) None (Block (span 10 35) Demo.protoBlock)
              Demo.protoBlock initialState sig st' eq_refl H)
    as (d & Hf & Hn & Hd).
  exists d. repeat split; [exact Hf | exact Hn | exact (Hd "__proto__") | exact (Hd "src")].
Defined.

Lemma values_report_witness :
  exists r,
    analyze Demo.imports Demo.source tickingClock = inr r
    /\ get ["values"; "zindexes"; "total"] r = Some (num 1)
    /\ get ["values"; "prefixes"; "total"] r = Some (num 0)
    /\ get ["values"; "browserhacks"; "total"] r = Some (num 1).
Proof.
  destruct (analyze Demo.imports Demo.source tickingClock) as [e|r] eqn:H;
    [vm_compute in H; discriminate H|].
  exists r. split; [reflexivity|].
  exact (values_report Demo.imports Demo.source tickingClock r H).
Defined.

Lemma meta_report_witness :
  (forall k, (tickingClock k <= tickingClock (S k))%Z)
  /\ exists r,
       analyze Demo.imports Demo.source tickingClock = inr r
       /\ exists parseTime analyzeTime total,
            get ["__meta__"; "parseTime"] r = Some (numZ parseTime)
            /\ get ["__meta__"; "analyzeTime"] r = Some (numZ analyzeTime)
            /\ get ["__meta__"; "total"] r = Some (numZ total)
            /\ (0 <= parseTime)%Z /\ (0 <= analyzeTime)%Z
            /\ (parseTime + analyzeTime <= total)%Z.
Proof.
  assert (Hclock : forall k, (tickingClock k <= tickingClock (S k))%Z).
  { intros k. unfold tickingClock. lia. }
  split; [exact Hclock|].
  destruct (analyze Demo.imports Demo.source tickingClock) as [e|r] eqn:H;
    [vm_compute in H; discriminate H|].
  exists r. split; [reflexivity|].
  exact (meta_report Demo.imports Demo.source tickingClock r Hclock H).
Defined.

Lemma ie9_hack_stripped_witness :
  declaration Demo.inWidthDeclaration = Some Demo.widthDeclaration
  /\ visit sampleImports "a{width:1px\9}" Demo.inWidthDeclaration
       (Dimension (span 8 13) "1" "px\9") initialState
     = inr (Skip, setContextual units [("px", (1%positive, [("width", 1%positive)]))]
                    initialState).
Proof.
  split; [reflexivity|].
  exact (proj1 (ie9_hack_stripped sampleImports "a{width:1px\9}" Demo.inWidthDeclaration
                  Demo.widthDeclaration (span 8 13) "1" "px" "fff" "color" initialState
                  eq_refl)).
Defined.

Lemma uniques_report_witness :
  exists r,
    analyze Demo.imports Demo.source tickingClock = inr r
    /\ exists declarations selectors,
         distinctOf (textsOf Demo.source isCountedDeclaration
                       (visits Demo.imports (fst (parse Demo.imports Demo.source))))
           declarations
         /\ distinctOf (textsOf Demo.source isPlainSelector
                          (visits Demo.imports (fst (parse Demo.imports Demo.source))))
              selectors
         /\ get ["declarations"; "totalUnique"] r = Some (num (List.length declarations))
         /\ get ["selectors"; "totalUnique"] r = Some (num (List.length selectors)).
Proof.
  destruct (analyze Demo.imports Demo.source tickingClock) as [e|r] eqn:H;
    [vm_compute in H; discriminate H|].
  exists r. split; [reflexivity|].
  exact (uniques_report Demo.imports Demo.source tickingClock r H).
Defined.

